(** * Marketor: influencer discovery and Steam-key outreach

    A shallow embedding of the two scripts of the repository,
    [influencer_parser.py] and [gmail_draft_generator.py], and the
    properties of their scoring, extraction and key-ledger code.

    Conventions of the embedding.
    - A Python [str] is a [string]; its characters are the ASCII range.
      Text outside ASCII is kept as its UTF-8 bytes. One function reads
      such bytes: the search of [extract_social_links], because
      [re.IGNORECASE] takes four characters outside ASCII for letters.
    - A Python [int] is a [Z]; a [float] that the code only compares
      with integers, or builds from integers and halves, is the rational
      it denotes, a [Q] (such sums are exact in binary floating point).
      Formatting a float quotient is left to a collaborator.
    - A [dict] keyed by strings is a [gmap string _]; a missing key is a
      lookup that answers [None].
    - A raised exception is the [Raise] case of [result]. *)

From Stdlib Require Import ZArith QArith Qround Qminmax Lqa Ascii String List Lia Bool.
From stdpp Require Import gmap strings list fin_maps.

Local Open Scope Z_scope.

(* ================================================================== *)
(** * Part I: definitions *)
(* ================================================================== *)

(** ** Python string primitives *)

Module PyStr.

Definition code (c : ascii) : nat := nat_of_ascii c.

Definition in_range (lo hi : nat) (c : ascii) : bool :=
  ((lo <=? code c) && (code c <=? hi))%nat.

Definition is_upper : ascii -> bool := in_range 65 90.
Definition is_lower : ascii -> bool := in_range 97 122.
Definition is_digit : ascii -> bool := in_range 48 57.
Definition is_alnum (c : ascii) : bool := is_upper c || is_lower c || is_digit c.

(** [str.isspace] on ASCII: TAB, LF, VT, FF, CR, FS, GS, RS, US, SPACE. *)
Definition is_space (c : ascii) : bool := in_range 9 13 c || in_range 28 32 c.

Definition lower_char (c : ascii) : ascii :=
  if is_upper c then ascii_of_nat (code c + 32) else c.

(** [s.lower()] *)
Fixpoint lower (s : string) : string :=
  match s with
  | EmptyString => EmptyString
  | String c s' => String (lower_char c) (lower s')
  end.

(** [sub in s] *)
Fixpoint contains (sub s : string) : bool :=
  String.prefix sub s ||
  match s with
  | EmptyString => false
  | String _ s' => contains sub s'
  end.

(** [s[:n]] for [n >= 0] *)
Fixpoint take (n : nat) (s : string) : string :=
  match n, s with
  | S k, String c s' => String c (take k s')
  | _, _ => EmptyString
  end.

(** [s[n:]] for [n >= 0] *)
Fixpoint drop (n : nat) (s : string) : string :=
  match n, s with
  | S k, String _ s' => drop k s'
  | _, _ => s
  end.

(** The scan of [s.replace(old, new)] for a non-empty [old]: left to
    right, occurrences do not overlap. [skip] counts the characters of
    the occurrence just replaced that are still to be passed over. *)
Fixpoint replace_go (old new : string) (skip : nat) (s : string) : string :=
  match s with
  | EmptyString => EmptyString
  | String c s' =>
      match skip with
      | S k => replace_go old new k s'
      | O =>
          if String.prefix old s
          then new +:+ replace_go old new (String.length old - 1) s'
          else String c (replace_go old new 0 s')
      end
  end.

(** With an empty [old] Python puts [new] around every character. *)
Fixpoint replace_empty (new s : string) : string :=
  match s with
  | EmptyString => new
  | String c s' => new +:+ String c (replace_empty new s')
  end.

(** [s.replace(old, new)] *)
Definition replace (old new s : string) : string :=
  match old with
  | EmptyString => replace_empty new s
  | String _ _ => replace_go old new 0 s
  end.

Fixpoint lstrip (s : string) : string :=
  match s with
  | EmptyString => EmptyString
  | String c s' => if is_space c then lstrip s' else s
  end.

Fixpoint rstrip (s : string) : string :=
  match s with
  | EmptyString => EmptyString
  | String c s' =>
      match rstrip s' with
      | EmptyString => if is_space c then EmptyString else String c EmptyString
      | r => String c r
      end
  end.

(** [s.strip()] *)
Definition strip (s : string) : string := rstrip (lstrip s).

(** [s.split(sep)] for a one-character separator. *)
Fixpoint split (sep : ascii) (s : string) : list string :=
  match s with
  | EmptyString => [EmptyString]
  | String c s' =>
      if Ascii.eqb c sep then EmptyString :: split sep s'
      else match split sep s' with
           | x :: r => String c x :: r
           | [] => [String c EmptyString]
           end
  end.

(** [sep.join(l)] *)
Fixpoint join (sep : string) (l : list string) : string :=
  match l with
  | [] => EmptyString
  | [x] => x
  | x :: r => x +:+ sep +:+ join sep r
  end.

(** Every character of [s] is in the class. *)
Fixpoint all_chars (cls : ascii -> bool) (s : string) : bool :=
  match s with
  | EmptyString => true
  | String c s' => cls c && all_chars cls s'
  end.

Definition no_space (c : ascii) : bool := negb (is_space c).

(** Truthiness of a [str]. *)
Definition nonempty (s : string) : bool :=
  match s with EmptyString => false | _ => true end.

(** [any(k in s for k in kws)] *)
Definition any_in (kws : list string) (s : string) : bool :=
  existsb (fun k => contains k s) kws.

(** [sum(w for keyword in kws if keyword in text)], the generator
    consumed from the left with a running total. *)
Definition sum_matches (w : Z) (kws : list string) (text : string) : Z :=
  fold_left (fun acc k => if contains k text then acc + w else acc) kws 0.

(** Decimal text of an [int], as [str(n)] prints it. *)
Fixpoint digits_go (fuel : nat) (n : N) (acc : string) : string :=
  match fuel with
  | O => acc
  | S f =>
      let d := ascii_of_N (48 + N.modulo n 10) in
      let q := N.div n 10 in
      if N.eqb q 0 then String d acc else digits_go f q (String d acc)
  end.

Definition str_of_Z (z : Z) : string :=
  let n := Z.abs_N z in
  let body := digits_go (S (N.to_nat (N.log2 n))) n EmptyString in
  if z <? 0 then String "-" body else body.

End PyStr.

(** ** The scanner behind [re.findall] *)

Module Regex.
Import PyStr.

(** The fragment of the pattern language that the email pattern uses. *)
Inductive atom :=
| Boundary                                  (* \b *)
| Lit (c : ascii)                           (* one literal character *)
| Rep (cls : ascii -> bool) (min : nat).    (* greedy [cls]{min,} *)

(** [\w] on ASCII *)
Definition is_word (c : ascii) : bool := is_alnum c || Ascii.eqb c "_".

Definition word_opt (o : option ascii) : bool :=
  match o with Some c => is_word c | None => false end.

Definition first_char (s : string) : option ascii :=
  match s with EmptyString => None | String c _ => Some c end.

Definition at_boundary (prev : option ascii) (s : string) : bool :=
  xorb (word_opt prev) (word_opt (first_char s)).

(** Length of the longest prefix of [s] inside the class. *)
Fixpoint run (cls : ascii -> bool) (s : string) : nat :=
  match s with
  | String c s' => if cls c then S (run cls s') else O
  | EmptyString => O
  end.

(** The character before position [n] of [s], [prev] when [n = 0]. *)
Fixpoint before (n : nat) (prev : option ascii) (s : string) : option ascii :=
  match n, s with
  | S k, String c s' => before k (Some c) s'
  | _, _ => prev
  end.

(** Greedy repetition with backtracking: take [n] characters, and when
    the rest of the pattern [k] fails give one back, down to [min]. *)
Fixpoint greedy (k : option ascii -> string -> option nat)
    (min n : nat) (prev : option ascii) (s : string) : option nat :=
  if (n <? min)%nat then None
  else match k (before n prev s) (drop n s) with
       | Some m => Some (n + m)%nat
       | None =>
           match n with
           | O => None
           | S n' => greedy k min n' prev s
           end
       end.

(** Match the pattern at the start of [s]; the answer is the number of
    characters of the match. *)
Fixpoint match_here (re : list atom) (prev : option ascii) (s : string)
    : option nat :=
  match re with
  | [] => Some O
  | Boundary :: re' =>
      if at_boundary prev s then match_here re' prev s else None
  | Lit c :: re' =>
      match s with
      | String d s' =>
          if Ascii.eqb c d then S <$> match_here re' (Some d) s' else None
      | EmptyString => None
      end
  | Rep cls min :: re' =>
      greedy (match_here re') min (run cls s) prev s
  end.

(** [re.findall(pattern, text)] for a pattern without groups: leftmost
    matches, the search resuming where the previous match ended. *)
Fixpoint findall_go (re : list atom) (skip : nat) (prev : option ascii)
    (s : string) : list string :=
  match s with
  | EmptyString =>
      match skip, match_here re prev EmptyString with
      | O, Some _ => [EmptyString]
      | _, _ => []
      end
  | String c s' =>
      match skip with
      | S k => findall_go re k (Some c) s'
      | O =>
          match match_here re prev s with
          | Some n => take n s :: findall_go re (n - 1) (Some c) s'
          | None => findall_go re 0 (Some c) s'
          end
      end
  end.

Definition findall (re : list atom) (text : string) : list string :=
  findall_go re 0 None text.

End Regex.

(** ** influencer_parser.py *)

Module Parser.
Import PyStr Regex.

(** *** extract_emails *)

(** [[A-Za-z0-9._%+-]] *)
Definition local_class (c : ascii) : bool :=
  is_alnum c || existsb (Ascii.eqb c) ["."; "_"; "%"; "+"; "-"]%char.

(** [[A-Za-z0-9.-]] *)
Definition domain_class (c : ascii) : bool :=
  is_alnum c || existsb (Ascii.eqb c) ["."; "-"]%char.

(** [[A-Z|a-z]]: the bar is a member of the class. *)
Definition tld_class (c : ascii) : bool :=
  is_upper c || Ascii.eqb c "|" || is_lower c.

(** [\b[A-Za-z0-9._%+-]+@[A-Za-z0-9.-]+\.[A-Z|a-z]{2,}\b] *)
Definition email_pattern : list atom :=
  [ Boundary; Rep local_class 1; Lit "@"; Rep domain_class 1; Lit ".";
    Rep tld_class 2; Boundary ].

(** The five lines of replacements, in the order the source applies
    them. *)
Definition deobfuscate (text : string) : string :=
  let text := replace " at " "@" (replace "(at)" "@" (replace "[at]" "@" text)) in
  let text := replace " dot " "." (replace "(dot)" "." (replace "[dot]" "." text)) in
  let text := replace "(AT)" "@" (replace "[AT]" "@" text) in
  let text := replace "(DOT)" "." (replace "[DOT]" "." text) in
  replace " . " "." (replace " @ " "@" text).

Definition skip_markers : list string :=
  ["example.com"; "domain.com"; "email.com"; "youremail"; "noreply"; "support@"].

Definition keep_email (email : string) : bool :=
  let email_lower := lower email in
  negb (any_in skip_markers email_lower).

(** [list(set(l))]: the distinct elements; Python leaves their order
    unspecified, the model keeps one order. *)
Definition list_set (l : list string) : list string := remove_dups l.

Definition extract_emails (text : string) : list string :=
  if negb (nonempty text) then []
  else
    let text := deobfuscate text in
    let emails := findall email_pattern text in
    let filtered_emails := List.filter keep_email emails in
    list_set filtered_emails.

(** *** is_gaming_channel *)

Definition dev_keywords : list string :=
  [ "game developer"; "game dev"; "gamedev"; "indie dev";
    "developing"; "my game"; "our game"; "game studio";
    "game designer"; "game artist"; "game programmer";
    "unity tutorial"; "unreal tutorial"; "godot tutorial";
    "game development"; "making games"; "created by" ].

Definition creator_keywords : list string :=
  [ "gameplay"; "playthrough"; "lets play"; "let's play";
    "walkthrough"; "speedrun"; "playing"; "streamer";
    "twitch"; "gamer"; "gaming channel"; "game review";
    "first impressions"; "indie game showcase" ].

Definition non_gaming : list string :=
  [ "vlog"; "recipe"; "cooking"; "makeup"; "fashion";
    "lifestyle"; "music video"; "official music" ].

Definition channel_text (description : string) (video_titles : list string)
    : string :=
  lower (description +:+ " " +:+ join " " video_titles).

Definition is_gaming_channel (description : string)
    (video_titles : list string) : bool :=
  let text := channel_text description video_titles in
  let dev_score := sum_matches 2 dev_keywords text in
  let creator_score := sum_matches 1 creator_keywords text in
  let non_gaming_score := sum_matches 1 non_gaming text in
  if dev_score >? 1 then false
  else if non_gaming_score >? creator_score then false
  else creator_score >=? 2.

(** *** analyze_sentiment *)

Definition positive_keywords : list string :=
  [ "indie"; "independent games"; "small studios"; "indie dev";
    "support indie"; "hidden gems"; "indie titles"; "indie scene";
    "unique games"; "creative games"; "innovative"; "experimental";
    "passion project"; "handcrafted"; "artistic"; "indie darling" ].

Definition negative_keywords : list string :=
  [ "aaa only"; "no indie"; "major titles only"; "big budget only";
    "triple-a exclusive" ].

Definition neutral_keywords : list string :=
  [ "all games"; "variety"; "mixed content"; "different genres" ].

Record sentiment_result := {
  score : Q;
  sentiment : string;
  indicators : list string
}.

(** [min(a, b)] and [max(a, b)]: the first argument wins a tie. *)
Definition py_min (a b : Q) : Q := if Qlt_le_dec b a then b else a.
Definition py_max (a b : Q) : Q := if Qlt_le_dec a b then b else a.

(** Nearest integer, a tie going to the even neighbour. *)
Definition round_half_even (q : Q) : Z :=
  let f := Qfloor q in
  match ((q - inject_Z f) ?= (1 # 2))%Q with
  | Lt => f
  | Gt => f + 1
  | Eq => if Z.even f then f else f + 1
  end.

(** [round(q, 2)] *)
Definition round2 (q : Q) : Q := (round_half_even (q * 100) # 100)%Q.

(** The two loops that collect the indicators. *)
Definition collect (sign : string) (kws : list string) (text : string)
    (acc : list string) : list string :=
  fold_left (fun acc k => if contains k text then acc ++ [sign +:+ k] else acc)
    kws acc.

Definition classify (score : Q) : string :=
  if Qle_bool 3 score then "very_positive"
  else if Qle_bool 1 score then "positive"
  else if Qle_bool (-1) score then "neutral"
  else if Qle_bool (-3) score then "negative"
  else "very_negative".

Definition analyze_sentiment (text : string) : sentiment_result :=
  if negb (nonempty text)
  then {| score := 0; sentiment := "neutral"; indicators := [] |}
  else
    let text_lower := lower text in
    let positive_count := sum_matches 1 positive_keywords text_lower in
    let negative_count := sum_matches 1 negative_keywords text_lower in
    let neutral_count := sum_matches 1 neutral_keywords text_lower in
    let score :=
      (inject_Z (positive_count * 2) - inject_Z (negative_count * 3)
       + inject_Z neutral_count * (1 # 2))%Q in
    let score := py_max (-10) (py_min 10 score) in
    let sentiment := classify score in
    let indicators := collect "+" positive_keywords text_lower [] in
    let indicators := collect "-" negative_keywords text_lower indicators in
    {| score := round2 score;
       sentiment := sentiment;
       indicators := List.firstn 5 indicators |}.

(** *** calculate_response_likelihood *)

(** The keys of [influencer_data] that the scorer reads; [None] is a
    key that the dict does not have. *)
Record influencer_data := {
  email_count : option Z;
  has_business_terms : option string;
  twitter : option string;
  discord : option string;
  instagram : option string;
  indie_sentiment : option string;
  upload_frequency_days : option Q;
  engagement_rate_numeric : option Q;
  followers : option Z
}.

Record likelihood_result := {
  response_score : Z;
  likelihood : string;
  factors : list string
}.

(** [d.get(key, dflt)] *)
Definition get {A} (o : option A) (dflt : A) : A := default dflt o.

(** Truthiness of [d.get(key)] for a string-valued key. *)
Definition truthy (o : option string) : bool :=
  match o with Some s => nonempty s | None => false end.

Definition Qlt_bool (a b : Q) : bool := negb (Qle_bool b a).

(** The running pair of [score] and [factors]. *)
Definition tally : Type := Z * list string.

(** [score += d; factors.append(factor)] *)
Definition adjust (d : Z) (factor : string) (st : tally) : tally :=
  (st.1 + d, st.2 ++ [factor]).

Definition email_step (d : influencer_data) (st : tally) : tally :=
  if get (email_count d) 0 >? 0
  then adjust 20 "âœ“ Email available" st
  else adjust (-15) "âœ— No email found" st.

Definition business_step (d : influencer_data) (st : tally) : tally :=
  if bool_decide (has_business_terms d = Some "Yes")
  then adjust 15 "âœ“ Open to business" st
  else st.

Definition contact_methods (d : influencer_data) : Z :=
  (if get (email_count d) 0 >? 0 then 1 else 0)
  + (if truthy (twitter d) then 1 else 0)
  + (if truthy (discord d) then 1 else 0)
  + (if truthy (instagram d) then 1 else 0).

Definition contact_step (d : influencer_data) (st : tally) : tally :=
  let contact_methods := contact_methods d in
  if contact_methods >=? 3
  then adjust 10 ("âœ“" +:+ str_of_Z contact_methods +:+ " contact methods") st
  else st.

Definition sentiment_step (d : influencer_data) (st : tally) : tally :=
  let sentiment := get (indie_sentiment d) "neutral" in
  if String.eqb sentiment "very_positive"
  then adjust 10 "âœ“ Very positive about indies" st
  else if String.eqb sentiment "positive"
  then adjust 5 "âœ“ Positive about indies" st
  else if existsb (String.eqb sentiment) ["negative"; "very_negative"]
  then adjust (-10) "âœ— Not focused on indies" st
  else st.

Definition upload_step (d : influencer_data) (st : tally) : tally :=
  let upload_freq := get (upload_frequency_days d) 0%Q in
  if Qlt_bool 0 upload_freq && Qle_bool upload_freq 3
  then adjust 10 "âœ“ Very active (posts daily)" st
  else if Qle_bool upload_freq 7
  then adjust 5 "âœ“ Active (posts weekly)" st
  else if Qlt_bool 30 upload_freq
  then adjust (-10) "âœ— Inactive creator" st
  else st.

Definition engagement_step (d : influencer_data) (st : tally) : tally :=
  let engagement := get (engagement_rate_numeric d) 0%Q in
  if Qlt_bool 10 engagement
  then adjust 10 "âœ“ High engagement rate" st
  else if Qlt_bool 5 engagement
  then adjust 5 "âœ“ Good engagement" st
  else if Qlt_bool engagement 1 && Qlt_bool 0 engagement
  then adjust (-5) "~ Low engagement" st
  else st.

Definition followers_step (d : influencer_data) (st : tally) : tally :=
  let followers := get (followers d) 0 in
  if (5000 <=? followers) && (followers <=? 100000)
  then adjust 10 "âœ“ Mid-tier size (responsive)" st
  else if followers >? 500000
  then adjust (-10) "~ Very large (less personal)" st
  else st.

Definition likelihood_of (score : Z) : string :=
  if score >=? 75 then "Very High"
  else if score >=? 60 then "High"
  else if score >=? 40 then "Medium"
  else if score >=? 25 then "Low"
  else "Very Low".

Definition calculate_response_likelihood (influencer_data : influencer_data)
    : likelihood_result :=
  let st : tally := (50, []) in
  let st := email_step influencer_data st in
  let st := business_step influencer_data st in
  let st := contact_step influencer_data st in
  let st := sentiment_step influencer_data st in
  let st := upload_step influencer_data st in
  let st := engagement_step influencer_data st in
  let st := followers_step influencer_data st in
  let score := Z.max 0 (Z.min 100 st.1) in
  {| response_score := score;
     likelihood := likelihood_of score;
     factors := st.2 |}.

End Parser.

(** ** gmail_draft_generator.py *)

Module Gmail.
Import PyStr.

(** *** Exceptions and dynamically typed values *)

Inductive exn := TypeError | AttributeError | IndexError | KeyError | CsvError.

Inductive result (A : Type) :=
| Ok (a : A)
| Raise (e : exn).
Arguments Ok {A} a.
Arguments Raise {A} e.

(** Sequencing: an exception ends the computation. *)
Definition bind {A B} (m : result A) (f : A -> result B) : result B :=
  match m with
  | Ok a => f a
  | Raise e => Raise e
  end.

Notation "'let*' x ':=' m 'in' k" := (bind m (fun x => k))
  (at level 10, x name, m at level 100, k at level 200).

#[export] Instance result_fmap : FMap result := fun A B f m =>
  match m with
  | Ok a => Ok (f a)
  | Raise e => Raise e
  end.

(** The values found in the rows of the influencer CSV and in the
    entries of the ledger. *)
Inductive value :=
| VNone
| VBool (b : bool)
| VInt (z : Z)
| VStr (s : string).

#[export] Instance value_eq_dec : EqDecision value.
Proof. solve_decision. Defined.

(** Truthiness *)
Definition truth (v : value) : bool :=
  match v with
  | VNone => false
  | VBool b => b
  | VInt z => negb (z =? 0)
  | VStr s => nonempty s
  end.

(** [str(v)], which is also how an f-string prints [v]. *)
Definition str_of (v : value) : string :=
  match v with
  | VNone => "None"
  | VBool true => "True"
  | VBool false => "False"
  | VInt z => str_of_Z z
  | VStr s => s
  end.

(** The receiver of a [str] method: anything but a string has no such
    attribute. *)
Definition as_str (v : value) : result string :=
  match v with
  | VStr s => Ok s
  | _ => Raise AttributeError
  end.

(** The left operand of a comparison with an [int]. *)
Definition as_int (v : value) : result Z :=
  match v with
  | VInt z => Ok z
  | VBool b => Ok (Z.b2z b)
  | _ => Raise TypeError
  end.

(** [l[:k]] on a list, [k] of either sign. *)
Definition slice_to {A} (k : Z) (l : list A) : list A :=
  if 0 <=? k then firstn (Z.to_nat k) l
  else firstn (length l - Z.to_nat (- k)) l.

(** *** Reading text files *)

Definition LF : ascii := "010".
Definition CR : ascii := "013".
Definition TAB : ascii := "009".
Definition QUOTE : ascii := "034".

(** Text mode with the default [newline=None]: CR LF and a lone CR are
    read as LF. *)
Fixpoint universal_newlines (s : string) : string :=
  match s with
  | EmptyString => EmptyString
  | String c s' =>
      if Ascii.eqb c CR then
        match s' with
        | String d s'' =>
            if Ascii.eqb d LF then universal_newlines s'
            else String LF (universal_newlines s')
        | EmptyString => String LF EmptyString
        end
      else String c (universal_newlines s')
  end.

(** The lines that iterating over the file yields, each with its line
    end. *)
Fixpoint readlines (s : string) : list string :=
  match s with
  | EmptyString => []
  | String c s' =>
      if Ascii.eqb c LF then String c EmptyString :: readlines s'
      else match readlines s' with
           | x :: r => String c x :: r
           | [] => [String c EmptyString]
           end
  end.

(** [f.readline()] at the start of the file. *)
Definition readline (lines : list string) : string :=
  match lines with
  | l :: _ => l
  | [] => EmptyString
  end.

(** *** csv.reader, default dialect

    The reader of the standard library with the [excel] dialect:
    delimiter comma, quote character [QUOTE] doubled inside a quoted
    field, no escape character, not strict. A field longer than the
    field limit raises; a NUL character is read like any other, as the
    reader does since Python 3.11. *)

Inductive parse_state :=
| START_RECORD | START_FIELD | IN_FIELD
| IN_QUOTED_FIELD | QUOTE_IN_QUOTED_FIELD | EAT_CRNL.

#[export] Instance parse_state_eq_dec : EqDecision parse_state.
Proof. solve_decision. Defined.

Record reader := {
  state : parse_state;
  field : string;          (* the field being read *)
  field_len : N;
  fields : list string     (* the fields of the record so far *)
}.

Definition field_limit : N := 131072.

Definition parse_reset : reader :=
  {| state := START_RECORD; field := EmptyString; field_len := 0; fields := [] |}.

Definition parse_save_field (r : reader) : reader :=
  {| state := state r; field := EmptyString; field_len := 0;
     fields := fields r ++ [field r] |}.

Definition parse_add_char (c : ascii) (r : reader) : result reader :=
  if (field_limit <=? field_len r)%N then Raise CsvError
  else Ok {| state := state r; field := field r +:+ String c EmptyString;
             field_len := N.succ (field_len r); fields := fields r |}.

Definition set_state (s : parse_state) (r : reader) : reader :=
  {| state := s; field := field r; field_len := field_len r; fields := fields r |}.

Definition is_newline (c : ascii) : bool := Ascii.eqb c LF || Ascii.eqb c CR.

(** One step of the machine; [None] is the end-of-line signal that
    follows the last character of every line. *)
Definition parse_process_char (r : reader) (c : option ascii) : result reader :=
  let start_field (c : option ascii) : result reader :=
    match c with
    | None => Ok (set_state START_RECORD (parse_save_field r))
    | Some ch =>
        if is_newline ch then Ok (set_state EAT_CRNL (parse_save_field r))
        else if Ascii.eqb ch QUOTE then Ok (set_state IN_QUOTED_FIELD r)
        else if Ascii.eqb ch "," then Ok (set_state START_FIELD (parse_save_field r))
        else set_state IN_FIELD <$> parse_add_char ch r
    end in
  match state r with
  | START_RECORD =>
      match c with
      | None => Ok r
      | Some ch =>
          if is_newline ch then Ok (set_state EAT_CRNL r)
          else start_field c
      end
  | START_FIELD => start_field c
  | IN_FIELD =>
      match c with
      | None => Ok (set_state START_RECORD (parse_save_field r))
      | Some ch =>
          if is_newline ch then Ok (set_state EAT_CRNL (parse_save_field r))
          else if Ascii.eqb ch "," then Ok (set_state START_FIELD (parse_save_field r))
          else parse_add_char ch r
      end
  | IN_QUOTED_FIELD =>
      match c with
      | None => Ok r
      | Some ch =>
          if Ascii.eqb ch QUOTE then Ok (set_state QUOTE_IN_QUOTED_FIELD r)
          else parse_add_char ch r
      end
  | QUOTE_IN_QUOTED_FIELD =>
      match c with
      | None => Ok (set_state START_RECORD (parse_save_field r))
      | Some ch =>
          if Ascii.eqb ch QUOTE then set_state IN_QUOTED_FIELD <$> parse_add_char ch r
          else if Ascii.eqb ch "," then Ok (set_state START_FIELD (parse_save_field r))
          else if is_newline ch then Ok (set_state EAT_CRNL (parse_save_field r))
          else set_state IN_FIELD <$> parse_add_char ch r
      end
  | EAT_CRNL =>
      match c with
      | None => Ok (set_state START_RECORD r)
      | Some ch => if is_newline ch then Ok r else Raise CsvError
      end
  end.

(** The characters of one line, then the end-of-line signal. *)
Fixpoint feed_line (r : reader) (line : string) : result reader :=
  match line with
  | EmptyString => parse_process_char r None
  | String c line' => let* r' := parse_process_char r (Some c) in feed_line r' line'
  end.

(** All the records of the reader. A record ends when the machine is
    back in [START_RECORD] after a line; input that ends inside a record
    closes the record. Every record starts from a reset machine. *)
Fixpoint reader_rows (r : reader) (lines : list string)
    : result (list (list string)) :=
  match lines with
  | [] =>
      if negb (field_len r =? 0)%N || bool_decide (state r = IN_QUOTED_FIELD)
      then Ok [fields (parse_save_field r)]
      else Ok []
  | line :: rest =>
      let* r' := feed_line r line in
      if bool_decide (state r' = START_RECORD)
      then let* rows := reader_rows parse_reset rest in Ok (fields r' :: rows)
      else reader_rows r' rest
  end.

Definition csv_reader (lines : list string) : result (list (list string)) :=
  reader_rows parse_reset lines.

(** *** load_steam_keys *)

(** The loop over the header that stops at the first column whose
    lowered name contains [key]. *)
Fixpoint find_key_column (i : nat) (header : list string) : option nat :=
  match header with
  | [] => None
  | col :: rest =>
      if contains "key" (lower col) then Some i
      else find_key_column (S i) rest
  end.

(** [key and len(key) > 10] *)
Definition valid_key (key : string) : bool :=
  nonempty key && (10 <? String.length key)%nat.

(** The loop over the rows of a CSV pool. *)
Definition keys_of_rows (key_column : nat) (rows : list (list string))
    : list string :=
  fold_left
    (fun keys row =>
       match row !! key_column with
       | Some cell =>
           let key := strip cell in
           if valid_key key then keys ++ [key] else keys
       | None => keys
       end)
    rows [].

(** The loop over the lines of a plain-text pool. *)
Definition keys_of_lines (lines : list string) : list string :=
  fold_left
    (fun keys line =>
       let key := strip line in
       if valid_key key then keys ++ [key] else keys)
    lines [].

(** [file] is the text of the key file, [None] when there is no such
    file. *)
Definition load_steam_keys (file : option string) : result (list string) :=
  match file with
  | None => Ok []
  | Some text =>
      let lines := readlines (universal_newlines text) in
      let first_line := strip (readline lines) in
      if contains "," first_line || contains (String TAB EmptyString) first_line
      then
        let* rows := csv_reader lines in
        let header := head rows in
        let key_column :=
          match header with
          | Some (col :: cols) => find_key_column 0 (col :: cols)
          | _ => None
          end in
        match key_column with
        | Some key_column => Ok (keys_of_rows key_column (tail rows))
        | None =>
            (* f.seek(0): the reader starts over, header row included *)
            Ok (keys_of_rows 0 rows)
        end
      else Ok (keys_of_lines lines)
  end.

(** *** The ledger of key assignments *)

(** A row of the influencer CSV, and an entry of the ledger: a [dict]
    with string keys. *)
Abbreviation pydict := (gmap string value).

(** The ledger maps a recipient address to its entry. *)
Abbreviation ledger := (gmap string (gmap string value)).

(** [d.get(k, dflt)] *)
Definition dget (d : pydict) (k : string) (dflt : value) : value :=
  default dflt (d !! k).

(** [load_key_assignments()]: the ledger stored in the file, the empty
    one when there is no file. *)
Definition load_key_assignments (file : option ledger) : ledger :=
  match file with
  | Some assignments => assignments
  | None => ∅
  end.

(** [save_key_assignment(assignments)]: the file after the call. *)
Definition save_key_assignment (assignments : ledger) : option ledger :=
  Some assignments.

(** What the program takes from outside and the embedding leaves open:
    the formatting of a float quotient, the wall clock, and the mail
    service. *)
Record collaborators := {
  format_1f : Z -> Z -> string;      (* f"{n / d:.1f}" *)
  now_isoformat : nat -> string;     (* datetime.now().isoformat(), by reading *)
  gmail_service : bool;              (* get_gmail_service() gave a service *)
  create_draft : nat -> bool         (* create_draft() succeeded, by call *)
}.

(** *** generate_email_content *)

Definition GAME_NAME : string := "This is no cave".
Definition STEAM_RELEASE_DATE : string := "October 17th".
Definition YOUR_NAME : string := "Dimitri Kouliche".
Definition YOUR_STUDIO : string := "monome.studio".
Definition STEAM_PAGE : string :=
  "https://store.steampowered.com/app/2852760/This_Is_No_Cave/".
Definition PRESS_KIT : string :=
  "https://drive.google.com/drive/folders/15G7kTkI2JRpEGLLCwWsPjb02QjdazZX2".
Definition INSTAGRAM : string := "https://www.instagram.com/monome.studio/".
Definition TIKTOK : string := "https://www.tiktok.com/@monomestudio".

Definition dquote : string := String QUOTE EmptyString.

Record email_content := {
  subject : string;
  body : string;
  to : value
}.

(** [f"{s[:n]}{'...' if len(s) > n else ''}"] *)
Definition shortened (n : nat) (s : string) : string :=
  take n s +:+ (if (n <? String.length s)%nat then "..." else "").

(** The f-string of the body. *)
Definition email_body (name : value)
    (opening_line feature_hook steam_key : string) : string :=
  "Hi " +:+
  str_of name +:+
  ",

" +:+
  opening_line +:+
  "

I'm " +:+
  YOUR_NAME +:+
  " from " +:+
  YOUR_STUDIO +:+
  ", and I've been developing " +:+
  GAME_NAME +:+
  " - a fast-paced 2D platformer that's fully playable with just a mouse (gamepad support too!). It launches on Steam on " +:+
  STEAM_RELEASE_DATE +:+
  ".

" +:+
  feature_hook +:+
  "

Here's what makes it special:
• Mouse-only controls (surprisingly challenging and satisfying!)
• Built for speedrunning with leaderboards on every level
• 4-player local co-op (perfect for couch gaming content!)
• Infinite roguelite mode with procedurally generated levels
• Eye-catching art style that performs great on social media

I'd love for you to check it out before launch. Here's your personal Steam key:

🔑 " +:+
  steam_key +:+
  "

No pressure whatsoever - if you enjoy it and want to share it with your audience, that would be incredible. If it's not your thing, no worries at all! I genuinely appreciate any feedback either way.

Want to see it in action first?
Steam Page: " +:+
  STEAM_PAGE +:+
  "
Press Kit (trailers, screenshots, GIFs): " +:+
  PRESS_KIT +:+
  "

Our socials if you want a preview of the visual style:
Instagram: " +:+
  INSTAGRAM +:+
  "
TikTok: " +:+
  TIKTOK +:+
  "

Happy to answer any questions or provide additional info/assets!

Best,
" +:+
  YOUR_NAME +:+
  "
" +:+
  YOUR_STUDIO +:+
  "

P.S. - If you're into speedrunning, I'd be really curious to see what times you can get on the leaderboards. The movement tech has some surprising depth once you master it!".

Definition follower_str (w : collaborators) (followers : value) : result string :=
  let* n := as_int followers in
  if n >=? 1000000 then Ok (format_1f w n 1000000 +:+ "M")
  else if n >=? 1000 then Ok (format_1f w n 1000 +:+ "K")
  else Ok (str_of followers).

(** [v and p(v.lower())] *)
Definition and_lower (v : value) (p : string -> bool) : result bool :=
  if truth v then let* s := as_str v in Ok (p (lower s)) else Ok false.

Definition opening_line (follower_str : string) (last_video last_game : value)
    : result string :=
  let* played := and_lower last_game
    (any_in ["celeste"; "meat boy"; "hollow knight"; "cuphead"; "ori"]) in
  if played then
    Ok ("I saw you recently played " +:+ str_of last_game
        +:+ " - clearly you appreciate tight, skill-based platformers!")
  else
    let* speedrun := and_lower last_video (contains "speedrun") in
    if speedrun then
      let* v := as_str last_video in
      Ok ("I loved your speedrun content in " +:+ dquote +:+ shortened 45 v
          +:+ dquote +:+ " - you're going to love this game!")
    else if truth last_game then
      Ok ("I saw you recently played " +:+ str_of last_game
          +:+ ", and thought you might enjoy something a bit different!")
    else if truth last_video then
      let* v := as_str last_video in
      Ok ("I loved your recent video " +:+ dquote +:+ shortened 50 v
          +:+ dquote +:+ " - your " +:+ follower_str
          +:+ " community clearly appreciates great gaming content!")
    else
      Ok ("Your " +:+ follower_str
          +:+ " community clearly appreciates great gaming content!").

Definition feature_hook (video_lower : string) (is_tiktok_instagram : bool)
    : string :=
  if contains "speedrun" video_lower || contains "speed" video_lower then
    "The game was designed with speedrunners in mind - every level has leaderboards and the movement system rewards mastery. Plus, it's mouse-controlled, which adds a unique skill ceiling!"
  else if any_in ["co-op"; "coop"; "multiplayer"; "local"; "4 player"] video_lower then
    "The 4-player local co-op is perfect for collaborative content - the chaos of coordinating mouse movements with friends is hilarious and challenging!"
  else if is_tiktok_instagram then
    "The art style and animations have been killing it on social media (check our Instagram/TikTok if you're curious!) - very satisfying movement and visual feedback."
  else
    "It's got that 'one more try' addictiveness that makes for great content - tight controls, leaderboards, and surprising depth despite the simple mouse controls.".

Definition email_subject (video_lower : string) : string :=
  if contains "speedrun" video_lower then
    "Speedrunner's dream? " +:+ GAME_NAME +:+ " key for you"
  else if any_in ["co-op"; "coop"; "multiplayer"] video_lower then
    "4-player chaos: " +:+ GAME_NAME +:+ " key inside"
  else
    "Steam key: " +:+ GAME_NAME +:+ " (mouse-controlled platformer)".

(** [emails.split(',')[0].strip()] *)
Definition first_email (emails : string) : string :=
  strip (List.hd EmptyString (split "," emails)).

Definition generate_email_content (w : collaborators) (influencer : pydict)
    (steam_key : string) : result email_content :=
  let display_name := dget influencer "display_name" VNone in
  let name :=
    if truth display_name then display_name
    else dget influencer "username" (VStr "there") in
  let platform := dget influencer "platform" (VStr "YouTube") in
  let followers := dget influencer "followers" (VInt 0) in
  let last_video := dget influencer "last_video_title" (VStr "recent content") in
  let last_game := dget influencer "last_game_played" (VStr "") in
  (* [sentiment] and [indie_positive] are computed by the source and not
     used afterwards; reading them cannot raise. *)
  let* follower_str := follower_str w followers in
  let* opening_line := opening_line follower_str last_video last_game in
  let* platform_lower := lower <$> as_str platform in
  let is_tiktok_instagram :=
    bool_decide (platform_lower ∈ ["instagram"; "tiktok"]) in
  let* video_lower := lower <$> as_str last_video in
  let feature_hook := feature_hook video_lower is_tiktok_instagram in
  let subject := email_subject video_lower in
  let body := email_body name opening_line feature_hook steam_key in
  let* emails := as_str (dget influencer "emails" (VStr "")) in
  Ok {| subject := subject;
        body := body;
        to := dget influencer "primary_email" (VStr (first_email emails)) |}.

(** *** generate_campaign *)

(** A loop whose body may raise. *)
Fixpoint for_each {A S} (body : S -> A -> result S) (l : list A) (s : S)
    : result S :=
  match l with
  | [] => Ok s
  | x :: rest => let* s' := body s x in for_each body rest s'
  end.

(** The filter of the rows with a usable address; it stores the first
    address of the row under [primary_email]. *)
Definition keep_valid (valid_influencers : list pydict) (inf : pydict)
    : result (list pydict) :=
  let emails := dget inf "emails" (VStr "Not found") in
  if truth emails && bool_decide (emails <> VStr "Not found") then
    match emails with
    | VStr e =>
        if contains "@" e then
          let email := first_email e in
          Ok (valid_influencers ++ [<["primary_email" := VStr email]> inf])
        else Ok valid_influencers
    | _ => Raise TypeError          (* ['@' in emails] on a non-iterable *)
    end
  else Ok valid_influencers.

(** The variables that the main loop updates. *)
Record campaign := {
  key_assignments : ledger;
  key_index : nat;
  drafts_created : Z;
  emails_generated : list pydict;
  clock_reads : nat;
  draft_calls : nat
}.

(** The entry that the loop stores for a recipient. *)
Definition new_entry (influencer : pydict) (steam_key assigned_date : string)
    : pydict :=
  <["sent" := VBool false]>
    (<["assigned_date" := VStr assigned_date]>
      (<["followers" := dget influencer "followers" VNone]>
        (<["platform" := dget influencer "platform" VNone]>
          (<["influencer" := dget influencer "username" VNone]>
            (<["key" := VStr steam_key]> ∅))))).

(** The record kept for manual sending when no draft is created. *)
Definition generated (influencer : pydict) (email_addr : string)
    (content : email_content) (steam_key : string) : pydict :=
  <["steam_key" := VStr steam_key]>
    (<["body" := VStr (body content)]>
      (<["subject" := VStr (subject content)]>
        (<["email" := VStr email_addr]>
          (<["influencer" := dget influencer "username" VNone]> ∅)))).

(** The body of the main loop. *)
Definition assign_key (w : collaborators) (steam_keys : list string)
    (create_gmail_drafts : bool) (st : campaign) (influencer : pydict)
    : result campaign :=
  match influencer !! "primary_email" with
  | None => Raise KeyError
  | Some (VStr email_addr) =>
      if bool_decide (is_Some (key_assignments st !! email_addr)) then
        Ok st                                     (* already assigned *)
      else
        match steam_keys !! key_index st with
        | None => Raise IndexError
        | Some steam_key =>
            let key_index := S (key_index st) in
            let* email_content := generate_email_content w influencer steam_key in
            let entry :=
              new_entry influencer steam_key (now_isoformat w (clock_reads st)) in
            if create_gmail_drafts then
              let success := create_draft w (draft_calls st) in
              Ok {| key_assignments :=
                      <[email_addr :=
                          if success then <["draft_created" := VBool true]> entry
                          else entry]> (key_assignments st);
                    key_index := key_index;
                    drafts_created :=
                      if success then drafts_created st + 1 else drafts_created st;
                    emails_generated := emails_generated st;
                    clock_reads := S (clock_reads st);
                    draft_calls := S (draft_calls st) |}
            else
              Ok {| key_assignments := <[email_addr := entry]> (key_assignments st);
                    key_index := key_index;
                    drafts_created := drafts_created st;
                    emails_generated :=
                      emails_generated st
                      ++ [generated influencer email_addr email_content steam_key];
                    clock_reads := S (clock_reads st);
                    draft_calls := draft_calls st |}
        end
  | Some _ => Raise TypeError       (* the filter stores a string only *)
  end.

(** [max_drafts] as a condition: [None] and [0] are false. *)
Definition given (max_drafts : option Z) : option Z :=
  match max_drafts with
  | Some m => if m =? 0 then None else Some m
  | None => None
  end.

(** The main loop, from a loaded ledger and a parsed pool. *)
Definition campaign_loop (w : collaborators) (steam_keys : list string)
    (assignments : ledger) (create_gmail_drafts : bool) (clock : nat)
    (batch : list pydict) : result campaign :=
  for_each (assign_key w steam_keys create_gmail_drafts) batch
    {| key_assignments := assignments;
       key_index := size assignments;     (* start from next available key *)
       drafts_created := 0;
       emails_generated := [];
       clock_reads := clock;
       draft_calls := 0 |}.

(** [influencers] are the rows of the CSV file, [key_file] the text of
    the pool file, [ledger_file] the stored ledger. [Ok None] is the
    early return on an empty pool, which saves nothing; otherwise the
    ledger of the final state is the one saved and returned. *)
Definition generate_campaign (w : collaborators) (influencers : list pydict)
    (key_file : option string) (ledger_file : option ledger)
    (max_drafts : option Z) (create_gmail_drafts : bool) (clock : nat)
    : result (option campaign) :=
  let* valid_influencers := for_each keep_valid influencers [] in
  let* steam_keys := load_steam_keys key_file in
  if (length steam_keys =? 0)%nat then Ok None
  else
    let key_assignments := load_key_assignments ledger_file in
    let keys_needed :=
      match given max_drafts with
      | Some m => Z.min (Z.of_nat (length valid_influencers)) m
      | None => Z.of_nat (length valid_influencers)
      end in
    let keys_available :=
      Z.of_nat (length steam_keys) - Z.of_nat (size key_assignments) in
    let keys_needed :=
      if keys_available <? keys_needed then keys_available else keys_needed in
    let valid_influencers :=
      match given max_drafts with
      | Some m =>
          if m <? Z.of_nat (length valid_influencers)
          then slice_to m valid_influencers
          else valid_influencers
      | None => valid_influencers
      end in
    let create_gmail_drafts := create_gmail_drafts && gmail_service w in
    let* st :=
      campaign_loop w steam_keys key_assignments create_gmail_drafts clock
        (slice_to keys_needed valid_influencers) in
    Ok (Some st).

(** *** mark_as_sent *)

(** The body of the loop over the addresses: the ledger and the number
    of clock readings so far. *)
Definition mark_one (w : collaborators) (st : ledger * nat) (email : string)
    : ledger * nat :=
  match st.1 !! email with
  | Some entry =>
      (<[email :=
           <["sent_date" := VStr (now_isoformat w st.2)]>
             (<["sent" := VBool true]> entry)]> st.1,
       S st.2)
  | None => st
  end.

(** The ledger file after [mark_as_sent(email_addresses)]. *)
Definition mark_as_sent (w : collaborators) (ledger_file : option ledger)
    (clock : nat) (email_addresses : list string) : option ledger :=
  let assignments := load_key_assignments ledger_file in
  let st := fold_left (mark_one w) email_addresses (assignments, clock) in
  save_key_assignment st.1.

End Gmail.

(** ** The specification's own words

    Definitions that follow the wording of the specification, to be
    compared with the code above. *)

Module Spec.
Import PyStr.

(** "count of matched keywords": how many phrases of the table occur in
    the text. *)
Definition matched (kws : list string) (text : string) : Z :=
  Z.of_nat (length (List.filter (fun k => contains k text) kws)).

(** The markers that [extract_emails] rewrites, each with what it
    becomes, in the order of the source. *)
Definition literal_markers : list (string * string) :=
  [ ("[at]", "@"); ("(at)", "@"); (" at ", "@");
    ("[dot]", "."); ("(dot)", "."); (" dot ", ".");
    ("[AT]", "@"); ("(AT)", "@");
    ("[DOT]", "."); ("(DOT)", ".");
    (" @ ", "@"); (" . ", ".") ].

(** "clamped to the interval [lo, hi]" *)
Definition clamp (lo hi q : Q) : Q := Qmax lo (Qmin hi q).

(** "the first header column whose name contains key, case-insensitively" *)
Definition first_key_column (header : list string) (i : nat) : Prop :=
  (exists col, header !! i = Some col /\ contains "key" (lower col) = true) /\
  (forall j col, (j < i)%nat -> header !! j = Some col ->
                 contains "key" (lower col) = false).

(** "contains the key verbatim as a substring" *)
Definition occurs (k s : string) : Prop :=
  exists pre post, s = pre +:+ k +:+ post.

(** "modifies only the sent and sent_date fields": the entries agree on
    every other field. *)
Definition same_elsewhere (e' e : Gmail.pydict) : Prop :=
  forall f, f <> "sent" -> f <> "sent_date" -> e' !! f = e !! f.

(** The entry carries the mark: the flag, and a reading of the clock. *)
Definition marked (w : Gmail.collaborators) (e : Gmail.pydict) : Prop :=
  e !! "sent" = Some (Gmail.VBool true) /\
  exists n, e !! "sent_date" = Some (Gmail.VStr (Gmail.now_isoformat w n)).

(** "every key newly assigned is drawn from index N onward of K": the
    entries loaded are still there, and every other entry holds a key of
    the pool found at an index from the size of the loaded ledger on,
    below the running index. *)
Definition drawn_beyond (steam_keys : list string)
    (loaded : gmap string (gmap string Gmail.value)) (st : Gmail.campaign) : Prop :=
  (size loaded <= Gmail.key_index st)%nat /\
  (forall a e, loaded !! a = Some e -> Gmail.key_assignments st !! a = Some e) /\
  (forall a e, Gmail.key_assignments st !! a = Some e -> loaded !! a = None ->
     exists j k, (size loaded <= j < Gmail.key_index st)%nat /\
                 steam_keys !! j = Some k /\
                 e !! "key" = Some (Gmail.VStr k)).

(** "none of the first N previously assigned keys is ever re-issued":
    the entries loaded are kept, and every entry added holds a key of the
    pool from index N on that is none of the first N keys and the key of
    no entry loaded. *)
Definition not_reissued (steam_keys : list string)
    (loaded : gmap string (gmap string Gmail.value)) (st : Gmail.campaign) : Prop :=
  (forall a e, loaded !! a = Some e -> Gmail.key_assignments st !! a = Some e) /\
  (forall a e, Gmail.key_assignments st !! a = Some e -> loaded !! a = None ->
     exists j k, (size loaded <= j)%nat /\
                 steam_keys !! j = Some k /\
                 e !! "key" = Some (Gmail.VStr k) /\
                 (k ∉ firstn (size loaded) steam_keys) /\
                 (forall a' e', loaded !! a' = Some e' ->
                                (e' !! "key") <> Some (Gmail.VStr k))).

(** "skipping blank lines and trimmed tokens shorter than 11 characters" *)
Definition long_enough (key : string) : bool := (11 <=? String.length key)%nat.

(** "a 15-character token": fifteen characters, none of them white space. *)
Definition token15 (t : string) : Prop :=
  String.length t = 15%nat /\ all_chars no_space t = true.

(** "a file of one token per line" *)
Fixpoint one_per_line (tokens : list string) : string :=
  match tokens with
  | [] => EmptyString
  | t :: rest => t +:+ String Gmail.LF (one_per_line rest)
  end.

End Spec.

(** ** Scanning a literal followed by unknown text

    [replace] evaluated on a text of which only a literal head is known,
    the rest being letters and digits: the answer when it does not depend
    on the rest. The proofs about [deobfuscate] compute with these. *)

Module Symbolic.
Import PyStr.

(** Letters and digits only. *)
Definition plain (s : string) : bool := all_chars is_alnum s.

(** The first character of [old] is none that a plain text has. *)
Definition starts_apart (old : string) : bool :=
  match old with
  | EmptyString => false
  | String x _ => negb (is_alnum x)
  end.

(** Is [old] a prefix of [lit] followed by plain text? *)
Fixpoint prefix_lit (old lit : string) : option bool :=
  match old, lit with
  | EmptyString, _ => Some true
  | String x old', String c lit' =>
      if Ascii.eqb x c then prefix_lit old' lit' else Some false
  | String _ _, EmptyString => if plain old then None else Some false
  end.

(** [replace_go] over [lit]; the scan must end with nothing to skip. *)
Fixpoint replace_lit (old new : string) (skip : nat) (lit : string)
    : option string :=
  match lit with
  | EmptyString => match skip with O => Some EmptyString | S _ => None end
  | String c lit' =>
      match skip with
      | S k => replace_lit old new k lit'
      | O =>
          match prefix_lit old lit with
          | Some true =>
              String.append new <$> replace_lit old new (String.length old - 1) lit'
          | Some false => String c <$> replace_lit old new 0 lit'
          | None => None
          end
      end
  end.

(** The replacements of a table, one after the other. *)
Fixpoint replace_all_lit (table : list (string * string)) (lit : string)
    : option string :=
  match table with
  | [] => Some lit
  | (old, new) :: rest =>
      match replace_lit old new 0 lit with
      | Some r => replace_all_lit rest r
      | None => None
      end
  end.

End Symbolic.

(** ** Sample inputs

    Concrete inputs at which the properties below are evaluated. *)

Module Samples.
Import PyStr Parser Gmail.

(** The record of the specification's base case: no address, no business
    terms, one contact channel, neutral sentiment, unknown upload
    frequency, no engagement, 50000 followers. *)
Definition base_case : influencer_data :=
  {| email_count := Some 0;
     has_business_terms := Some "No";
     twitter := Some "somebody";
     discord := Some "";
     instagram := Some "";
     indie_sentiment := Some "neutral";
     upload_frequency_days := Some 0%Q;
     engagement_rate_numeric := Some 0%Q;
     followers := Some 50000 |}.

(** Collaborators for the samples: no mail service, a clock that counts
    its readings, and a formatter that prints the integer quotient. *)
Definition sample_world : collaborators :=
  {| format_1f := fun n d => str_of_Z (n / d);
     now_isoformat := fun n => "2025-10-01T09:00:0" +:+ str_of_Z (Z.of_nat n);
     gmail_service := false;
     create_draft := fun _ => false |}.

Definition sample_key : string := "AAAAA-BBBBB-CCCCC".

(** A pool in CSV form whose key column is the second one. *)
Definition sample_csv_pool : string :=
"Name,SteamKey
Bob,AAAAA-BBBBB-CCCCC
Al,short
Cy,DDDDD-EEEEE-FFFFF
".

Definition sample_influencer : pydict :=
  <["username" := VStr "Bob"]>
    (<["last_video_title" := VStr "My Speedrun of Celeste"]>
      (<["emails" := VStr "bob@site.org, other@site.org"]> ∅)).

Definition second_key : string := "DDDDD-EEEEE-FFFFF".

(** A pool of two different keys, and a pool that lists one key twice. *)
Definition sample_pool : string := Spec.one_per_line [sample_key; second_key].
Definition repeated_pool : string := Spec.one_per_line [sample_key; sample_key].

(** A ledger with one assignment, of the first key of either pool. *)
Definition sample_ledger : ledger :=
  {[ "ann@site.org" :=
       new_entry (<["username" := VStr "Ann"]> ∅) sample_key "2025-09-30T18:00:00" ]}.

(** The rows of an influencer file with the one column [emails] filled
    in besides the name and the last title. *)
Definition sample_rows : list pydict := [sample_influencer].

End Samples.

(** ** More of influencer_parser.py *)

Module Discovery.
Import PyStr Regex Parser.

(** *** extract_business_terms *)

Definition business_keywords : list string :=
  [ "business inquiries"; "business email"; "sponsorships";
    "partnerships"; "collaborations"; "contact"; "booking";
    "brand deals"; "marketing"; "pr"; "management" ].

Definition extract_business_terms (text : string) : list string :=
  if negb (nonempty text) then []
  else
    let text_lower := lower text in
    fold_left
      (fun found_terms keyword =>
         if contains keyword text_lower then found_terms ++ [keyword]
         else found_terms)
      business_keywords [].

(** *** extract_social_links *)

(** A pattern of the shape [literal([class]+)], searched with
    [re.IGNORECASE]: the literal is compared without regard to case, and
    the group is the longest run of the class after it. The class is
    given on ASCII, with both cases of its letters. *)
Record link_pattern := {
  literal : string;
  group_class : ascii -> bool
}.

(** The characters outside ASCII that [re.IGNORECASE] takes for an ASCII
    letter, each in UTF-8 and with the lower-case letter it is taken
    for: U+0130 and U+0131 for [i], U+017F for [s], U+212A for [k].
    A pattern over [str] matches them wherever it matches the letter,
    as a literal or in a class. *)
Definition other_cases : list (ascii * string) :=
  [ ("i"%char, String "196" (String "176" EmptyString));
    ("i"%char, String "196" (String "177" EmptyString));
    ("s"%char, String "197" (String "191" EmptyString));
    ("k"%char, String "226" (String "132" (String "170" EmptyString))) ].

(** The entry of the table that [s] starts with. *)
Fixpoint other_case_here (table : list (ascii * string)) (s : string)
    : option (ascii * string) :=
  match table with
  | [] => None
  | (b, v) :: rest =>
      if String.prefix v s then Some (b, v) else other_case_here rest s
  end.

(** The length in bytes of the character at the start of [s] when it is
    [x] in either case, and 0 when it is not. *)
Definition letter_here (x : ascii) (s : string) : nat :=
  match s with
  | EmptyString => 0
  | String c _ =>
      if Ascii.eqb (lower_char x) (lower_char c) then 1
      else
        match other_case_here other_cases s with
        | Some (b, v) =>
            if Ascii.eqb b (lower_char x) then String.length v else 0
        | None => 0
        end
  end.

(** The length in bytes of the character at the start of [s] when it is
    of the class, and 0 when it is not. *)
Definition class_here (cls : ascii -> bool) (s : string) : nat :=
  match s with
  | EmptyString => 0
  | String c _ =>
      if cls c then 1
      else
        match other_case_here other_cases s with
        | Some (b, v) => if cls b then String.length v else 0
        | None => 0
        end
  end.

(** The literal at the start of [s], in any casing: its length in
    bytes. *)
Fixpoint prefix_nocase (lit s : string) : option nat :=
  match lit with
  | EmptyString => Some 0%nat
  | String x lit' =>
      match letter_here x s with
      | O => None
      | S k =>
          match prefix_nocase lit' (drop (S k) s) with
          | Some m => Some (S k + m)%nat
          | None => None
          end
      end
  end.

(** The length in bytes of the longest run of characters of the class
    at the start of [s]. [skip] counts the bytes still to pass of the
    character just read. *)
Fixpoint class_run (cls : ascii -> bool) (skip : nat) (s : string) : nat :=
  match s with
  | EmptyString => 0
  | String _ s' =>
      match skip with
      | S k => S (class_run cls k s')
      | O =>
          match class_here cls s with
          | O => 0
          | S k => S (class_run cls k s')
          end
      end
  end.

(** The match at the start of [s]: its length and its group. *)
Definition link_here (p : link_pattern) (s : string) : option (nat * string) :=
  match prefix_nocase (literal p) s with
  | Some m =>
      let rest := drop m s in
      let n := class_run (group_class p) 0 rest in
      if (1 <=? n)%nat then Some ((m + n)%nat, take n rest) else None
  | None => None
  end.

(** [re.findall(pattern, text, re.IGNORECASE)] for such a pattern: the
    groups of the matches, leftmost first, the search resuming where the
    previous match ended. *)
Fixpoint link_findall_go (p : link_pattern) (skip : nat) (s : string)
    : list string :=
  match s with
  | EmptyString => []
  | String c s' =>
      match skip with
      | S k => link_findall_go p k s'
      | O =>
          match link_here p s with
          | Some (n, handle) => handle :: link_findall_go p (n - 1) s'
          | None => link_findall_go p 0 s'
          end
      end
  end.

Definition link_findall (p : link_pattern) (text : string) : list string :=
  link_findall_go p 0 text.

(** [[A-Za-z0-9_]], [[A-Za-z0-9_.]] and [[A-Za-z0-9]] *)
Definition handle_class (c : ascii) : bool := is_alnum c || Ascii.eqb c "_".
Definition dotted_class (c : ascii) : bool :=
  is_alnum c || Ascii.eqb c "_" || Ascii.eqb c ".".

(** The table of patterns, in the order of the source. *)
Definition patterns : list (string * link_pattern) :=
  [ ("twitter", {| literal := "twitter.com/"; group_class := handle_class |});
    ("instagram", {| literal := "instagram.com/"; group_class := dotted_class |});
    ("discord", {| literal := "discord.gg/"; group_class := is_alnum |});
    ("tiktok", {| literal := "tiktok.com/@"; group_class := dotted_class |}) ].

Definition extract_social_links (text : string) : gmap string string :=
  if negb (nonempty text) then ∅
  else
    fold_left
      (fun social_links '(platform, pattern) =>
         let matches := link_findall pattern text in
         match matches with
         | first :: _ => <[platform := first]> social_links
         | [] => social_links
         end)
      patterns ∅.

(** *** generate_icebreaker *)

Definition common_games : list string :=
  ["Celeste"; "Hollow Knight"; "Cuphead"; "Dead Cells"; "Ori"].

(** The loop that stops at the first game of the table found in the
    title. *)
Fixpoint detect_game (games : list string) (recent_video game_name : string)
    : string :=
  match games with
  | [] => game_name
  | game :: rest =>
      if contains (lower game) (lower recent_video) then game
      else detect_game rest recent_video game_name
  end.

(** [format_1f n d] stands for [f"{n / d:.1f}"]. The parameter
    [platform] is not read by the source. *)
Definition generate_icebreaker (format_1f : Z -> Z -> string)
    (platform name recent_video : string) (subscriber_count : Z)
    (game_name : string) : string :=
  let game_name :=
    if negb (nonempty game_name)
    then detect_game common_games recent_video game_name
    else game_name in
  let follower_str :=
    if subscriber_count >=? 1000000
    then format_1f subscriber_count 1000000 +:+ "M"
    else if subscriber_count >=? 1000
    then format_1f subscriber_count 1000 +:+ "K"
    else str_of_Z subscriber_count in
  if nonempty game_name then
    "Hi " +:+ name +:+ "! Loved your recent " +:+ game_name
    +:+ " content. Your " +:+ follower_str
    +:+ " followers clearly appreciate your platformer gameplay!"
  else
    "Hi " +:+ name +:+ "! Really enjoyed your recent video '"
    +:+ take 50 recent_video +:+ "...'. Your " +:+ follower_str
    +:+ " community is impressive!".

(** *** The fields of a record that [process_youtube_channels] and
    [process_twitch_streamers] derive from the extracted contacts *)

(** ["emails": ", ".join(emails) if emails else "Not found"] *)
Definition emails_field (emails : list string) : string :=
  match emails with
  | [] => "Not found"
  | _ => join ", " emails
  end.

(** *** The priority list of [main] *)

Section Priority.

(** The records of [all_influencers], of which the code reads the
    platform and the response score. *)
Context {A : Type}.
Variable platform : A -> string.
Variable response_score : A -> Z.

(** [sorted(l, key=..., reverse=True)]: descending, and records with the
    same score keep the order they had. *)
Fixpoint insert_desc (x : A) (l : list A) : list A :=
  match l with
  | [] => [x]
  | y :: l' =>
      if response_score y <=? response_score x then x :: y :: l'
      else y :: insert_desc x l'
  end.

Definition sorted_desc (l : list A) : list A := foldr insert_desc [] l.

Definition priority_list (all_influencers : list A) : list A :=
  let youtube_list :=
    List.filter (fun inf => String.eqb (platform inf) "YouTube") all_influencers in
  let twitch_list :=
    List.filter (fun inf => String.eqb (platform inf) "Twitch") all_influencers in
  let youtube_sorted := sorted_desc youtube_list in
  let twitch_sorted := sorted_desc twitch_list in
  let len_y := Z.of_nat (length youtube_sorted) in
  let len_t := Z.of_nat (length twitch_sorted) in
  if len_y <? 25 then
    let remaining := 50 - len_y - Z.min 25 len_t in
    youtube_sorted ++ Gmail.slice_to (25 + remaining) twitch_sorted
  else if len_t <? 25 then
    let remaining := 50 - len_t - Z.min 25 len_y in
    Gmail.slice_to (25 + remaining) youtube_sorted ++ twitch_sorted
  else
    Gmail.slice_to 25 youtube_sorted ++ Gmail.slice_to 25 twitch_sorted.

End Priority.

End Discovery.
(** ** More of gmail_draft_generator.py *)

Module FollowUp.
Import PyStr Gmail.

(** *** generate_followup_email *)

(** The f-string of the follow-up body. *)
Definition followup_body (name : value) (original_key : string) : string :=
  "Hi " +:+
  str_of name +:+
  ",

Just a quick follow-up on the " +:+
  GAME_NAME +:+
  " Steam key I sent last week. The game launches tomorrow (" +:+
  STEAM_RELEASE_DATE +:+
  "), and I wanted to make sure the key worked for you!

Your key again: " +:+
  original_key +:+
  "

If you've had a chance to try it, I'd love to hear what you think - especially curious if you've climbed any of the leaderboards! 

If you're not interested or don't have time, totally understand - just let me know and I won't bother you again. 😊

Either way, thanks for your time!

" +:+
  YOUR_NAME +:+
  "
" +:+
  YOUR_STUDIO +:+
  "

Steam Page: " +:+
  STEAM_PAGE.

Definition generate_followup_email (influencer : pydict) (original_key : string)
    : result email_content :=
  let display_name := dget influencer "display_name" VNone in
  let name :=
    if truth display_name then display_name
    else dget influencer "username" (VStr "there") in
  let subject := "Quick follow-up: " +:+ GAME_NAME +:+ " launches tomorrow!" in
  let body := followup_body name original_key in
  let* emails := as_str (dget influencer "emails" (VStr "")) in
  Ok {| subject := subject;
        body := body;
        to := dget influencer "primary_email" (VStr (first_email emails)) |}.

(** *** generate_followups *)

(** What the query can raise. *)
Inductive query_exn := QKeyError | QTypeError | QValueError.

(** [days_elapsed n s] stands for
    [(datetime.now() - datetime.fromisoformat(s)).days] at the [n]-th
    entry looked at: the number of whole days, or what the two calls
    raise on a text that is no date or that carries a time zone. *)
Record calendar := {
  days_elapsed : nat -> string -> query_exn + Z
}.

(** The record that the query returns for an entry. *)
Definition followup_record (email : string) (influencer key : value) : pydict :=
  <["key" := key]> (<["influencer" := influencer]> (<["email" := VStr email]> ∅)).

(** The body of the loop over [assignments.items()]: the list so far and
    the number of entries looked at. *)
Definition followup_step (cal : calendar) (days_since : Z)
    (st : list pydict * nat) (item : string * pydict)
    : query_exn + (list pydict * nat) :=
  let '(email, data) := item in
  let '(followup_list, n) := st in
  if truth (dget data "sent" (VBool false)) then
    match data !! "sent_date" with
    | None => inl QKeyError
    | Some (VStr sent_date) =>
        match days_elapsed cal n sent_date with
        | inl e => inl e
        | inr days_passed =>
            if (days_passed >=? days_since)
               && negb (truth (dget data "responded" (VBool false)))
            then
              match data !! "influencer", data !! "key" with
              | Some influencer, Some key =>
                  inr (followup_list ++ [followup_record email influencer key], S n)
              | _, _ => inl QKeyError
              end
            else inr (followup_list, S n)
        end
    | Some _ => inl QTypeError
    end
  else inr (followup_list, S n).

Fixpoint followup_loop (cal : calendar) (days_since : Z)
    (items : list (string * pydict)) (st : list pydict * nat)
    : query_exn + (list pydict * nat) :=
  match items with
  | [] => inr st
  | item :: rest =>
      match followup_step cal days_since st item with
      | inl e => inl e
      | inr st' => followup_loop cal days_since rest st'
      end
  end.

(** [items] are the entries of the ledger in the order of the file,
    [assignments.items()]. *)
Definition generate_followups (cal : calendar) (items : list (string * pydict))
    (days_since : Z) : query_exn + list pydict :=
  match followup_loop cal days_since items ([], 0%nat) with
  | inl e => inl e
  | inr st => inr st.1
  end.

End FollowUp.

(** ** Shapes and orders that the further properties speak of *)

Module Shapes.
Import PyStr.

(** The text of a match of the email pattern: a local part, the at
    sign, a domain, a dot, and a top-level part of two characters or
    more. *)
Definition address_shape (e : string) : Prop :=
  exists l d t,
    e = l +:+ "@" +:+ d +:+ "." +:+ t /\
    (1 <= String.length l)%nat /\ all_chars Parser.local_class l = true /\
    (1 <= String.length d)%nat /\ all_chars Parser.domain_class d = true /\
    (2 <= String.length t)%nat /\ all_chars Parser.tld_class t = true.

(** One character of a text in UTF-8 that reads as the ASCII character
    [x] when case is left aside: [x] in either case, or one of the
    characters outside ASCII that count as the letter [x]. *)
Definition reads_as (x : ascii) (v : string) : Prop :=
  (exists c, v = String c EmptyString /\ lower_char c = lower_char x) \/
  (lower_char x, v) ∈ Discovery.other_cases.

(** [t] is the literal [lit] in some casing. *)
Inductive nocase : string -> string -> Prop :=
| nocase_nil : nocase EmptyString EmptyString
| nocase_cons (x : ascii) (lit v t : string) :
    reads_as x v -> nocase lit t -> nocase (String x lit) (v +:+ t).

(** One character of the class, read without regard to case: an ASCII
    character of the class, or a character outside ASCII that counts
    as a letter of the class. *)
Definition of_class (cls : ascii -> bool) (v : string) : Prop :=
  (exists c, v = String c EmptyString /\ cls c = true) \/
  (exists b, (b, v) ∈ Discovery.other_cases /\ cls b = true).

(** A text made of characters of the class. *)
Inductive class_text (cls : ascii -> bool) : string -> Prop :=
| class_text_nil : class_text cls EmptyString
| class_text_cons (v t : string) :
    of_class cls v -> class_text cls t -> class_text cls (v +:+ t).

(** The class holds ASCII characters only. *)
Definition ascii_class (cls : ascii -> bool) : Prop :=
  forall c, cls c = true -> (code c <? 128)%nat = true.

(** The pattern of a platform matches at the start of [s] with the
    handle [h]: the literal in any casing, then [h], one character or
    more of the class, then no further character of the class. *)
Definition link_at (p : Discovery.link_pattern) (s h : string) : Prop :=
  exists lit post,
    s = lit +:+ h +:+ post /\
    nocase (Discovery.literal p) lit /\
    h <> EmptyString /\
    class_text (Discovery.group_class p) h /\
    (forall v t, of_class (Discovery.group_class p) v -> post <> v +:+ t).

(** The entries added to the loaded ledger, each with the index its
    key was drawn at: the entries loaded are kept, the indices are all
    different and lie between the size of the loaded ledger and the
    running index. *)
Definition indexed (steam_keys : list string)
    (loaded : gmap string (gmap string Gmail.value)) (st : Gmail.campaign)
    (idx : gmap string nat) : Prop :=
  (size loaded <= Gmail.key_index st)%nat /\
  (forall a e, loaded !! a = Some e -> Gmail.key_assignments st !! a = Some e) /\
  (forall a e, Gmail.key_assignments st !! a = Some e -> loaded !! a = None ->
               is_Some (idx !! a)) /\
  (forall a j, idx !! a = Some j ->
     (size loaded <= j < Gmail.key_index st)%nat /\
     exists e k, Gmail.key_assignments st !! a = Some e /\
                 steam_keys !! j = Some k /\
                 e !! "key" = Some (Gmail.VStr k)) /\
  (forall a a' j, idx !! a = Some j -> idx !! a' = Some j -> a = a').

(** No key is held by the entries of two addresses. *)
Definition one_to_one (assignments : gmap string (gmap string Gmail.value))
    : Prop :=
  forall a a' e e' k,
    assignments !! a = Some e -> assignments !! a' = Some e' ->
    e !! "key" = Some (Gmail.VStr k) -> e' !! "key" = Some (Gmail.VStr k) ->
    a = a'.

(** What the main loop of the campaign stores for a row: the user name,
    no sending yet and no response. *)
Definition stored_for (inf e : gmap string Gmail.value) : Prop :=
  e !! "sent" = Some (Gmail.VBool false) /\
  e !! "sent_date" = None /\
  e !! "responded" = None /\
  e !! "influencer" = Some (Gmail.dget inf "username" Gmail.VNone).

(** A row of the influencer file that the filter of the campaign
    keeps, with the address that the filter stores for it. *)
Definition usable_row (rows : list (gmap string Gmail.value)) (a : string)
    (row : gmap string Gmail.value) : Prop :=
  row ∈ rows /\
  exists emails,
    row !! "emails" = Some (Gmail.VStr emails) /\
    emails <> "Not found" /\
    contains "@" emails = true /\
    a = Gmail.first_email emails.

(** The entries of the ledger file with their positions. *)
Fixpoint enumerate_from {X : Type} (n : nat) (l : list X) : list (nat * X) :=
  match l with
  | [] => []
  | x :: rest => (n, x) :: enumerate_from (S n) rest
  end.

(** An entry is due for a follow-up: marked as sent, not marked as
    responded, and sent [days_since] days ago or more by the calendar. *)
Definition due (cal : FollowUp.calendar) (days_since : Z)
    (p : nat * (string * gmap string Gmail.value)) : bool :=
  let '(i, (_, data)) := p in
  Gmail.truth (Gmail.dget data "sent" (Gmail.VBool false)) &&
  negb (Gmail.truth (Gmail.dget data "responded" (Gmail.VBool false))) &&
  match data !! "sent_date" with
  | Some (Gmail.VStr sent_date) =>
      match FollowUp.days_elapsed cal i sent_date with
      | inr days_passed => days_since <=? days_passed
      | inl _ => false
      end
  | _ => false
  end.

(** The follow-up record of an entry. *)
Definition record_of (p : nat * (string * gmap string Gmail.value))
    : gmap string Gmail.value :=
  let '(_, (email, data)) := p in
  FollowUp.followup_record email
    (Gmail.dget data "influencer" Gmail.VNone)
    (Gmail.dget data "key" Gmail.VNone).

(** A character that neither separates addresses nor is stripped. *)
Definition address_char (c : ascii) : bool :=
  negb (Ascii.eqb c ",") && negb (is_space c).

(** No record scores more than a record before it. *)
Fixpoint descending {A : Type} (score : A -> Z) (l : list A) : Prop :=
  match l with
  | [] => True
  | x :: rest => (forall y, y ∈ rest -> score y <= score x) /\ descending score rest
  end.

End Shapes.

(** ** Further sample inputs *)

Module MoreSamples.
Import PyStr Gmail.

(** A pool in CSV form whose header names no key column. *)
Definition headerless_pool : string :=
"Activation Code,Name
AAAAA-BBBBB-CCCCC,Bob
".

(** Two rows with different addresses. *)
Definition two_rows : list pydict :=
  [ Samples.sample_influencer;
    <["username" := VStr "Cy"]>
      (<["emails" := VStr "cy@site.org"]> Samples.sample_influencer) ].

(** A row as [csv.DictReader] gives it: every value is a string, the
    audience size too. *)
Definition csv_row : pydict :=
  <["followers" := VStr "50000"]>
    (<["username" := VStr "Ann"]> (<["emails" := VStr "ann@site.org"]> ∅)).

(** A calendar that reads the number of days in front of the date. *)
Definition sample_calendar : FollowUp.calendar :=
  {| FollowUp.days_elapsed := fun _ s =>
       if String.prefix "9 days" s then inr 9
       else if String.prefix "2 days" s then inr 2
       else inl FollowUp.QValueError |}.

(** The entries of a ledger file: one sent nine days ago, one sent two
    days ago, one not sent, one sent nine days ago and answered. *)
Definition sent_items : list (string * pydict) :=
  [ ("ann@site.org",
     <["sent_date" := VStr "9 days"]>
       (<["sent" := VBool true]>
          (new_entry (<["username" := VStr "Ann"]> ∅) Samples.sample_key "t0")));
    ("bob@site.org",
     <["sent_date" := VStr "2 days"]>
       (<["sent" := VBool true]>
          (new_entry (<["username" := VStr "Bob"]> ∅) Samples.second_key "t1")));
    ("cy@site.org",
     new_entry (<["username" := VStr "Cy"]> ∅) "GGGGG-HHHHH-IIIII" "t2");
    ("di@site.org",
     <["responded" := VBool true]>
       (<["sent_date" := VStr "9 days"]>
          (<["sent" := VBool true]>
             (new_entry (<["username" := VStr "Di"]> ∅) "JJJJJ-KKKKK-LLLLL" "t3")))) ].

(** A calendar on which every date lies nine days back. *)
Definition steady_calendar : FollowUp.calendar :=
  {| FollowUp.days_elapsed := fun _ _ => inr 9 |}.

(** A row whose [emails] column was written by the discovery stage
    from the addresses found in a text. *)
Definition parsed_row (text : string) : pydict :=
  <["username" := VStr "Bob"]>
    (<["emails" :=
         VStr (Discovery.emails_field (Parser.extract_emails text))]> ∅).

End MoreSamples.

(* ================================================================== *)
(** * Part II: properties *)
(* ================================================================== *)

Import PyStr Regex Parser Gmail Samples.

(** ** Keyword tallies *)

Section Tallies.

Lemma sum_matches_from (w : Z) (text : string) (kws : list string) (acc : Z) :
  fold_left (fun acc k => if contains k text then acc + w else acc) kws acc
  = acc + w * Spec.matched kws text.
Proof.
  unfold Spec.matched. revert acc.
  induction kws as [|k kws IH]; intros acc; simpl.
  - lia.
  - rewrite IH. destruct (contains k text); simpl length; lia.
Qed.

Lemma sum_matches_matched (w : Z) (kws : list string) (text : string) :
  sum_matches w kws text = w * Spec.matched kws text.
Proof. unfold sum_matches. rewrite sum_matches_from. lia. Qed.

Lemma matched_nonneg (kws : list string) (text : string) :
  0 <= Spec.matched kws text.
Proof. unfold Spec.matched. lia. Qed.

Lemma matched_le_length (kws : list string) (text : string) :
  Spec.matched kws text <= Z.of_nat (length kws).
Proof.
  unfold Spec.matched.
  pose proof (List.filter_length_le (fun k => contains k text) kws). lia.
Qed.

End Tallies.

(** ** is_gaming_channel *)

(** C7. The classifier lowers the description joined with the titles,
    scores 2 per developer phrase found and 1 per creator phrase and per
    off-topic phrase found, rejects when the developer score is above 1,
    then rejects when the off-topic score is strictly above the creator
    score, and otherwise accepts exactly when the creator score is at
    least 2; a tie between the off-topic and the creator score does not
    reject. *)
Theorem is_gaming_channel_decision (description : string)
    (video_titles : list string) :
  let text := lower (description +:+ " " +:+ join " " video_titles) in
  let dev_score := 2 * Spec.matched dev_keywords text in
  let creator_score := 1 * Spec.matched creator_keywords text in
  let non_gaming_score := 1 * Spec.matched non_gaming text in
  is_gaming_channel description video_titles
  = (if dev_score >? 1 then false
     else if non_gaming_score >? creator_score then false
     else creator_score >=? 2)
  /\ (is_gaming_channel description video_titles = true <->
      dev_score <= 1 /\ non_gaming_score <= creator_score /\ 2 <= creator_score).
Proof.
  intros text dev_score creator_score non_gaming_score.
  assert (Heq : is_gaming_channel description video_titles
                = (if dev_score >? 1 then false
                   else if non_gaming_score >? creator_score then false
                   else creator_score >=? 2)).
  { unfold is_gaming_channel, channel_text.
    rewrite !sum_matches_matched. reflexivity. }
  split; [exact Heq|].
  rewrite Heq.
  destruct (Z.gtb_spec dev_score 1); [split; [discriminate | lia]|].
  destruct (Z.gtb_spec non_gaming_score creator_score); [split; [discriminate | lia]|].
  destruct (Z.geb_spec creator_score 2); split; try discriminate; try lia; auto.
Qed.

(** The two classifier cases that the specification lists. *)
Example is_gaming_channel_developer :
  is_gaming_channel "game developer making my game" [] = false.
Proof. reflexivity. Qed.

Example is_gaming_channel_creator :
  is_gaming_channel "gameplay playthrough lets play speedrun" [] = true.
Proof. reflexivity. Qed.

(** ** analyze_sentiment *)

Section Sentiment.
Local Open Scope Q_scope.

Lemma round_half_even_comp (q q' : Q) :
  q == q' -> round_half_even q = round_half_even q'.
Proof.
  intros H. unfold round_half_even.
  rewrite (Qfloor_comp _ _ H).
  assert (Hc : ((q - inject_Z (Qfloor q') ?= 1 # 2) = (q' - inject_Z (Qfloor q') ?= 1 # 2))%Q).
  { apply Qcompare_comp; [rewrite H|]; reflexivity. }
  rewrite Hc. reflexivity.
Qed.

Lemma round_half_even_Z (n : Z) : round_half_even (inject_Z n) = n.
Proof.
  unfold round_half_even. rewrite Qfloor_Z.
  assert (Hc : ((inject_Z n - inject_Z n ?= 1 # 2) = Lt)%Q).
  { unfold Qcompare, Qminus, Qplus, Qopp, inject_Z; simpl.
    apply Z.compare_lt_iff. lia. }
  rewrite Hc. reflexivity.
Qed.

(** A score counted in halves is what [round(score, 2)] returns. *)
Lemma round2_halves (q : Q) (z : Z) : q == z # 2 -> round2 q == q.
Proof.
  intros H. unfold round2.
  assert (H100 : q * 100 == inject_Z (50 * z)).
  { rewrite H. unfold Qeq, Qmult, inject_Z; simpl. lia. }
  rewrite (round_half_even_comp _ _ H100), round_half_even_Z, H.
  unfold Qeq; simpl. lia.
Qed.

Lemma py_min_Qmin (a b : Q) : py_min a b == Qmin a b.
Proof.
  unfold py_min. destruct (Qlt_le_dec b a) as [Hlt|Hle].
  - symmetry. apply Q.min_r. apply Qlt_le_weak, Hlt.
  - symmetry. apply Q.min_l, Hle.
Qed.

Lemma py_max_Qmax (a b : Q) : py_max a b == Qmax a b.
Proof.
  unfold py_max. destruct (Qlt_le_dec a b) as [Hlt|Hle].
  - symmetry. apply Q.max_r. apply Qlt_le_weak, Hlt.
  - symmetry. apply Q.max_l, Hle.
Qed.

Lemma py_min_halves (z : Z) (b : Q) (y : Z) :
  b == y # 2 -> exists x, py_min (inject_Z z) b == x # 2.
Proof.
  intros Hb. unfold py_min. destruct (Qlt_le_dec b (inject_Z z)).
  - eauto.
  - exists (2 * z)%Z. unfold Qeq, inject_Z; simpl. lia.
Qed.

Lemma py_max_halves (z : Z) (b : Q) (y : Z) :
  b == y # 2 -> exists x, py_max (inject_Z z) b == x # 2.
Proof.
  intros Hb. unfold py_max. destruct (Qlt_le_dec (inject_Z z) b).
  - eauto.
  - exists (2 * z)%Z. unfold Qeq, inject_Z; simpl. lia.
Qed.

Lemma Qle_bool_false (a b : Q) : Qle_bool a b = false -> b < a.
Proof.
  intros H. apply Qnot_le_lt. rewrite <- Qle_bool_iff. congruence.
Qed.

Lemma classify_bands (s : Q) :
  (classify s = "very_positive" <-> 3 <= s) /\
  (classify s = "positive" <-> 1 <= s /\ s < 3) /\
  (classify s = "neutral" <-> -1 <= s /\ s < 1) /\
  (classify s = "negative" <-> -3 <= s /\ s < -1) /\
  (classify s = "very_negative" <-> s < -3).
Proof.
  unfold classify.
  destruct (Qle_bool 3 s) eqn:H3;
    [apply Qle_bool_iff in H3 | apply Qle_bool_false in H3].
  { repeat split; intros; try discriminate; try lra. }
  destruct (Qle_bool 1 s) eqn:H1;
    [apply Qle_bool_iff in H1 | apply Qle_bool_false in H1].
  { repeat split; intros; try discriminate; try lra. }
  destruct (Qle_bool (-1) s) eqn:Hm1;
    [apply Qle_bool_iff in Hm1 | apply Qle_bool_false in Hm1].
  { repeat split; intros; try discriminate; try lra. }
  destruct (Qle_bool (-3) s) eqn:Hm3;
    [apply Qle_bool_iff in Hm3 | apply Qle_bool_false in Hm3].
  { repeat split; intros; try discriminate; try lra. }
  repeat split; intros; try discriminate; try lra.
Qed.

(** What [analyze_sentiment] returns for a non-empty text, from the three
    numbers of keywords found. *)
Lemma analyze_sentiment_nonempty (text : string) :
  text <> EmptyString ->
  let t := lower text in
  let P := Spec.matched positive_keywords t in
  let N := Spec.matched negative_keywords t in
  let M := Spec.matched neutral_keywords t in
  let sc := py_max (-10) (py_min 10
              (inject_Z (1 * P * 2) - inject_Z (1 * N * 3)
               + inject_Z (1 * M) * (1 # 2))) in
  analyze_sentiment text
  = {| score := round2 sc;
       sentiment := classify sc;
       indicators :=
         List.firstn 5
           (collect "-" negative_keywords t (collect "+" positive_keywords t [])) |}.
Proof.
  intros Hne. destruct text as [|c text']; [congruence|].
  unfold analyze_sentiment.
  cbn [nonempty negb]. rewrite !sum_matches_matched. reflexivity.
Qed.

(** C6. For a non-empty text the score is twice the number of positive
    keywords found, minus three times the number of negative ones, plus
    half the number of neutral ones, clamped to [-10, 10]; the category
    is very_positive from 3 up, positive in [1, 3), neutral in [-1, 1),
    negative in [-3, -1) and very_negative below -3. *)
Theorem analyze_sentiment_score (text : string) :
  text <> EmptyString ->
  let t := lower text in
  let raw := 2 * inject_Z (Spec.matched positive_keywords t)
             - 3 * inject_Z (Spec.matched negative_keywords t)
             + (1 # 2) * inject_Z (Spec.matched neutral_keywords t) in
  let r := analyze_sentiment text in
  score r == Spec.clamp (-10) 10 raw /\
  (sentiment r = "very_positive" <-> 3 <= score r) /\
  (sentiment r = "positive" <-> 1 <= score r /\ score r < 3) /\
  (sentiment r = "neutral" <-> -1 <= score r /\ score r < 1) /\
  (sentiment r = "negative" <-> -3 <= score r /\ score r < -1) /\
  (sentiment r = "very_negative" <-> score r < -3).
Proof.
  intros Hne t raw r.
  pose proof (analyze_sentiment_nonempty text Hne) as Hr. cbv zeta in Hr.
  subst r. rewrite Hr. cbn [score sentiment]. fold t.
  set (P := Spec.matched positive_keywords t).
  set (N := Spec.matched negative_keywords t).
  set (M := Spec.matched neutral_keywords t).
  set (raw0 := inject_Z (1 * P * 2) - inject_Z (1 * N * 3)
               + inject_Z (1 * M) * (1 # 2)).
  set (sc := py_max (-10) (py_min 10 raw0)).
  assert (Hraw : raw0 == raw).
  { unfold raw0, raw, Qeq, Qplus, Qminus, Qopp, Qmult, inject_Z; simpl. lia. }
  assert (Hhalf : exists x, sc == x # 2).
  { assert (H0 : raw0 == (4 * P - 6 * N + M)%Z # 2).
    { unfold raw0, Qeq, Qplus, Qminus, Qopp, Qmult, inject_Z; simpl. lia. }
    destruct (py_min_halves 10 raw0 _ H0) as [y Hy].
    exact (py_max_halves (-10) _ y Hy). }
  destruct Hhalf as [x Hx].
  assert (Hround : round2 sc == sc) by (exact (round2_halves sc x Hx)).
  split.
  - rewrite Hround. unfold sc, Spec.clamp.
    rewrite py_max_Qmax, py_min_Qmin, Hraw. reflexivity.
  - rewrite Hround. apply classify_bands.
Qed.

(** The theorem at a text with one positive and one neutral keyword. *)
Lemma analyze_sentiment_score_witness :
  score (analyze_sentiment "indie all games") == 5 # 2 /\
  sentiment (analyze_sentiment "indie all games") = "positive".
Proof.
  assert (Hne : "indie all games" <> EmptyString) by discriminate.
  destruct (analyze_sentiment_score "indie all games" Hne) as [Hs _].
  split; [|reflexivity].
  rewrite Hs. reflexivity.
Defined.

(** The empty text is scored without looking at the tables. *)
Example analyze_sentiment_empty :
  analyze_sentiment "" = {| score := 0; sentiment := "neutral"; indicators := [] |}.
Proof. reflexivity. Qed.

End Sentiment.

(** ** calculate_response_likelihood *)

Section Likelihood.

Lemma Qle_bool_comp (a a' b b' : Q) :
  (a == a')%Q -> (b == b')%Q -> Qle_bool a b = Qle_bool a' b'.
Proof.
  intros Ha Hb. apply eq_true_iff_eq.
  rewrite !Qle_bool_iff, Ha, Hb. reflexivity.
Qed.

(** The adjustment that the upload step makes, band by band, as the code
    orders its tests. *)
Lemma upload_step_bands (d : influencer_data) (st : tally) :
  let f := get (upload_frequency_days d) 0%Q in
  ((0 < f /\ f <= 3)%Q -> (upload_step d st).1 = st.1 + 10) /\
  ((f <= 0 \/ 3 < f)%Q -> (f <= 7)%Q -> (upload_step d st).1 = st.1 + 5) /\
  ((30 < f)%Q -> (upload_step d st).1 = st.1 - 10) /\
  ((7 < f /\ f <= 30)%Q -> (upload_step d st).1 = st.1).
Proof.
  intros f. unfold upload_step, Qlt_bool. fold f.
  destruct (Qle_bool f 0) eqn:H0;
    [apply Qle_bool_iff in H0 | apply Qle_bool_false in H0];
  destruct (Qle_bool f 3) eqn:H3;
    [apply Qle_bool_iff in H3 | apply Qle_bool_false in H3
    |apply Qle_bool_iff in H3 | apply Qle_bool_false in H3];
  destruct (Qle_bool f 7) eqn:H7;
    try (apply Qle_bool_iff in H7); try (apply Qle_bool_false in H7);
  destruct (Qle_bool f 30) eqn:H30;
    try (apply Qle_bool_iff in H30); try (apply Qle_bool_false in H30);
  cbn [negb andb adjust fst]; repeat split; intros; try lra; try lia.
Qed.

(** At frequency 0 the first test fails on its guard and the second
    test succeeds. *)
Lemma upload_step_zero (d : influencer_data) (st : tally) :
  (get (upload_frequency_days d) 0 == 0)%Q ->
  upload_step d st = adjust 5 "âœ“ Active (posts weekly)" st.
Proof.
  intros H. unfold upload_step, Qlt_bool.
  rewrite (Qle_bool_comp _ 0 _ 0 H (Qeq_refl 0)).
  rewrite (Qle_bool_comp _ 0 _ 3 H (Qeq_refl 3)).
  rewrite (Qle_bool_comp _ 0 _ 7 H (Qeq_refl 7)).
  reflexivity.
Qed.

(** C2, at the frequency 0 that stands for "unknown": the first band is
    guarded by [upload_freq > 0], the second is not, so the step adds 5
    to the score and files the creator as one who posts weekly. *)
Theorem upload_step_unknown_frequency (d : influencer_data) (st : tally) :
  (get (upload_frequency_days d) 0 == 0)%Q ->
  (upload_step d st).1 = st.1 + 5 /\
  (upload_step d st).2 = st.2 ++ ["âœ“ Active (posts weekly)"].
Proof.
  intros H. rewrite (upload_step_zero d st H). split; reflexivity.
Qed.

Lemma upload_step_unknown_frequency_witness :
  (upload_step base_case (50, [])).1 = 55.
Proof.
  assert (H : (get (upload_frequency_days base_case) 0 == 0)%Q) by reflexivity.
  exact (proj1 (upload_step_unknown_frequency base_case (50, []) H)).
Defined.

(** C3, on every record that fits the description of the base case: the
    score is 50, the 5 above the 45 of the specification being the
    adjustment that the upload step makes at frequency 0. *)
Theorem base_case_score (d : influencer_data) :
  get (email_count d) 0 = 0 ->
  has_business_terms d <> Some "Yes" ->
  contact_methods d = 1 ->
  get (indie_sentiment d) "neutral" = "neutral" ->
  (get (upload_frequency_days d) 0 == 0)%Q ->
  (get (engagement_rate_numeric d) 0 == 0)%Q ->
  get (followers d) 0 = 50000 ->
  response_score (calculate_response_likelihood d) = 50 /\
  likelihood (calculate_response_likelihood d) = "Medium".
Proof.
  intros Hemail Hbiz Hcontact Hsent Hfreq Heng Hfol.
  unfold calculate_response_likelihood.
  rewrite upload_step_zero by exact Hfreq.
  unfold followers_step, engagement_step, sentiment_step, contact_step,
    business_step, email_step, Qlt_bool.
  rewrite Hemail, Hcontact, Hsent, Hfol.
  rewrite (Qle_bool_comp _ 0 _ 10 Heng (Qeq_refl 10)).
  rewrite (Qle_bool_comp _ 0 _ 5 Heng (Qeq_refl 5)).
  rewrite (Qle_bool_comp 1 1 _ 0 (Qeq_refl 1) Heng).
  rewrite (Qle_bool_comp _ 0 _ 0 Heng (Qeq_refl 0)).
  rewrite bool_decide_eq_false_2 by exact Hbiz.
  split; reflexivity.
Qed.

Lemma base_case_score_witness :
  response_score (calculate_response_likelihood base_case) = 50 /\
  likelihood (calculate_response_likelihood base_case) = "Medium".
Proof.
  apply (base_case_score base_case); try reflexivity.
  discriminate.
Defined.

End Likelihood.

(** ** Facts about strings *)

Section Strings.

Lemma append_cons (x : ascii) (a b : string) :
  String x a +:+ b = String x (a +:+ b).
Proof. reflexivity. Qed.

Lemma append_nil_l (b : string) : "" +:+ b = b.
Proof. reflexivity. Qed.

Lemma append_assoc (a b c : string) : (a +:+ b) +:+ c = a +:+ (b +:+ c).
Proof.
  induction a as [|x a IH]; [reflexivity|].
  rewrite !append_cons. f_equal. exact IH.
Qed.

Lemma append_nil_r (a : string) : a +:+ "" = a.
Proof.
  induction a as [|x a IH]; [reflexivity|].
  rewrite append_cons. f_equal. exact IH.
Qed.

Lemma prefix_nil (s : string) : String.prefix "" s = true.
Proof. destruct s; reflexivity. Qed.

Lemma prefix_append (k r : string) : String.prefix k (k +:+ r) = true.
Proof.
  induction k as [|x k IH]; [apply prefix_nil|].
  rewrite append_cons. cbn [String.prefix].
  destruct (ascii_dec x x); [exact IH | congruence].
Qed.

Lemma contains_unfold (k s : string) :
  contains k s
  = String.prefix k s ||
    match s with EmptyString => false | String _ s' => contains k s' end.
Proof. destruct s; reflexivity. Qed.

Lemma contains_here (k r : string) : contains k (k +:+ r) = true.
Proof. rewrite contains_unfold, prefix_append. reflexivity. Qed.

Lemma contains_append_r (k p s : string) :
  contains k s = true -> contains k (p +:+ s) = true.
Proof.
  intros H. induction p as [|x p IH]; [exact H|].
  rewrite append_cons, contains_unfold, IH. apply orb_true_r.
Qed.

Lemma occurs_here (k r : string) : Spec.occurs k (k +:+ r).
Proof. exists "", r. reflexivity. Qed.

Lemma occurs_append_r (k p s : string) : Spec.occurs k s -> Spec.occurs k (p +:+ s).
Proof.
  intros (pre & post & ->). exists (p +:+ pre), post.
  now rewrite append_assoc.
Qed.

Lemma occurs_contains (k s : string) : Spec.occurs k s -> contains k s = true.
Proof.
  intros (pre & post & ->). apply contains_append_r, contains_here.
Qed.

End Strings.

(** ** generate_email_content *)

Section Composer.

Ltac find_key :=
  first [ apply occurs_here | apply occurs_append_r; find_key ].

Lemma email_body_occurs (name : value) (opening hook steam_key : string) :
  Spec.occurs steam_key (email_body name opening hook steam_key).
Proof. unfold email_body. find_key. Qed.

(** What [generate_email_content] returns is built by [email_body] from
    the key it was given. *)
Lemma generate_email_content_body (w : collaborators) (influencer : pydict)
    (steam_key : string) (content : email_content) :
  generate_email_content w influencer steam_key = Ok content ->
  exists name opening hook,
    body content = email_body name opening hook steam_key.
Proof.
  unfold generate_email_content. intros H.
  repeat match type of H with
  | bind ?m _ = Ok _ => destruct m; cbn [bind] in H; [|discriminate]
  end.
  injection H as <-. cbn [body]. eauto.
Qed.

(** C10. Whenever the composer returns a message, its body contains the
    Steam key it was handed, verbatim. *)
Theorem email_body_contains_key (w : collaborators) (influencer : pydict)
    (steam_key : string) (content : email_content) :
  generate_email_content w influencer steam_key = Ok content ->
  contains steam_key (body content) = true /\
  exists pre post, body content = pre +:+ steam_key +:+ post.
Proof.
  intros H.
  destruct (generate_email_content_body _ _ _ _ H) as (name & o & h & ->).
  pose proof (email_body_occurs name o h steam_key) as Hocc.
  split; [apply occurs_contains, Hocc | exact Hocc].
Qed.

Lemma email_body_contains_key_witness :
  exists content,
    generate_email_content sample_world sample_influencer sample_key = Ok content
    /\ contains sample_key (body content) = true.
Proof.
  eexists. split; [vm_compute; reflexivity|].
  apply (email_body_contains_key sample_world sample_influencer sample_key _ eq_refl).
Defined.

(** The composer does return on a record whose fields have the types
    that the discovery stage gives them: an integer audience size and
    strings elsewhere (a missing key takes its default). *)
Lemma generate_email_content_returns (w : collaborators) (influencer : pydict)
    (steam_key : string) :
  (exists z, dget influencer "followers" (VInt 0) = VInt z) ->
  (exists s, dget influencer "last_video_title" (VStr "recent content") = VStr s) ->
  (exists s, dget influencer "last_game_played" (VStr "") = VStr s) ->
  (exists s, dget influencer "platform" (VStr "YouTube") = VStr s) ->
  (exists s, dget influencer "emails" (VStr "") = VStr s) ->
  exists content, generate_email_content w influencer steam_key = Ok content.
Proof.
  intros [z Hz] [v Hv] [g Hg] [p Hp] [e He].
  unfold generate_email_content, follower_str, opening_line, and_lower.
  rewrite Hz, Hv, Hg, Hp, He. cbn [as_int as_str bind fmap result_fmap truth].
  repeat match goal with
  | |- context [if ?b then _ else _] => destruct b; cbn [bind]
  end; eauto.
Qed.

(** On the rows that [generate_campaign] reads from the CSV file the
    audience size is a string, and the comparison with a number raises. *)
Lemma generate_email_content_csv_followers (w : collaborators)
    (influencer : pydict) (steam_key followers : string) :
  influencer !! "followers" = Some (VStr followers) ->
  generate_email_content w influencer steam_key = Raise TypeError.
Proof.
  intros H. unfold generate_email_content, follower_str, dget.
  rewrite H. reflexivity.
Qed.

End Composer.

(** ** mark_as_sent *)

Section MarkAsSent.

Variable w : collaborators.

Lemma mark_one_other (st : ledger * nat) (email a : string) :
  a <> email -> (mark_one w st email).1 !! a = st.1 !! a.
Proof.
  intros Hne. unfold mark_one. destruct (st.1 !! email); [|reflexivity].
  cbn [fst]. rewrite lookup_insert_ne by congruence. reflexivity.
Qed.

Lemma mark_one_absent (st : ledger * nat) (email : string) :
  st.1 !! email = None -> mark_one w st email = st.
Proof. intros H. unfold mark_one. rewrite H. reflexivity. Qed.

Lemma mark_one_present (st : ledger * nat) (email : string) (e : pydict) :
  st.1 !! email = Some e ->
  exists e', (mark_one w st email).1 !! email = Some e'
             /\ Spec.same_elsewhere e' e /\ Spec.marked w e'.
Proof.
  intros H. unfold mark_one. rewrite H. cbn [fst].
  eexists. split; [apply lookup_insert_eq|]. split.
  - intros f Hs Hd. rewrite !lookup_insert_ne by congruence. reflexivity.
  - split.
    + rewrite lookup_insert_ne by discriminate. apply lookup_insert_eq.
    + exists st.2. apply lookup_insert_eq.
Qed.

(** One step keeps every entry, up to the two fields, and keeps marks. *)
Lemma mark_one_keeps (st : ledger * nat) (email a : string) (e : pydict) :
  st.1 !! a = Some e ->
  exists e', (mark_one w st email).1 !! a = Some e'
             /\ Spec.same_elsewhere e' e /\ (Spec.marked w e -> Spec.marked w e').
Proof.
  intros H. destruct (decide (a = email)) as [->|Hne].
  - destruct (mark_one_present st email e H) as (e' & ? & ? & ?). eauto.
  - exists e. rewrite mark_one_other by exact Hne.
    split; [exact H|]. split; [intros f _ _; reflexivity | auto].
Qed.

Lemma mark_one_dom (st : ledger * nat) (email : string) :
  dom (mark_one w st email).1 = dom st.1.
Proof.
  unfold mark_one. destruct (st.1 !! email) eqn:H; [|reflexivity].
  cbn [fst]. apply dom_insert_lookup_L. eauto.
Qed.

(** The loop over the addresses, against the ledger it started from. *)
Lemma mark_loop (assignments : ledger) (clock : nat) (addresses : list string) :
  let st := fold_left (mark_one w) addresses (assignments, clock) in
  dom st.1 = dom assignments /\
  (forall a, a ∉ addresses -> st.1 !! a = assignments !! a) /\
  (forall a e, assignments !! a = Some e ->
     exists e', st.1 !! a = Some e' /\ Spec.same_elsewhere e' e /\
                (a ∈ addresses -> Spec.marked w e')).
Proof.
  induction addresses as [|x l IH] using rev_ind; cbn zeta.
  - split; [reflexivity|]. split; [reflexivity|].
    intros a e H. exists e. split; [exact H|].
    split; [intros f _ _; reflexivity|]. intros Hin. inversion Hin.
  - rewrite fold_left_app. cbn [fold_left].
    cbn zeta in IH. destruct IH as (Hdom & Hout & Hin).
    set (st := fold_left (mark_one w) l (assignments, clock)) in *.
    split; [rewrite mark_one_dom; exact Hdom|]. split.
    + intros a Ha. apply not_elem_of_app in Ha as [Hl Hx].
      apply not_elem_of_cons in Hx as [Hx _].
      rewrite mark_one_other by exact Hx. apply Hout, Hl.
    + intros a e Ha. destruct (Hin a e Ha) as (e1 & H1 & Hsame1 & Hmark1).
      destruct (decide (a = x)) as [->|Hne].
      * destruct (mark_one_present st x e1 H1) as (e2 & H2 & Hsame2 & Hmark2).
        exists e2. split; [exact H2|]. split; [|intros _; exact Hmark2].
        intros f Hs Hd. rewrite Hsame2, Hsame1 by assumption. reflexivity.
      * exists e1. rewrite mark_one_other by exact Hne.
        split; [exact H1|]. split; [exact Hsame1|].
        intros Hel. apply Hmark1.
        apply elem_of_app in Hel as [Hel|Hel]; [exact Hel|].
        apply list_elem_of_singleton in Hel. contradiction.
Qed.

(** C9. [mark_as_sent] always saves a ledger; it has the addresses of
    the ledger it loaded, an entry whose address is not listed is the
    entry loaded, and an entry whose address is listed differs from the
    one loaded in [sent] and [sent_date] at most, which carry the mark.
    A listed address that the ledger does not have adds nothing. *)
Theorem mark_as_sent_frame (ledger_file : option ledger) (clock : nat)
    (email_addresses : list string) :
  let assignments := load_key_assignments ledger_file in
  exists saved,
    mark_as_sent w ledger_file clock email_addresses = Some saved /\
    dom saved = dom assignments /\
    (forall a, a ∉ email_addresses -> saved !! a = assignments !! a) /\
    (forall a, assignments !! a = None -> saved !! a = None) /\
    (forall a e, assignments !! a = Some e ->
       exists e', saved !! a = Some e' /\
         (forall f, f <> "sent" -> f <> "sent_date" -> e' !! f = e !! f) /\
         (a ∈ email_addresses ->
            e' !! "sent" = Some (VBool true) /\
            exists n, e' !! "sent_date" = Some (VStr (now_isoformat w n)))).
Proof.
  intros assignments. unfold mark_as_sent, save_key_assignment.
  fold assignments.
  destruct (mark_loop assignments clock email_addresses) as (Hdom & Hout & Hin).
  eexists. split; [reflexivity|].
  split; [exact Hdom|]. split; [exact Hout|]. split; [|exact Hin].
  intros a Ha. apply not_elem_of_dom. rewrite Hdom.
  apply not_elem_of_dom. exact Ha.
Qed.

End MarkAsSent.

(** ** extract_emails *)

Section Emails.
Import Symbolic.

Lemma extract_emails_nonempty (text : string) :
  text <> EmptyString ->
  extract_emails text
  = list_set (List.filter keep_email (findall email_pattern (deobfuscate text))).
Proof. intros H. destruct text; [congruence | reflexivity]. Qed.

Lemma keep_email_clean (e m : string) :
  keep_email e = true -> m ∈ skip_markers -> contains m (lower e) = false.
Proof.
  unfold keep_email, any_in. intros Hk Hm.
  apply negb_true_iff in Hk.
  destruct (contains m (lower e)) eqn:Hc; [|reflexivity].
  assert (Hex : existsb (fun k => contains k (lower e)) skip_markers = true).
  { apply existsb_exists. exists m. split; [apply list_elem_of_In, Hm | exact Hc]. }
  congruence.
Qed.

(** C5. No address that [extract_emails] returns contains, once lowered,
    a marker of the exclusion list, and no address is returned twice. *)
Theorem extract_emails_clean (text : string) :
  NoDup (extract_emails text) /\
  (forall e m, e ∈ extract_emails text -> m ∈ skip_markers ->
               contains m (lower e) = false).
Proof.
  unfold extract_emails, list_set.
  destruct (negb (nonempty text)).
  - split; [constructor|]. intros e m He. inversion He.
  - split; [apply NoDup_remove_dups|].
    intros e m He Hm. rewrite elem_of_remove_dups, list_elem_of_In in He.
    apply List.filter_In in He as [_ Hk].
    exact (keep_email_clean e m Hk Hm).
Qed.

Example extract_emails_filters :
  extract_emails
    "mail bob at site dot org, x@example.com, NoReply@site.org, bob@site.org"
  = ["bob@site.org"].
Proof. vm_compute. reflexivity. Qed.

(** *** The replacements *)

Lemma deobfuscate_table (text : string) :
  deobfuscate text
  = fold_left (fun t p => replace p.1 p.2 t) Spec.literal_markers text.
Proof. reflexivity. Qed.

Lemma replace_go_cons (old new : string) (c : ascii) (s : string) :
  replace_go old new 0 (String c s)
  = if String.prefix old (String c s)
    then new +:+ replace_go old new (String.length old - 1) s
    else String c (replace_go old new 0 s).
Proof. reflexivity. Qed.

Lemma replace_go_skip (old new : string) (k : nat) (c : ascii) (s : string) :
  replace_go old new (S k) (String c s) = replace_go old new k s.
Proof. reflexivity. Qed.

(** A text without the marker is left as it is. *)
Lemma replace_go_absent (old new s : string) :
  contains old s = false -> replace_go old new 0 s = s.
Proof.
  induction s as [|c s IH]; intros H; [reflexivity|].
  rewrite contains_unfold in H. apply orb_false_iff in H as [Hp Hc].
  rewrite replace_go_cons, Hp, IH by exact Hc. reflexivity.
Qed.

Lemma replace_absent (old new s : string) :
  contains old s = false -> replace old new s = s.
Proof.
  intros H. destruct old as [|x old'].
  - rewrite contains_unfold, prefix_nil in H. discriminate.
  - apply replace_go_absent, H.
Qed.

Lemma deobfuscate_absent (text : string) :
  (forall old new, (old, new) ∈ Spec.literal_markers -> contains old text = false) ->
  deobfuscate text = text.
Proof.
  rewrite deobfuscate_table.
  induction Spec.literal_markers as [|[old new] table IH]; intros H; [reflexivity|].
  cbn [fold_left fst snd].
  rewrite replace_absent by (apply (H old new); left).
  apply IH. intros o n Hin. apply (H o n). right. exact Hin.
Qed.

(** A prefix of a plain text is plain. *)
Lemma prefix_plain (p b : string) :
  String.prefix p b = true -> plain b = true -> plain p = true.
Proof.
  revert b. induction p as [|x p IH]; intros b Hp Hb; [reflexivity|].
  destruct b as [|c b]; [discriminate|].
  cbn [String.prefix] in Hp. destruct (ascii_dec x c) as [->|]; [|discriminate].
  cbn [plain all_chars] in *. apply andb_true_iff in Hb as [Hc Hb].
  rewrite Hc. exact (IH b Hp Hb).
Qed.

Lemma prefix_lit_sound (old lit b : string) (r : bool) :
  prefix_lit old lit = Some r -> plain b = true ->
  String.prefix old (lit +:+ b) = r.
Proof.
  revert lit. induction old as [|x old IH]; intros lit H Hb.
  - injection H as <-. apply prefix_nil.
  - destruct lit as [|c lit].
    + cbn [prefix_lit] in H. rewrite append_nil_l.
      destruct (plain (String x old)) eqn:Hpl; [discriminate|].
      injection H as <-.
      destruct (String.prefix (String x old) b) eqn:Hp; [|reflexivity].
      rewrite (prefix_plain _ _ Hp Hb) in Hpl. discriminate.
    + cbn [prefix_lit] in H. rewrite append_cons. cbn [String.prefix].
      destruct (Ascii.eqb_spec x c) as [->|Hne].
      * destruct (ascii_dec c c); [|congruence]. exact (IH lit H Hb).
      * injection H as <-. destruct (ascii_dec x c); [congruence | reflexivity].
Qed.

(** A marker that starts with a character apart from letters and digits
    does not occur in a plain text. *)
Lemma replace_go_plain (old new b : string) :
  starts_apart old = true -> plain b = true -> replace_go old new 0 b = b.
Proof.
  intros Ho. induction b as [|c b IH]; intros Hb; [reflexivity|].
  cbn [plain all_chars] in Hb. apply andb_true_iff in Hb as [Hc Hb].
  rewrite replace_go_cons.
  destruct old as [|x old]; [discriminate|]. cbn [starts_apart] in Ho.
  cbn [String.prefix]. destruct (ascii_dec x c) as [->|].
  - rewrite Hc in Ho. discriminate.
  - rewrite (IH Hb). reflexivity.
Qed.

Lemma replace_go_after_plain (old new a t : string) :
  starts_apart old = true -> plain a = true ->
  replace_go old new 0 (a +:+ t) = a +:+ replace_go old new 0 t.
Proof.
  intros Ho. induction a as [|c a IH]; intros Ha; [reflexivity|].
  cbn [plain all_chars] in Ha. apply andb_true_iff in Ha as [Hc Ha].
  rewrite !append_cons, replace_go_cons.
  destruct old as [|x old]; [discriminate|]. cbn [starts_apart] in Ho.
  cbn [String.prefix]. destruct (ascii_dec x c) as [->|].
  - rewrite Hc in Ho. discriminate.
  - rewrite (IH Ha). reflexivity.
Qed.

Lemma replace_lit_sound (old new : string) (lit b : string) :
  starts_apart old = true -> plain b = true ->
  forall skip r,
    replace_lit old new skip lit = Some r ->
    replace_go old new skip (lit +:+ b) = r +:+ b.
Proof.
  intros Ho Hb. induction lit as [|c lit IH]; intros skip r H.
  - destruct skip; [|discriminate]. injection H as <-.
    rewrite append_nil_l. apply replace_go_plain; assumption.
  - rewrite append_cons. destruct skip as [|k].
    + cbn [replace_lit] in H. rewrite replace_go_cons, <- append_cons.
      destruct (prefix_lit old (String c lit)) as [[|]|] eqn:Hp; [| |discriminate];
        rewrite (prefix_lit_sound _ _ _ _ Hp Hb).
      * destruct (replace_lit old new (String.length old - 1) lit) as [r'|] eqn:Hr;
          [|discriminate].
        injection H as <-. rewrite (IH _ _ Hr). apply eq_sym, append_assoc.
      * destruct (replace_lit old new 0 lit) as [r'|] eqn:Hr; [|discriminate].
        injection H as <-. rewrite (IH _ _ Hr). reflexivity.
    + cbn [replace_lit] in H. rewrite replace_go_skip. exact (IH _ _ H).
Qed.

Lemma replace_all_lit_sound (table : list (string * string)) (a b : string) :
  Forall (fun p => starts_apart p.1 = true) table ->
  plain a = true -> plain b = true ->
  forall lit r,
    replace_all_lit table lit = Some r ->
    fold_left (fun t p => replace p.1 p.2 t) table (a +:+ lit +:+ b)
    = a +:+ r +:+ b.
Proof.
  intros Ht Ha Hb. induction Ht as [|[old new] table Ho _ IH]; intros lit r H.
  - injection H as <-. reflexivity.
  - cbn [replace_all_lit] in H. cbn [fold_left fst snd] in *.
    destruct (replace_lit old new 0 lit) as [r'|] eqn:Hr; [|discriminate].
    destruct old as [|x old]; [discriminate|]. cbn [replace].
    rewrite (replace_go_after_plain _ _ _ _ Ho Ha).
    rewrite (replace_lit_sound _ _ _ _ Ho Hb _ _ Hr).
    exact (IH _ _ H).
Qed.

Lemma literal_markers_apart :
  Forall (fun p => starts_apart p.1 = true) Spec.literal_markers.
Proof. repeat constructor. Qed.

Lemma literal_markers_rewritten :
  Forall (fun p => replace_all_lit Spec.literal_markers p.1 = Some p.2)
    Spec.literal_markers.
Proof. repeat constructor. Qed.

(** Between letters and digits each marker of the table becomes its
    replacement. *)
Lemma deobfuscate_marker (old new a b : string) :
  (old, new) ∈ Spec.literal_markers -> plain a = true -> plain b = true ->
  deobfuscate (a +:+ old +:+ b) = a +:+ new +:+ b.
Proof.
  intros Hin Ha Hb. rewrite deobfuscate_table.
  apply (replace_all_lit_sound _ _ _ literal_markers_apart Ha Hb).
  pose proof literal_markers_rewritten as H.
  rewrite Forall_forall in H. exact (H (old, new) Hin).
Qed.

(** The replacements as the code has them. The pattern is applied to the
    text that [deobfuscate] returns; [deobfuscate] replaces the twelve
    literal markers of the table, in the order of the table; each marker
    becomes its replacement when it stands between letters and digits,
    and a text where none of the twelve occurs is left as it is,
    whatever other casing of a marker it may hold. *)
Theorem deobfuscate_literal_markers :
  (forall text, text <> EmptyString ->
     extract_emails text
     = list_set (List.filter keep_email
                   (findall email_pattern (deobfuscate text)))) /\
  (forall text,
     deobfuscate text
     = fold_left (fun t p => replace p.1 p.2 t) Spec.literal_markers text) /\
  (forall old new a b,
     (old, new) ∈ Spec.literal_markers -> plain a = true -> plain b = true ->
     deobfuscate (a +:+ old +:+ b) = a +:+ new +:+ b) /\
  (forall text,
     (forall old new, (old, new) ∈ Spec.literal_markers ->
                      contains old text = false) ->
     deobfuscate text = text).
Proof.
  split; [exact extract_emails_nonempty|].
  split; [exact deobfuscate_table|].
  split; [exact deobfuscate_marker | exact deobfuscate_absent].
Qed.

(** A marker in mixed case, or [ AT ] and [ DOT ] in upper case, is not
    rewritten, and the address is not found. *)
Lemma extract_emails_mixed_case_marker :
  lower "[At]" = "[at]" /\
  deobfuscate "john[At]site.org" = "john[At]site.org" /\
  extract_emails "john[At]site.org" = [] /\
  extract_emails "john AT site DOT org" = [] /\
  extract_emails "john[at]site.org" = ["john@site.org"] /\
  extract_emails "john at site dot org" = ["john@site.org"].
Proof. vm_compute. repeat split; reflexivity. Qed.

End Emails.

(** ** load_steam_keys *)

Section KeyPool.

(** *** Substrings of a stripped line *)

Lemma prefix_split (k s : string) :
  String.prefix k s = true -> exists r, s = k +:+ r.
Proof.
  revert s. induction k as [|x k IH]; intros s H.
  - exists s. reflexivity.
  - destruct s as [|c s]; [discriminate|]. cbn [String.prefix] in H.
    destruct (ascii_dec x c) as [->|]; [|discriminate].
    destruct (IH s H) as [r ->]. exists r. reflexivity.
Qed.

Lemma contains_occurs (k s : string) : contains k s = true -> Spec.occurs k s.
Proof.
  induction s as [|c s IH]; intros H; rewrite contains_unfold in H.
  - rewrite orb_false_r in H. destruct (prefix_split _ _ H) as [r Hr].
    exists "", r. exact Hr.
  - apply orb_true_iff in H as [H|H].
    + destruct (prefix_split _ _ H) as [r Hr]. exists "", r. exact Hr.
    + destruct (IH H) as (pre & post & ->). exists (String c pre), post.
      reflexivity.
Qed.

Lemma contains_append_l (k p t : string) :
  contains k p = true -> contains k (p +:+ t) = true.
Proof.
  intros H. apply contains_occurs in H as (pre & post & ->).
  apply occurs_contains. exists pre, (post +:+ t).
  rewrite !append_assoc. reflexivity.
Qed.

Lemma lstrip_suffix (s : string) : exists p, s = p +:+ lstrip s.
Proof.
  induction s as [|c s [p IH]]; [exists ""; reflexivity|].
  cbn [lstrip]. destruct (is_space c).
  - exists (String c p). rewrite append_cons. f_equal. exact IH.
  - exists "". reflexivity.
Qed.

Lemma rstrip_prefix (s : string) : exists t, s = rstrip s +:+ t.
Proof.
  induction s as [|c s [t IH]]; [exists ""; reflexivity|].
  cbn [rstrip]. destruct (rstrip s) as [|d r] eqn:Hr.
  - destruct (is_space c).
    + exists (String c s). reflexivity.
    + exists s. reflexivity.
  - exists t. rewrite append_cons. f_equal. exact IH.
Qed.

(** What occurs in the stripped line occurs in the line. *)
Lemma contains_strip (k s : string) :
  contains k (strip s) = true -> contains k s = true.
Proof.
  unfold strip. intros H.
  destruct (lstrip_suffix s) as [p Hp].
  destruct (rstrip_prefix (lstrip s)) as [t Ht].
  rewrite Hp. apply contains_append_r. rewrite Ht.
  apply contains_append_l, H.
Qed.

(** *** The two loops *)

Lemma valid_key_long_enough (key : string) :
  valid_key key = Spec.long_enough key.
Proof.
  unfold valid_key, Spec.long_enough. destruct key as [|c key]; [reflexivity|].
  cbn [nonempty andb]. apply eq_true_iff_eq.
  rewrite Nat.ltb_lt, Nat.leb_le. lia.
Qed.

Lemma keys_of_lines_from (lines keys : list string) :
  fold_left
    (fun keys line =>
       let key := strip line in
       if valid_key key then keys ++ [key] else keys)
    lines keys
  = keys ++ List.filter Spec.long_enough (List.map strip lines).
Proof.
  revert keys. induction lines as [|l lines IH]; intros keys;
    cbn [fold_left List.map List.filter].
  - rewrite app_nil_r. reflexivity.
  - rewrite IH, valid_key_long_enough.
    destruct (Spec.long_enough (strip l)); [|reflexivity].
    rewrite <- app_assoc. reflexivity.
Qed.

Lemma keys_of_lines_filter (lines : list string) :
  keys_of_lines lines = List.filter Spec.long_enough (List.map strip lines).
Proof. unfold keys_of_lines. rewrite keys_of_lines_from. reflexivity. Qed.

Lemma keys_of_rows_from (i : nat) (rows : list (list string)) (keys : list string) :
  fold_left
    (fun keys row =>
       match row !! i with
       | Some cell =>
           let key := strip cell in
           if valid_key key then keys ++ [key] else keys
       | None => keys
       end)
    rows keys
  = keys ++ List.filter Spec.long_enough
              (omap (fun row : list string => strip <$> row !! i) rows).
Proof.
  revert keys. induction rows as [|row rows IH]; intros keys;
    cbn [fold_left omap list_omap].
  - rewrite app_nil_r. reflexivity.
  - rewrite IH. destruct (row !! i) as [cell|];
      cbn [fmap option_fmap option_map List.filter]; [|reflexivity].
    rewrite valid_key_long_enough.
    destruct (Spec.long_enough (strip cell)); [|reflexivity].
    rewrite <- app_assoc. reflexivity.
Qed.

Lemma keys_of_rows_filter (i : nat) (rows : list (list string)) :
  keys_of_rows i rows
  = List.filter Spec.long_enough
      (omap (fun row : list string => strip <$> row !! i) rows).
Proof. unfold keys_of_rows. rewrite keys_of_rows_from. reflexivity. Qed.

(** The loop over the header finds the first column that names a key. *)
Lemma find_key_column_first (header : list string) (i n : nat) :
  Spec.first_key_column header i -> find_key_column n header = Some (n + i)%nat.
Proof.
  revert i n. induction header as [|col header IH]; intros i n [(c & Hc & Hk) Hfirst].
  - rewrite lookup_nil in Hc. discriminate.
  - cbn [find_key_column]. destruct i as [|i].
    + cbn in Hc. injection Hc as ->. rewrite Hk. f_equal. lia.
    + rewrite (Hfirst 0%nat col) by (try lia; reflexivity).
      rewrite (IH i (S n)); [f_equal; lia|].
      split; [exists c; split; [exact Hc | exact Hk]|].
      intros j c' Hj Hc'. apply (Hfirst (S j) c'); [lia | exact Hc'].
Qed.

(** *** Plain-text pools *)

Lemma load_plain (text : string) :
  let lines := readlines (universal_newlines text) in
  contains "," (strip (readline lines)) = false ->
  contains (String TAB "") (strip (readline lines)) = false ->
  load_steam_keys (Some text)
  = Ok (List.filter Spec.long_enough (List.map strip lines)).
Proof.
  intros lines Hc Ht. unfold load_steam_keys. fold lines.
  rewrite Hc, Ht. cbn [orb]. rewrite keys_of_lines_filter. reflexivity.
Qed.

Lemma contains_false_strip (k s : string) :
  contains k s = false -> contains k (strip s) = false.
Proof.
  intros H. destruct (contains k (strip s)) eqn:Hs; [|reflexivity].
  rewrite (contains_strip _ _ Hs) in H. discriminate.
Qed.

(** *** One token per line *)

Lemma no_space_not (c d : ascii) :
  no_space c = true -> is_space d = true -> Ascii.eqb c d = false.
Proof.
  unfold no_space. intros Hc Hd. destruct (Ascii.eqb_spec c d) as [->|]; [|reflexivity].
  rewrite Hd in Hc. discriminate.
Qed.

Lemma universal_newlines_token (t s : string) :
  all_chars no_space t = true ->
  universal_newlines (t +:+ String LF s) = t +:+ String LF (universal_newlines s).
Proof.
  induction t as [|c t IH]; intros Ht; [reflexivity|].
  cbn [all_chars] in Ht. apply andb_true_iff in Ht as [Hc Ht].
  rewrite !append_cons. cbn [universal_newlines].
  rewrite (no_space_not c CR Hc eq_refl), (IH Ht). reflexivity.
Qed.

Lemma universal_newlines_one_per_line (tokens : list string) :
  Forall (fun t => all_chars no_space t = true) tokens ->
  universal_newlines (Spec.one_per_line tokens) = Spec.one_per_line tokens.
Proof.
  induction 1 as [|t tokens Ht _ IH]; [reflexivity|].
  cbn [Spec.one_per_line]. rewrite (universal_newlines_token _ _ Ht), IH.
  reflexivity.
Qed.

Lemma readlines_token (t s : string) :
  all_chars no_space t = true ->
  readlines (t +:+ String LF s) = (t +:+ String LF "") :: readlines s.
Proof.
  induction t as [|c t IH]; intros Ht; [reflexivity|].
  cbn [all_chars] in Ht. apply andb_true_iff in Ht as [Hc Ht].
  rewrite !append_cons. cbn [readlines].
  rewrite (no_space_not c LF Hc eq_refl), (IH Ht). reflexivity.
Qed.

Lemma readlines_one_per_line (tokens : list string) :
  Forall (fun t => all_chars no_space t = true) tokens ->
  readlines (Spec.one_per_line tokens)
  = List.map (fun t => t +:+ String LF "") tokens.
Proof.
  induction 1 as [|t tokens Ht _ IH]; [reflexivity|].
  cbn [Spec.one_per_line List.map]. rewrite (readlines_token _ _ Ht), IH.
  reflexivity.
Qed.

Lemma rstrip_token (t : string) :
  all_chars no_space t = true -> rstrip (t +:+ String LF "") = t.
Proof.
  induction t as [|c t IH]; intros Ht; [reflexivity|].
  cbn [all_chars] in Ht. apply andb_true_iff in Ht as [Hc Ht].
  rewrite append_cons. cbn [rstrip]. rewrite (IH Ht).
  unfold no_space in Hc. apply negb_true_iff in Hc. rewrite Hc.
  destruct t; reflexivity.
Qed.

Lemma strip_token (t : string) :
  all_chars no_space t = true -> strip (t +:+ String LF "") = t.
Proof.
  intros Ht. unfold strip. destruct t as [|c t]; [reflexivity|].
  rewrite append_cons. cbn [lstrip].
  pose proof Ht as Ht'. cbn [all_chars] in Ht'.
  apply andb_true_iff in Ht' as [Hc _].
  unfold no_space in Hc. apply negb_true_iff in Hc. rewrite Hc.
  rewrite <- append_cons. apply rstrip_token, Ht.
Qed.

Lemma no_space_no_tab (t : string) :
  all_chars no_space t = true -> contains (String TAB "") t = false.
Proof.
  induction t as [|c t IH]; intros Ht; [reflexivity|].
  cbn [all_chars] in Ht. apply andb_true_iff in Ht as [Hc Ht].
  rewrite contains_unfold, (IH Ht). cbn [String.prefix].
  destruct (ascii_dec TAB c) as [<-|]; [discriminate | reflexivity].
Qed.

Lemma strip_tokens (tokens : list string) :
  Forall Spec.token15 tokens ->
  List.filter Spec.long_enough
    (List.map strip (List.map (fun t => t +:+ String LF "") tokens))
  = tokens.
Proof.
  induction 1 as [|t tokens [Hlen Ht] _ IH]; [reflexivity|].
  cbn [List.map List.filter]. rewrite (strip_token _ Ht), IH.
  unfold Spec.long_enough. rewrite Hlen. reflexivity.
Qed.

Lemma load_one_per_line (tokens : list string) :
  Forall Spec.token15 tokens ->
  (forall t, head tokens = Some t -> contains "," t = false) ->
  load_steam_keys (Some (Spec.one_per_line tokens)) = Ok tokens.
Proof.
  intros Htok Hcomma.
  assert (Hns : Forall (fun t => all_chars no_space t = true) tokens).
  { eapply Forall_impl; [exact Htok|]. intros t [_ H]. exact H. }
  pose proof (load_plain (Spec.one_per_line tokens)) as Hload. cbv zeta in Hload.
  rewrite (universal_newlines_one_per_line _ Hns),
    (readlines_one_per_line _ Hns) in Hload.
  rewrite Hload.
  - rewrite (strip_tokens _ Htok). reflexivity.
  - destruct Hns as [|t tokens Ht _]; [reflexivity|].
    cbn [List.map readline]. rewrite (strip_token _ Ht).
    apply Hcomma. reflexivity.
  - destruct Hns as [|t tokens Ht _]; [reflexivity|].
    cbn [List.map readline]. rewrite (strip_token _ Ht).
    apply no_space_no_tab, Ht.
Qed.

(** *** CSV pools *)

Lemma load_csv (text : string) (header : list string)
    (rows : list (list string)) (i : nat) :
  let lines := readlines (universal_newlines text) in
  contains "," (strip (readline lines))
  || contains (String TAB "") (strip (readline lines)) = true ->
  csv_reader lines = Ok (header :: rows) ->
  Spec.first_key_column header i ->
  load_steam_keys (Some text)
  = Ok (List.filter Spec.long_enough
          (omap (fun row : list string => strip <$> row !! i) rows)).
Proof.
  intros lines Hcsv Hrows Hfirst. unfold load_steam_keys. fold lines.
  rewrite Hcsv, Hrows. cbn [bind head tail].
  destruct header as [|col cols].
  { destruct Hfirst as [(c & Hc & _) _]. rewrite lookup_nil in Hc. discriminate. }
  rewrite (find_key_column_first _ i 0 Hfirst). cbn [Nat.add].
  rewrite keys_of_rows_filter. reflexivity.
Qed.

(** C8. A pool whose first line has no comma and no tab is read line by
    line, each line stripped, and the stripped lines of 11 characters or
    more are the keys, so that a file of 15-character tokens, one per
    line, gives back exactly its tokens. A pool whose first line has a
    comma or a tab is read as CSV: the key column is the first column of
    the header whose lowered name contains [key], and the keys are the
    stripped cells of that column that have 11 characters or more. *)
Theorem load_steam_keys_formats :
  (forall text,
     let lines := readlines (universal_newlines text) in
     contains "," (readline lines) = false ->
     contains (String TAB "") (readline lines) = false ->
     load_steam_keys (Some text)
     = Ok (List.filter Spec.long_enough (List.map strip lines))) /\
  (forall tokens,
     Forall Spec.token15 tokens ->
     (forall t, head tokens = Some t -> contains "," t = false) ->
     load_steam_keys (Some (Spec.one_per_line tokens)) = Ok tokens /\
     (length <$> load_steam_keys (Some (Spec.one_per_line tokens)))
     = Ok (length tokens)) /\
  (forall text header rows i,
     let lines := readlines (universal_newlines text) in
     contains "," (strip (readline lines))
     || contains (String TAB "") (strip (readline lines)) = true ->
     csv_reader lines = Ok (header :: rows) ->
     Spec.first_key_column header i ->
     load_steam_keys (Some text)
     = Ok (List.filter Spec.long_enough
             (omap (fun row : list string => strip <$> row !! i) rows))) /\
  (Spec.first_key_column ["Name"; "SteamKey"] 1 /\
   find_key_column 0 ["Name"; "SteamKey"] = Some 1%nat /\
   load_steam_keys (Some sample_csv_pool)
   = Ok ["AAAAA-BBBBB-CCCCC"; "DDDDD-EEEEE-FFFFF"]).
Proof.
  split; [|split; [|split]].
  - intros text lines Hc Ht. apply load_plain; apply contains_false_strip; assumption.
  - intros tokens Htok Hcomma.
    rewrite (load_one_per_line tokens Htok Hcomma). split; reflexivity.
  - exact load_csv.
  - split; [|split; vm_compute; reflexivity].
    split; [exists "SteamKey"; split; reflexivity|].
    intros j col Hj Hcol. destruct j as [|j]; [|lia].
    injection Hcol as <-. reflexivity.
Qed.

End KeyPool.

(** ** generate_campaign *)

Section Campaign.

Variable w : collaborators.
Variable steam_keys : list string.
Variable loaded : ledger.

Lemma for_each_invariant {A S : Type} (body : S -> A -> result S)
    (P : S -> Prop) :
  (forall s x s', P s -> body s x = Ok s' -> P s') ->
  forall l s s', P s -> for_each body l s = Ok s' -> P s'.
Proof.
  intros Hstep. induction l as [|x l IH]; intros s s' Hs H.
  - injection H as <-. exact Hs.
  - cbn [for_each] in H. destruct (body s x) as [s1|] eqn:Hb; [|discriminate].
    cbn [bind] in H. exact (IH s1 s' (Hstep _ _ _ Hs Hb) H).
Qed.

Let drawn_beyond := Spec.drawn_beyond steam_keys loaded.

Lemma new_entry_key (influencer : pydict) (k date : string) (draft : bool) :
  (if draft then <["draft_created" := VBool true]> (new_entry influencer k date)
   else new_entry influencer k date) !! "key" = Some (VStr k).
Proof.
  unfold new_entry. destruct draft;
    repeat (rewrite lookup_insert_ne by discriminate); apply lookup_insert_eq.
Qed.

Lemma assign_key_drawn_beyond (create_gmail_drafts : bool) (st : campaign)
    (influencer : pydict) (st' : campaign) :
  drawn_beyond st ->
  assign_key w steam_keys create_gmail_drafts st influencer = Ok st' ->
  drawn_beyond st'.
Proof.
  intros (Hle & Hold & Hnew) H. unfold assign_key in H.
  destruct (influencer !! "primary_email") as [[| | |email_addr]|]; try discriminate.
  case_bool_decide as Hin; [injection H as <-; repeat split; assumption|].
  destruct (steam_keys !! key_index st) as [steam_key|] eqn:Hk; [|discriminate].
  destruct (generate_email_content w influencer steam_key) as [content|];
    [|discriminate].
  cbn [bind] in H.
  assert (Hfresh : key_assignments st !! email_addr = None).
  { destruct (key_assignments st !! email_addr) eqn:E; [|reflexivity].
    exfalso. apply Hin. eauto. }
  assert (Hgoal : forall entry' drafts generated reads calls,
    entry' !! "key" = Some (VStr steam_key) ->
    drawn_beyond
      {| key_assignments := <[email_addr := entry']> (key_assignments st);
         key_index := S (key_index st);
         drafts_created := drafts;
         emails_generated := generated;
         clock_reads := reads;
         draft_calls := calls |}).
  { intros entry' drafts generated reads calls Hkey.
    unfold drawn_beyond, Spec.drawn_beyond. cbn [key_assignments key_index].
    split; [lia|]. split.
    - intros a e Ha. rewrite lookup_insert_ne; [exact (Hold a e Ha)|].
      intros <-. rewrite (Hold _ _ Ha) in Hfresh. discriminate.
    - intros a e Ha Hnone. destruct (decide (email_addr = a)) as [<-|Hne].
      + rewrite lookup_insert_eq in Ha. injection Ha as <-.
        exists (key_index st), steam_key. repeat split; [lia | lia | exact Hk | exact Hkey].
      + rewrite lookup_insert_ne in Ha by exact Hne.
        destruct (Hnew a e Ha Hnone) as (j & k & Hj & Hjk & Hek).
        exists j, k. repeat split; [lia | lia | exact Hjk | exact Hek]. }
  destruct create_gmail_drafts; injection H as <-; apply Hgoal.
  - apply (new_entry_key _ _ _ (create_draft w (draft_calls st))).
  - apply (new_entry_key _ _ _ false).
Qed.

Lemma campaign_loop_drawn_beyond (create_gmail_drafts : bool) (clock : nat)
    (batch : list pydict) (st : campaign) :
  campaign_loop w steam_keys loaded create_gmail_drafts clock batch = Ok st ->
  drawn_beyond st.
Proof.
  unfold campaign_loop.
  apply (for_each_invariant _ drawn_beyond).
  - intros s x s'. apply assign_key_drawn_beyond.
  - unfold drawn_beyond, Spec.drawn_beyond. cbn [key_assignments key_index].
    split; [lia|]. split; [auto|].
    intros a e Ha Hnone. rewrite Ha in Hnone. discriminate.
Qed.

End Campaign.

Section Resume.

(** A key drawn at an index beyond the first [n] of a pool without
    repetition is none of the first [n] keys. *)
Lemma beyond_not_among (K : list string) (n j : nat) (k : string) :
  NoDup K -> (n <= j)%nat -> K !! j = Some k -> k ∉ firstn n K.
Proof.
  intros Hnd Hj Hk Hin.
  apply list_elem_of_lookup in Hin as [i Hi].
  apply lookup_take_Some in Hi as [Hi Hlt].
  pose proof (NoDup_lookup K i j k Hnd Hi Hk). lia.
Qed.

Lemma drawn_beyond_not_reissued (K : list string) (L : ledger) (st : campaign) :
  NoDup K ->
  (forall a e, L !! a = Some e ->
     exists k, e !! "key" = Some (VStr k) /\ k ∈ firstn (size L) K) ->
  Spec.drawn_beyond K L st -> Spec.not_reissued K L st.
Proof.
  intros Hnd Hled (_ & Hold & Hnew). split; [exact Hold|].
  intros a e Ha Hnone.
  destruct (Hnew a e Ha Hnone) as (j & k & [Hj _] & Hjk & Hek).
  exists j, k.
  assert (Hout : k ∉ firstn (size L) K)
    by exact (beyond_not_among K (size L) j k Hnd Hj Hjk).
  repeat split; try assumption.
  intros a' e' Ha' Hsame.
  destruct (Hled a' e' Ha') as (k' & Hk' & Hin').
  rewrite Hk' in Hsame. injection Hsame as ->. contradiction.
Qed.

Lemma generate_campaign_loop (w : collaborators) (influencers : list pydict)
    (key_file : option string) (ledger_file : option ledger)
    (max_drafts : option Z) (create_gmail_drafts : bool) (clock : nat)
    (K : list string) (st : campaign) :
  load_steam_keys key_file = Ok K ->
  generate_campaign w influencers key_file ledger_file max_drafts
    create_gmail_drafts clock = Ok (Some st) ->
  exists create batch,
    campaign_loop w K (load_key_assignments ledger_file) create clock batch
    = Ok st.
Proof.
  intros HK Hrun. unfold generate_campaign in Hrun. rewrite HK in Hrun.
  destruct (for_each keep_valid influencers []) as [valid|]; [|discriminate].
  cbn [bind] in Hrun.
  destruct (length K =? 0)%nat; [discriminate|].
  match type of Hrun with
  | bind ?m _ = _ => destruct m as [st1|] eqn:Hloop; [|discriminate]
  end.
  cbn [bind] in Hrun. injection Hrun as <-. eauto.
Qed.

(** C1, with the condition that the counterexample forces. On a pool [K]
    without repetition, and from a ledger whose [N] entries hold keys
    among the first [N] of [K], the main loop after any number of
    recipients, and so the run that completes and saves its ledger, has
    kept the entries it loaded, and every entry it has added holds a key
    drawn from index [N] on, which is none of the first [N] keys and the
    key of no entry loaded. *)
Theorem campaign_never_reissues (w : collaborators)
    (key_file : option string) (ledger_file : option ledger)
    (K : list string) :
  let L := load_key_assignments ledger_file in
  load_steam_keys key_file = Ok K ->
  NoDup K ->
  (forall a e, L !! a = Some e ->
     exists k, e !! "key" = Some (VStr k) /\ k ∈ firstn (size L) K) ->
  (forall create_gmail_drafts clock batch st,
     campaign_loop w K L create_gmail_drafts clock batch = Ok st ->
     Spec.not_reissued K L st) /\
  (forall influencers max_drafts create_gmail_drafts clock st,
     generate_campaign w influencers key_file ledger_file max_drafts
       create_gmail_drafts clock = Ok (Some st) ->
     Spec.not_reissued K L st).
Proof.
  intros L HK Hnd Hled.
  assert (Hloop : forall create clock batch st,
            campaign_loop w K L create clock batch = Ok st ->
            Spec.not_reissued K L st).
  { intros create clock batch st H.
    apply (drawn_beyond_not_reissued K L st Hnd Hled).
    exact (campaign_loop_drawn_beyond w K L create clock batch st H). }
  split; [exact Hloop|].
  intros influencers max_drafts create clock st Hrun.
  destruct (generate_campaign_loop _ _ _ _ _ _ _ K st HK Hrun)
    as (create' & batch & H).
  exact (Hloop create' clock batch st H).
Qed.

(** The theorem on a run that resumes after one assignment. *)
Lemma campaign_never_reissues_witness :
  exists st,
    generate_campaign sample_world sample_rows (Some sample_pool)
      (Some sample_ledger) None false 0 = Ok (Some st) /\
    Spec.not_reissued [sample_key; second_key] sample_ledger st.
Proof.
  eexists. split; [vm_compute; reflexivity|].
  refine (proj2 (campaign_never_reissues sample_world
                   (Some sample_pool) (Some sample_ledger)
                   [sample_key; second_key] _ _ _)
            sample_rows None false 0%nat _ _).
  - vm_compute. reflexivity.
  - apply (bool_decide_unpack _). vm_compute. reflexivity.
  - intros a e Ha. cbn [load_key_assignments] in *. unfold sample_ledger in *.
    rewrite map_size_singleton.
    apply lookup_singleton_Some in Ha as [_ <-].
    exists sample_key.
    split; [apply (new_entry_key _ _ _ false) | apply list_elem_of_here].
  - vm_compute. reflexivity.
Defined.

(** C1 as stated fails on a pool that lists a key twice: the ledger
    holds one assignment, of the first key of the pool, and the run draws
    the key at index 1, which is that key again. *)
Lemma campaign_reissues_repeated_key :
  load_steam_keys (Some repeated_pool) = Ok [sample_key; sample_key] /\
  size sample_ledger = 1%nat /\
  (sample_ledger !! "ann@site.org" ≫= (.!! "key")) = Some (VStr sample_key) /\
  sample_ledger !! "bob@site.org" = None /\
  exists st,
    generate_campaign sample_world sample_rows (Some repeated_pool)
      (Some sample_ledger) None false 0 = Ok (Some st) /\
    (key_assignments st !! "bob@site.org" ≫= (.!! "key")) = Some (VStr sample_key).
Proof.
  split; [vm_compute; reflexivity|].
  split; [vm_compute; reflexivity|].
  split; [vm_compute; reflexivity|].
  split; [vm_compute; reflexivity|].
  eexists. split; vm_compute; reflexivity.
Qed.

End Resume.

(* ================================================================== *)
(** * Part III: further properties of the code *)
(* ================================================================== *)

Import Discovery FollowUp MoreSamples.

(** ** extract_business_terms *)

Section BusinessTerms.

Lemma found_terms_from (text : string) (kws found : list string) :
  fold_left
    (fun found_terms keyword =>
       if contains keyword text then found_terms ++ [keyword] else found_terms)
    kws found
  = found ++ List.filter (fun k => contains k text) kws.
Proof.
  revert found. induction kws as [|k kws IH]; intros found;
    cbn [fold_left List.filter].
  - rewrite app_nil_r. reflexivity.
  - rewrite IH. destruct (contains k text); [|reflexivity].
    rewrite <- app_assoc. reflexivity.
Qed.

Lemma extract_business_terms_filter (text : string) :
  extract_business_terms text
  = List.filter (fun k => contains k (lower text)) business_keywords.
Proof.
  unfold extract_business_terms. destruct text as [|c text]; [reflexivity|].
  cbn [nonempty negb]. apply found_terms_from.
Qed.

Lemma filter_sublist {X : Type} (f : X -> bool) (l : list X) :
  sublist (List.filter f l) l.
Proof.
  induction l as [|x l IH]; cbn [List.filter]; [constructor|].
  destruct (f x); [apply sublist_skip | apply sublist_cons]; exact IH.
Qed.

(** X1. The business terms found are exactly the phrases of the table
    that occur in the lowered text, each once and in the order of the
    table. *)
Theorem extract_business_terms_found (text : string) :
  (forall k, k ∈ extract_business_terms text <->
             k ∈ business_keywords /\ contains k (lower text) = true) /\
  sublist (extract_business_terms text) business_keywords /\
  NoDup (extract_business_terms text).
Proof.
  rewrite extract_business_terms_filter.
  assert (Hsub : sublist (List.filter (fun k => contains k (lower text))
                            business_keywords) business_keywords)
    by apply filter_sublist.
  split; [|split; [exact Hsub|]].
  - intros k. rewrite !list_elem_of_In, List.filter_In. reflexivity.
  - eapply sublist_NoDup; [|exact Hsub].
    apply (bool_decide_unpack _). vm_compute. reflexivity.
Qed.

End BusinessTerms.

(** ** analyze_sentiment: the indicators *)

Section Indicators.

Lemma collect_from (sign text : string) (kws acc : list string) :
  collect sign kws text acc
  = acc ++ List.map (String.append sign)
             (List.filter (fun k => contains k text) kws).
Proof.
  unfold collect. revert acc.
  induction kws as [|k kws IH]; intros acc; cbn [fold_left List.filter List.map].
  - rewrite app_nil_r. reflexivity.
  - rewrite IH. destruct (contains k text); [|reflexivity].
    cbn [List.map]. rewrite <- app_assoc. reflexivity.
Qed.

(** X2. The indicators are the positive keywords found, each with a
    plus sign, then the negative keywords found, each with a minus sign,
    in the order of the tables, cut after the fifth: there are never more
    than five, and a negative keyword is listed only when fewer than five
    positive ones were found. *)
Theorem analyze_sentiment_indicators (text : string) :
  let t := lower text in
  let found kws := List.filter (fun k => contains k t) kws in
  indicators (analyze_sentiment text)
  = firstn 5 (List.map (String.append "+") (found positive_keywords)
              ++ List.map (String.append "-") (found negative_keywords))
  /\ (length (indicators (analyze_sentiment text)) <= 5)%nat
  /\ (forall k, (5 <= length (found positive_keywords))%nat ->
                ("-" +:+ k) ∉ indicators (analyze_sentiment text)).
Proof.
  intros t found.
  assert (Heq : indicators (analyze_sentiment text)
    = firstn 5 (List.map (String.append "+") (found positive_keywords)
                ++ List.map (String.append "-") (found negative_keywords))).
  { destruct text as [|c text']; [reflexivity|].
    unfold analyze_sentiment. cbn [nonempty negb indicators].
    fold t. rewrite !collect_from. reflexivity. }
  split; [exact Heq|]. rewrite Heq. split.
  - rewrite length_take. lia.
  - intros k Hfive Hin.
    rewrite take_app_le in Hin by (rewrite length_map; exact Hfive).
    apply elem_of_take in Hin as (i & Hi & _).
    apply list_elem_of_lookup_2 in Hi.
    apply list_elem_of_In, in_map_iff in Hi as (p & Hp & _).
    destruct p; discriminate.
Qed.

(** The phrase "no indie" holds the word "indie". *)
Lemma contains_trans (a b t : string) :
  contains a b = true -> contains b t = true -> contains a t = true.
Proof.
  intros Hab Hbt.
  apply contains_occurs in Hab as (p1 & q1 & ->).
  apply contains_occurs in Hbt as (p2 & q2 & ->).
  apply occurs_contains. exists (p2 +:+ p1), (q1 +:+ q2).
  rewrite !append_assoc. reflexivity.
Qed.

(** X3. A text that says "no indie", in any casing, is counted as one
    that says "indie": the positive tally is at least one, and the first
    indicator is the positive one for "indie". *)
Theorem analyze_sentiment_no_indie (text : string) :
  contains "no indie" (lower text) = true ->
  1 <= Spec.matched positive_keywords (lower text) /\
  hd_error (indicators (analyze_sentiment text)) = Some "+indie".
Proof.
  intros Hno.
  assert (Hin : contains "indie" (lower text) = true).
  { apply (contains_trans "indie" "no indie"); [reflexivity | exact Hno]. }
  split.
  - unfold Spec.matched, positive_keywords. cbn [List.filter].
    rewrite Hin. cbn [length]. lia.
  - destruct text as [|c text'].
    { cbn in Hno. discriminate. }
    unfold analyze_sentiment. cbn [nonempty negb indicators].
    rewrite !collect_from. unfold positive_keywords at 1.
    cbn [List.filter]. rewrite Hin. reflexivity.
Qed.

Lemma analyze_sentiment_no_indie_witness :
  hd_error (indicators (analyze_sentiment "AAA only, No Indie games")) = Some "+indie".
Proof.
  exact (proj2 (analyze_sentiment_no_indie "AAA only, No Indie games" eq_refl)).
Defined.

End Indicators.

(** ** calculate_response_likelihood: range and categories *)

Section Range.

Ltac step_bounds :=
  repeat match goal with
  | |- context [if ?b then _ else _] => destruct b
  end; cbn [adjust fst]; lia.

Lemma email_step_bounds (d : influencer_data) (st : tally) :
  st.1 - 15 <= (email_step d st).1 <= st.1 + 20.
Proof. unfold email_step. step_bounds. Qed.

Lemma email_step_found (d : influencer_data) (st : tally) :
  0 < get (email_count d) 0 -> (email_step d st).1 = st.1 + 20.
Proof.
  intros H. unfold email_step.
  destruct (Z.gtb_spec (get (email_count d) 0) 0); [reflexivity | lia].
Qed.

Lemma business_step_bounds (d : influencer_data) (st : tally) :
  st.1 <= (business_step d st).1 <= st.1 + 15.
Proof. unfold business_step. step_bounds. Qed.

Lemma contact_step_bounds (d : influencer_data) (st : tally) :
  st.1 <= (contact_step d st).1 <= st.1 + 10.
Proof. unfold contact_step. step_bounds. Qed.

Lemma sentiment_step_bounds (d : influencer_data) (st : tally) :
  st.1 - 10 <= (sentiment_step d st).1 <= st.1 + 10.
Proof. unfold sentiment_step. step_bounds. Qed.

Lemma upload_step_bounds (d : influencer_data) (st : tally) :
  st.1 - 10 <= (upload_step d st).1 <= st.1 + 10.
Proof. unfold upload_step. step_bounds. Qed.

Lemma engagement_step_bounds (d : influencer_data) (st : tally) :
  st.1 - 5 <= (engagement_step d st).1 <= st.1 + 10.
Proof. unfold engagement_step. step_bounds. Qed.

Lemma followers_step_bounds (d : influencer_data) (st : tally) :
  st.1 - 10 <= (followers_step d st).1 <= st.1 + 10.
Proof. unfold followers_step. step_bounds. Qed.

(** The score before the final clamp. *)
Lemma raw_score_bounds (d : influencer_data) :
  let raw :=
    fst (followers_step d (engagement_step d (upload_step d (sentiment_step d
           (contact_step d (business_step d (email_step d (50, [])))))))) in
  0 <= raw <= 135 /\ (0 < get (email_count d) 0 -> 35 <= raw).
Proof.
  intros raw. unfold raw.
  pose proof (email_step_bounds d (50, [])) as H1.
  pose proof (email_step_found d (50, [])) as H1'.
  set (s1 := email_step d (50, [])) in *.
  pose proof (business_step_bounds d s1) as H2. set (s2 := business_step d s1) in *.
  pose proof (contact_step_bounds d s2) as H3. set (s3 := contact_step d s2) in *.
  pose proof (sentiment_step_bounds d s3) as H4. set (s4 := sentiment_step d s3) in *.
  pose proof (upload_step_bounds d s4) as H5. set (s5 := upload_step d s4) in *.
  pose proof (engagement_step_bounds d s5) as H6. set (s6 := engagement_step d s5) in *.
  pose proof (followers_step_bounds d s6) as H7.
  cbn [fst] in *. split; [lia|]. intros He. specialize (H1' He). lia.
Qed.

Lemma likelihood_of_bands (s : Z) :
  (likelihood_of s = "Very High" <-> 75 <= s) /\
  (likelihood_of s = "High" <-> 60 <= s < 75) /\
  (likelihood_of s = "Medium" <-> 40 <= s < 60) /\
  (likelihood_of s = "Low" <-> 25 <= s < 40) /\
  (likelihood_of s = "Very Low" <-> s < 25).
Proof.
  unfold likelihood_of.
  destruct (Z.geb_spec s 75); [repeat split; intros; try discriminate; lia|].
  destruct (Z.geb_spec s 60); [repeat split; intros; try discriminate; lia|].
  destruct (Z.geb_spec s 40); [repeat split; intros; try discriminate; lia|].
  destruct (Z.geb_spec s 25); repeat split; intros; try discriminate; lia.
Qed.

(** X4. The score returned lies between 0 and 100, the adjustments
    never take the running score below 0, so that only the upper clamp
    can act, and the category is Very High from 75, High from 60, Medium
    from 40, Low from 25 and Very Low below. *)
Theorem response_score_range (d : influencer_data) :
  let r := calculate_response_likelihood d in
  let raw :=
    fst (followers_step d (engagement_step d (upload_step d (sentiment_step d
           (contact_step d (business_step d (email_step d (50, [])))))))) in
  0 <= response_score r <= 100 /\
  response_score r = Z.min 100 raw /\
  (likelihood r = "Very High" <-> 75 <= response_score r) /\
  (likelihood r = "High" <-> 60 <= response_score r < 75) /\
  (likelihood r = "Medium" <-> 40 <= response_score r < 60) /\
  (likelihood r = "Low" <-> 25 <= response_score r < 40) /\
  (likelihood r = "Very Low" <-> response_score r < 25).
Proof.
  intros r raw. pose proof (raw_score_bounds d) as [Hraw _]. fold raw in Hraw.
  assert (Hs : response_score r = Z.max 0 (Z.min 100 raw)) by reflexivity.
  split; [lia|]. split; [lia|].
  exact (likelihood_of_bands (response_score r)).
Qed.

(** X5. A record with an extracted address scores at least 35, so its
    category is never Very Low. *)
Theorem response_score_with_email (d : influencer_data) :
  0 < get (email_count d) 0 ->
  35 <= response_score (calculate_response_likelihood d) /\
  likelihood (calculate_response_likelihood d) <> "Very Low".
Proof.
  intros He. pose proof (raw_score_bounds d) as [_ Hraw]. specialize (Hraw He).
  cbv zeta in Hraw.
  assert (Hs : 35 <= response_score (calculate_response_likelihood d)).
  { unfold calculate_response_likelihood. cbn [response_score]. lia. }
  split; [exact Hs|]. intros Hv.
  pose proof (likelihood_of_bands (response_score (calculate_response_likelihood d)))
    as (_ & _ & _ & _ & Hlow).
  apply Hlow in Hv. lia.
Qed.

End Range.

Lemma response_score_with_email_witness :
  35 <= response_score
          (calculate_response_likelihood
             {| email_count := Some 2; has_business_terms := Some "No";
                twitter := None; discord := None; instagram := None;
                indie_sentiment := Some "negative";
                upload_frequency_days := Some 45%Q;
                engagement_rate_numeric := Some (1 # 2)%Q;
                followers := Some 900000 |}).
Proof.
  refine (proj1 (response_score_with_email _ _)). reflexivity.
Defined.

(** ** is_gaming_channel: developers are turned away *)

Section Developers.

Lemma matched_found (kws : list string) (text k : string) :
  k ∈ kws -> contains k text = true -> 1 <= Spec.matched kws text.
Proof.
  intros Hin Hk. unfold Spec.matched.
  assert (Hf : In k (List.filter (fun k => contains k text) kws)).
  { apply List.filter_In. split; [apply list_elem_of_In, Hin | exact Hk]. }
  destruct (List.filter (fun k => contains k text) kws); [destruct Hf|].
  cbn [length]. lia.
Qed.

(** X6. One developer phrase anywhere in the description or in a title,
    in any casing, turns the channel away, however many creator phrases
    the text holds; and a channel is accepted only with at least two
    creator phrases and no developer phrase. *)
Theorem is_gaming_channel_developer_phrase (description : string)
    (video_titles : list string) :
  let text := lower (description +:+ " " +:+ join " " video_titles) in
  (forall k, k ∈ dev_keywords -> contains k text = true ->
             is_gaming_channel description video_titles = false) /\
  (is_gaming_channel description video_titles = true ->
   (forall k, k ∈ dev_keywords -> contains k text = false) /\
   2 <= Spec.matched creator_keywords text).
Proof.
  intros text.
  assert (Hdev : forall k, k ∈ dev_keywords -> contains k text = true ->
                           is_gaming_channel description video_titles = false).
  { intros k Hin Hk. unfold is_gaming_channel, channel_text. fold text.
    rewrite !sum_matches_matched.
    pose proof (matched_found dev_keywords text k Hin Hk).
    destruct (Z.gtb_spec (2 * Spec.matched dev_keywords text) 1); [reflexivity|lia]. }
  split; [exact Hdev|]. intros Hacc. split.
  - intros k Hin. destruct (contains k text) eqn:Hk; [|reflexivity].
    rewrite (Hdev k Hin Hk) in Hacc. discriminate.
  - unfold is_gaming_channel, channel_text in Hacc. fold text in Hacc.
    rewrite !sum_matches_matched in Hacc.
    destruct (2 * Spec.matched dev_keywords text >? 1); [discriminate|].
    destruct (1 * Spec.matched non_gaming text >? 1 * Spec.matched creator_keywords text);
      [discriminate|].
    apply Z.geb_le in Hacc. lia.
Qed.

End Developers.

(** ** extract_emails: the shape of an address *)

Section Shape.

Lemma take_run (cls : ascii -> bool) (s : string) (n : nat) :
  (n <= run cls s)%nat ->
  all_chars cls (take n s) = true /\ String.length (take n s) = n.
Proof.
  revert s. induction n as [|n IH]; intros s Hn.
  - destruct s; split; reflexivity.
  - destruct s as [|c s]; [cbn in Hn; lia|].
    cbn [run] in Hn. destruct (cls c) eqn:Hc; [|lia].
    destruct (IH s ltac:(lia)) as [Ha Hl].
    cbn [take all_chars String.length]. rewrite Hc, Ha, Hl. split; reflexivity.
Qed.

Lemma take_drop_add (i r : nat) (s : string) :
  take (i + r) s = take i s +:+ take r (drop i s).
Proof.
  revert s. induction i as [|i IH]; intros s.
  - destruct s; reflexivity.
  - destruct s as [|c s]; [destruct r; reflexivity|].
    cbn [Nat.add take drop]. rewrite append_cons, IH. reflexivity.
Qed.

Lemma take_drop_whole (n : nat) (s : string) : s = take n s +:+ drop n s.
Proof.
  revert s. induction n as [|n IH]; intros s; [destruct s; reflexivity|].
  destruct s as [|c s]; [reflexivity|].
  cbn [take drop]. rewrite append_cons, <- IH. reflexivity.
Qed.

Lemma greedy_sound (k : option ascii -> string -> option nat)
    (min n : nat) (prev : option ascii) (s : string) (m : nat) :
  greedy k min n prev s = Some m ->
  exists i r, (min <= i <= n)%nat /\
              k (before i prev s) (drop i s) = Some r /\ m = (i + r)%nat.
Proof.
  induction n as [|n IH]; cbn [greedy]; intros H.
  - destruct (Nat.ltb_spec 0 min); [discriminate|].
    destruct (k (before 0 prev s) (drop 0 s)) as [r|] eqn:Hk; [|discriminate].
    injection H as <-. exists 0%nat, r. repeat split; try lia. exact Hk.
  - destruct (Nat.ltb_spec (S n) min); [discriminate|].
    destruct (k (before (S n) prev s) (drop (S n) s)) as [r|] eqn:Hk.
    + injection H as <-. exists (S n), r. repeat split; try lia. exact Hk.
    + destruct (IH H) as (i & r & Hi & Hr & ->).
      exists i, r. repeat split; try lia. exact Hr.
Qed.

Lemma match_lit (c : ascii) (re : list atom) (prev : option ascii)
    (s : string) (n : nat) :
  match_here (Lit c :: re) prev s = Some n ->
  exists s' r, s = String c s' /\ match_here re (Some c) s' = Some r /\ n = S r.
Proof.
  cbn [match_here]. destruct s as [|d s']; [discriminate|].
  destruct (Ascii.eqb_spec c d) as [->|]; [|discriminate].
  destruct (match_here re (Some d) s') as [r|] eqn:Hr; [|discriminate].
  intros H. injection H as <-. exists s', r. repeat split. exact Hr.
Qed.

Lemma match_rep (cls : ascii -> bool) (min : nat) (re : list atom)
    (prev : option ascii) (s : string) :
  match_here (Rep cls min :: re) prev s
  = greedy (match_here re) min (run cls s) prev s.
Proof. reflexivity. Qed.

Lemma match_boundary (re : list atom) (prev : option ascii) (s : string) :
  match_here (Boundary :: re) prev s
  = if at_boundary prev s then match_here re prev s else None.
Proof. reflexivity. Qed.

Lemma match_email_shape (prev : option ascii) (s : string) (n : nat) :
  match_here email_pattern prev s = Some n -> Shapes.address_shape (take n s).
Proof.
  unfold email_pattern. rewrite match_boundary.
  destruct (at_boundary prev s); [|discriminate]. rewrite match_rep. intros H.
  apply greedy_sound in H as (i1 & r1 & Hi1 & H & ->).
  apply match_lit in H as (s2 & r2 & Hs2 & H & ->).
  rewrite match_rep in H.
  apply greedy_sound in H as (i2 & r3 & Hi2 & H & ->).
  apply match_lit in H as (s3 & r4 & Hs3 & H & ->).
  rewrite match_rep in H.
  apply greedy_sound in H as (i3 & r5 & Hi3 & H & ->).
  rewrite match_boundary in H.
  destruct (at_boundary _ _); [|discriminate]. injection H as <-.
  destruct (take_run local_class s i1 ltac:(lia)) as [Hl1 Hl2].
  destruct (take_run domain_class s2 i2 ltac:(lia)) as [Hd1 Hd2].
  destruct (take_run tld_class s3 i3 ltac:(lia)) as [Ht1 Ht2].
  exists (take i1 s), (take i2 s2), (take i3 s3).
  split; [|repeat split; try assumption; lia].
  rewrite take_drop_add, Hs2. cbn [take]. rewrite take_drop_add, Hs3.
  cbn [take]. rewrite Nat.add_0_r. reflexivity.
Qed.

(** Every text that the scan returns is a match somewhere in the text
    scanned. *)
Lemma findall_go_match (re : list atom) (s : string) :
  forall skip prev e,
    e ∈ findall_go re skip prev s ->
    exists prev' pre s' n,
      s = pre +:+ s' /\ match_here re prev' s' = Some n /\ e = take n s'.
Proof.
  induction s as [|c s IH]; intros skip prev e He.
  - cbn [findall_go] in He. destruct skip; [|inversion He].
    destruct (match_here re prev EmptyString) as [n|] eqn:Hm; [|inversion He].
    apply list_elem_of_singleton in He as ->.
    exists prev, "", "", n. repeat split; [exact Hm | destruct n; reflexivity].
  - cbn [findall_go] in He. destruct skip as [|k].
    + destruct (match_here re prev (String c s)) as [n|] eqn:Hm.
      * apply elem_of_cons in He as [->|He].
        -- exists prev, "", (String c s), n. repeat split. exact Hm.
        -- destruct (IH _ _ _ He) as (p' & pre & s' & m & -> & Hm' & ->).
           exists p', (String c pre), s', m. repeat split. exact Hm'.
      * destruct (IH _ _ _ He) as (p' & pre & s' & m & -> & Hm' & ->).
        exists p', (String c pre), s', m. repeat split. exact Hm'.
    + destruct (IH _ _ _ He) as (p' & pre & s' & m & -> & Hm' & ->).
      exists p', (String c pre), s', m. repeat split. exact Hm'.
Qed.

(** X7. Every address that [extract_emails] returns has the shape
    local@domain.tld, with a local part of one character or more from
    [A-Za-z0-9._%+-], a domain of one or more from [A-Za-z0-9.-] and a
    last part of two or more from [A-Z|a-z], and it stands in the text
    as the replacements of the markers left it. *)
Theorem extract_emails_shape (text e : string) :
  e ∈ extract_emails text ->
  Shapes.address_shape e /\ Spec.occurs e (deobfuscate text).
Proof.
  unfold extract_emails, list_set.
  destruct (negb (nonempty text)); [intros H; inversion H|].
  intros He. rewrite elem_of_remove_dups, list_elem_of_In in He.
  apply List.filter_In in He as [He _]. apply list_elem_of_In in He.
  apply findall_go_match in He as (prev & pre & s' & n & Hs & Hm & ->).
  split; [exact (match_email_shape _ _ _ Hm)|].
  exists pre, (drop n s'). rewrite Hs. f_equal. apply take_drop_whole.
Qed.

Lemma extract_emails_shape_witness :
  Shapes.address_shape "bob@site.org".
Proof.
  refine (proj1 (extract_emails_shape "mail bob at site dot org" "bob@site.org" _)).
  vm_compute. apply list_elem_of_here.
Defined.

End Shape.

(** ** extract_social_links *)

Section Links.

Lemma drop_append (a b : string) : drop (String.length a) (a +:+ b) = b.
Proof.
  induction a as [|c a IH]; [destruct b; reflexivity|].
  rewrite append_cons. cbn [String.length drop]. exact IH.
Qed.

Lemma take_append (a b : string) : take (String.length a) (a +:+ b) = a.
Proof.
  induction a as [|c a IH]; [destruct b; reflexivity|].
  rewrite append_cons. cbn [String.length take]. rewrite IH. reflexivity.
Qed.

Lemma length_append (a b : string) :
  String.length (a +:+ b) = (String.length a + String.length b)%nat.
Proof.
  induction a as [|c a IH]; [reflexivity|].
  rewrite append_cons. cbn [String.length]. rewrite IH. reflexivity.
Qed.

Lemma drop_add (i r : nat) (s : string) : drop (i + r) s = drop r (drop i s).
Proof.
  revert s. induction i as [|i IH]; intros s; [destruct s; reflexivity|].
  destruct s as [|c s]; [destruct r; reflexivity|].
  cbn [Nat.add drop]. apply IH.
Qed.

Lemma drop_past (a b : string) (n : nat) :
  drop (String.length a + n) (a +:+ b) = drop n b.
Proof. rewrite drop_add, drop_append. reflexivity. Qed.

Lemma take_past (a b : string) (n : nat) :
  take (String.length a + n) (a +:+ b) = a +:+ take n b.
Proof. rewrite take_drop_add, take_append, drop_append. reflexivity. Qed.

Lemma take_nonempty (n : nat) (s : string) :
  (1 <= n)%nat -> (n <= String.length s)%nat -> take n s <> EmptyString.
Proof.
  destruct n as [|n]; [lia|]. destruct s as [|c s]; [cbn; lia|]. discriminate.
Qed.

(** *** The characters outside ASCII *)

Lemma other_case_here_sound (table : list (ascii * string)) (s : string)
    (b : ascii) (v : string) :
  other_case_here table s = Some (b, v) ->
  (b, v) ∈ table /\ exists rest, s = v +:+ rest.
Proof.
  induction table as [|[b' v'] table IH]; [discriminate|].
  cbn [other_case_here]. destruct (String.prefix v' s) eqn:Hp.
  - intros H. injection H as <- <-.
    split; [apply list_elem_of_here | exact (prefix_split _ _ Hp)].
  - intros H. destruct (IH H) as [Hin Hs].
    split; [apply list_elem_of_further, Hin | exact Hs].
Qed.

(** No entry of the table starts another one, so a text that starts
    with an entry is read as that entry. *)
Lemma other_case_here_complete (b : ascii) (v rest : string) :
  (b, v) ∈ other_cases ->
  other_case_here other_cases (v +:+ rest) = Some (b, v).
Proof.
  unfold other_cases. intros H.
  repeat (apply elem_of_cons in H as [H|H];
          [injection H as -> ->; rewrite !append_cons, append_nil_l;
           cbn [other_case_here String.prefix ascii_dec ascii_rec ascii_rect
                sumbool_rec sumbool_rect bool_dec];
           rewrite ?prefix_nil; reflexivity|]).
  inversion H.
Qed.

(** An entry of the table starts with a byte outside ASCII and stands
    for a lower-case letter. *)
Lemma other_case_lead (b : ascii) (v : string) :
  (b, v) ∈ other_cases ->
  exists c v', v = String c v' /\ (code c <? 128)%nat = false /\
               lower_char c = c /\ lower_char b = b /\
               (code b <? 128)%nat = true.
Proof.
  unfold other_cases. intros H.
  repeat (apply elem_of_cons in H as [H|H];
          [injection H as -> ->; eexists _, _; repeat split; reflexivity|]).
  inversion H.
Qed.

Lemma lower_char_ascii (c : ascii) :
  (code (lower_char c) <? 128)%nat = (code c <? 128)%nat.
Proof. destruct c as [[] [] [] [] [] [] [] []]; reflexivity. Qed.

(** *** One character *)

Lemma reads_as_length (x : ascii) (v : string) :
  Shapes.reads_as x v -> (1 <= String.length v)%nat.
Proof.
  intros [(c & -> & _)|H]; [cbn; lia|].
  destruct (other_case_lead _ _ H) as (c & v' & -> & _). cbn [String.length]. lia.
Qed.

Lemma of_class_length (cls : ascii -> bool) (v : string) :
  Shapes.of_class cls v -> (1 <= String.length v)%nat.
Proof.
  intros [(c & -> & _)|(b & H & _)]; [cbn; lia|].
  destruct (other_case_lead _ _ H) as (c & v' & -> & _). cbn [String.length]. lia.
Qed.

Lemma letter_here_sound (x : ascii) (s : string) (n : nat) :
  letter_here x s = S n ->
  exists v rest, s = v +:+ rest /\ Shapes.reads_as x v /\ String.length v = S n.
Proof.
  unfold letter_here. destruct s as [|c s]; [discriminate|].
  destruct (Ascii.eqb_spec (lower_char x) (lower_char c)) as [Hc|_].
  - intros H. injection H as <-. exists (String c ""), s.
    split; [reflexivity|]. split; [|reflexivity]. left. eauto.
  - destruct (other_case_here other_cases (String c s)) as [[b v]|] eqn:Ho;
      [|discriminate].
    destruct (Ascii.eqb_spec b (lower_char x)) as [->|_]; [|discriminate].
    intros H. destruct (other_case_here_sound _ _ _ _ Ho) as [Hin [rest Hs]].
    exists v, rest. split; [exact Hs|]. split; [right; exact Hin | exact H].
Qed.

Lemma letter_here_complete (x : ascii) (v rest : string) :
  Shapes.reads_as x v -> letter_here x (v +:+ rest) = String.length v.
Proof.
  intros [(c & -> & Hc)|H].
  - rewrite append_cons, append_nil_l. cbn [letter_here String.length].
    rewrite Hc, Ascii.eqb_refl. reflexivity.
  - destruct (other_case_lead _ _ H) as (c & v' & Hv & Hout & Hlow & _ & Hin).
    unfold letter_here. rewrite (other_case_here_complete _ _ rest H).
    rewrite Ascii.eqb_refl. subst v. rewrite append_cons.
    destruct (Ascii.eqb_spec (lower_char x) (lower_char c)) as [He|_];
      [|reflexivity].
    rewrite He, Hlow in Hin. congruence.
Qed.

Lemma class_here_sound (cls : ascii -> bool) (s : string) (n : nat) :
  class_here cls s = S n ->
  exists v rest, s = v +:+ rest /\ Shapes.of_class cls v /\ String.length v = S n.
Proof.
  unfold class_here. destruct s as [|c s]; [discriminate|].
  destruct (cls c) eqn:Hc.
  - intros H. injection H as <-. exists (String c ""), s.
    split; [reflexivity|]. split; [|reflexivity]. left. eauto.
  - destruct (other_case_here other_cases (String c s)) as [[b v]|] eqn:Ho;
      [|discriminate].
    destruct (cls b) eqn:Hb; [|discriminate].
    intros H. destruct (other_case_here_sound _ _ _ _ Ho) as [Hin [rest Hs]].
    exists v, rest. split; [exact Hs|]. split; [right; eauto | exact H].
Qed.

Lemma class_here_complete (cls : ascii -> bool) (v rest : string) :
  Shapes.ascii_class cls -> Shapes.of_class cls v ->
  class_here cls (v +:+ rest) = String.length v.
Proof.
  intros Hascii [(c & -> & Hc)|(b & H & Hb)].
  - rewrite append_cons, append_nil_l. cbn [class_here String.length].
    rewrite Hc. reflexivity.
  - destruct (other_case_lead _ _ H) as (c & v' & Hv & Hout & _).
    unfold class_here. rewrite (other_case_here_complete _ _ rest H).
    rewrite Hb. subst v. rewrite append_cons.
    destruct (cls c) eqn:Hc; [|reflexivity].
    apply Hascii in Hc. congruence.
Qed.

Lemma class_here_le (cls : ascii -> bool) (s : string) :
  (class_here cls s <= String.length s)%nat.
Proof.
  destruct (class_here cls s) as [|n] eqn:H; [lia|].
  destruct (class_here_sound _ _ _ H) as (v & rest & -> & _ & Hl).
  rewrite length_append. lia.
Qed.

(** *** The literal *)

Lemma prefix_nocase_sound (lit : string) :
  forall s m, prefix_nocase lit s = Some m ->
    exists lit', s = lit' +:+ drop m s /\ Shapes.nocase lit lit' /\
                 String.length lit' = m.
Proof.
  induction lit as [|x lit IH]; intros s m H.
  - injection H as <-. exists "". split; [destruct s; reflexivity|].
    split; [constructor | reflexivity].
  - cbn [prefix_nocase] in H.
    destruct (letter_here x s) as [|k] eqn:Hx; [discriminate|].
    destruct (letter_here_sound _ _ _ Hx) as (v & rest & -> & Hv & Hl).
    rewrite <- Hl, drop_append in H.
    destruct (prefix_nocase lit rest) as [m'|] eqn:Hm; [|discriminate].
    injection H as <-. destruct (IH _ _ Hm) as (lit' & Hs & Hn & Hl').
    exists (v +:+ lit'). rewrite drop_past, append_assoc, <- Hs.
    split; [reflexivity|]. split; [constructor; assumption|].
    rewrite length_append, Hl'. reflexivity.
Qed.

Lemma prefix_nocase_complete (lit lit' : string) :
  Shapes.nocase lit lit' ->
  forall rest, prefix_nocase lit (lit' +:+ rest) = Some (String.length lit').
Proof.
  induction 1 as [|x lit v t Hv Ht IH]; intros rest; [reflexivity|].
  cbn [prefix_nocase]. rewrite append_assoc, letter_here_complete by exact Hv.
  pose proof (reads_as_length _ _ Hv) as Hl.
  destruct (String.length v) as [|k] eqn:Hk; [lia|].
  rewrite <- Hk, drop_append, IH, length_append. reflexivity.
Qed.

(** *** The run of the class *)

Lemma class_run_skip (cls : ascii -> bool) (k : nat) :
  forall s, (k <= String.length s)%nat ->
    class_run cls k s = (k + class_run cls 0 (drop k s))%nat.
Proof.
  induction k as [|k IH]; intros s Hk; [destruct s; reflexivity|].
  destruct s as [|c s]; [cbn in Hk; lia|].
  cbn [class_run drop Nat.add]. rewrite IH by (cbn in Hk; lia). reflexivity.
Qed.

Lemma class_run_unfold (cls : ascii -> bool) (s : string) :
  class_run cls 0 s
  = match class_here cls s with
    | O => 0%nat
    | S k => (S k + class_run cls 0 (drop (S k) s))%nat
    end.
Proof.
  destruct s as [|c s]; [reflexivity|].
  pose proof (class_here_le cls (String c s)) as Hle.
  cbn [class_run]. destruct (class_here cls (String c s)) as [|k]; [reflexivity|].
  rewrite class_run_skip by (cbn [String.length] in Hle; lia). reflexivity.
Qed.

Lemma class_run_sound (cls : ascii -> bool) (n : nat) :
  forall s, (String.length s <= n)%nat ->
    Shapes.class_text cls (take (class_run cls 0 s) s) /\
    class_here cls (drop (class_run cls 0 s) s) = 0%nat /\
    (class_run cls 0 s <= String.length s)%nat.
Proof.
  induction n as [|n IH]; intros s Hn.
  - destruct s; [|cbn in Hn; lia].
    split; [exact (Shapes.class_text_nil cls)|]. split; [reflexivity|].
    cbn. lia.
  - rewrite class_run_unfold.
    destruct (class_here cls s) as [|k] eqn:Hc.
    + split; [destruct s; exact (Shapes.class_text_nil cls)|].
      split; [destruct s; exact Hc | lia].
    + destruct (class_here_sound _ _ _ Hc) as (v & rest & -> & Hv & Hl).
      rewrite <- Hl, drop_append, take_past, drop_past.
      rewrite length_append in Hn |- *.
      destruct (IH rest ltac:(lia)) as (Ht & Hd & Hle).
      split; [constructor; assumption|]. split; [exact Hd | lia].
Qed.

Lemma class_run_complete (cls : ascii -> bool) (h post : string) :
  Shapes.ascii_class cls -> Shapes.class_text cls h ->
  class_here cls post = 0%nat ->
  class_run cls 0 (h +:+ post) = String.length h.
Proof.
  intros Hascii Hh Hp. induction Hh as [|v t Hv Ht IH].
  - rewrite append_nil_l, class_run_unfold, Hp. reflexivity.
  - rewrite append_assoc, class_run_unfold.
    rewrite class_here_complete by assumption.
    pose proof (of_class_length _ _ Hv) as Hl.
    destruct (String.length v) as [|k] eqn:Hk; [lia|].
    rewrite <- Hk, drop_append, IH, length_append. reflexivity.
Qed.

(** *** The match at one place *)

Lemma class_here_none (cls : ascii -> bool) (post : string) :
  Shapes.ascii_class cls ->
  class_here cls post = 0%nat <->
  (forall v t, Shapes.of_class cls v -> post <> v +:+ t).
Proof.
  intros Hascii. split.
  - intros H0 v t Hv ->. rewrite class_here_complete in H0 by assumption.
    pose proof (of_class_length _ _ Hv). lia.
  - intros H. destruct (class_here cls post) as [|k] eqn:Hc; [reflexivity|].
    destruct (class_here_sound _ _ _ Hc) as (v & rest & Hs & Hv & _).
    exfalso. exact (H v rest Hv Hs).
Qed.

(** What a match at the start of [s] is, in the words of [Shapes]. *)
Lemma link_here_at (p : link_pattern) (s : string) (n : nat) (h : string) :
  Shapes.ascii_class (group_class p) ->
  link_here p s = Some (n, h) -> Shapes.link_at p s h.
Proof.
  intros Hascii. unfold link_here.
  destruct (prefix_nocase (literal p) s) as [m|] eqn:Hp; [|discriminate].
  set (rest := drop m s).
  destruct (Nat.leb_spec 1 (class_run (group_class p) 0 rest)) as [Hn|];
    [|discriminate].
  intros H. injection H as <- <-.
  destruct (prefix_nocase_sound _ _ _ Hp) as (lit' & Hs & Hlit & _).
  fold rest in Hs.
  destruct (class_run_sound (group_class p) _ rest (le_n _)) as (Ht & Hd & Hle).
  exists lit', (drop (class_run (group_class p) 0 rest) rest).
  split; [rewrite <- take_drop_whole; exact Hs|].
  split; [exact Hlit|]. split.
  - apply take_nonempty; lia.
  - split; [exact Ht|]. apply class_here_none; assumption.
Qed.

Lemma link_at_here (p : link_pattern) (s h : string) :
  Shapes.ascii_class (group_class p) ->
  Shapes.link_at p s h -> exists n, link_here p s = Some (n, h).
Proof.
  intros Hascii (lit & post & -> & Hlit & Hne & Hh & Hpost).
  unfold link_here. rewrite (prefix_nocase_complete _ _ Hlit), drop_append.
  apply class_here_none in Hpost; [|exact Hascii].
  rewrite (class_run_complete _ _ _ Hascii Hh Hpost).
  destruct (Nat.leb_spec 1 (String.length h)) as [_|Hl];
    [|destruct h; [congruence | cbn in Hl; lia]].
  rewrite take_append. eauto.
Qed.

(** The first text that the scan returns is the match that starts
    leftmost. *)
Lemma link_findall_first (p : link_pattern) (s h : string) (l : list string) :
  Shapes.ascii_class (group_class p) ->
  link_findall_go p 0 s = h :: l ->
  exists pre s', s = pre +:+ s' /\ Shapes.link_at p s' h /\
    (forall pre1 pre2 g, pre = pre1 +:+ pre2 -> pre2 <> EmptyString ->
                         ~ Shapes.link_at p (pre2 +:+ s') g).
Proof.
  intros Hascii.
  induction s as [|c s IH]; [discriminate|]. cbn [link_findall_go].
  destruct (link_here p (String c s)) as [[n g]|] eqn:Hh.
  - intros H. injection H as -> _. exists "", (String c s).
    split; [reflexivity|]. split; [exact (link_here_at _ _ _ _ Hascii Hh)|].
    intros pre1 pre2 g' Hpre Hne. destruct pre1, pre2; try discriminate.
    congruence.
  - intros H. destruct (IH H) as (pre & s' & -> & Hat & Hleft).
    exists (String c pre), s'. split; [reflexivity|]. split; [exact Hat|].
    intros pre1 pre2 g Hpre Hne Hg. destruct pre1 as [|c1 pre1].
    + rewrite append_nil_l in Hpre. subst pre2. rewrite append_cons in Hg.
      destruct (link_at_here _ _ _ Hascii Hg) as [n Hn]. congruence.
    + rewrite append_cons in Hpre. injection Hpre as -> ->.
      exact (Hleft pre1 pre2 g eq_refl Hne Hg).
Qed.

Lemma link_findall_none (p : link_pattern) (s : string) :
  Shapes.ascii_class (group_class p) ->
  link_findall_go p 0 s = [] ->
  forall pre s' g, s = pre +:+ s' -> ~ Shapes.link_at p s' g.
Proof.
  intros Hascii.
  induction s as [|c s IH]; intros H pre s' g Hs Hg.
  - destruct pre, s'; try discriminate.
    destruct Hg as (lit & post & Hs' & _ & Hne & _).
    destruct lit, g; try discriminate. congruence.
  - cbn [link_findall_go] in H.
    destruct (link_here p (String c s)) as [[n g']|] eqn:Hh; [discriminate|].
    destruct pre as [|c1 pre].
    + rewrite append_nil_l in Hs. subst s'.
      destruct (link_at_here _ _ _ Hascii Hg) as [n Hn]. congruence.
    + rewrite append_cons in Hs. injection Hs as -> ->.
      exact (IH H pre s' g eq_refl Hg).
Qed.

(** The classes of the table hold ASCII characters only. *)
Lemma patterns_ascii (platform : string) (p : link_pattern) :
  (platform, p) ∈ patterns -> Shapes.ascii_class (group_class p).
Proof.
  unfold patterns. intros H.
  repeat (apply elem_of_cons in H as [H|H];
          [injection H as -> ->; intros c;
           destruct c as [[] [] [] [] [] [] [] []]; vm_compute;
           intros Hc; first [reflexivity | discriminate]|]).
  inversion H.
Qed.

(** The loop over the table of patterns. *)
Lemma social_links_fold (text : string) (table : list (string * link_pattern))
    (acc : gmap string string) (k : string) :
  NoDup table.*1 ->
  fold_left
    (fun social_links '(platform, pattern) =>
       match link_findall pattern text with
       | first :: _ => <[platform := first]> social_links
       | [] => social_links
       end)
    table acc !! k
  = match (list_to_map table : gmap string link_pattern) !! k with
    | Some pattern =>
        match link_findall pattern text with
        | first :: _ => Some first
        | [] => acc !! k
        end
    | None => acc !! k
    end.
Proof.
  revert acc. induction table as [|[pl pat] table IH]; intros acc Hnd;
    [reflexivity|].
  cbn [fmap list_fmap fst] in Hnd. apply NoDup_cons in Hnd as [Hnotin Hnd].
  cbn [fold_left list_to_map foldr uncurry fst snd]. rewrite (IH _ Hnd).
  cbn [fst snd].
  destruct (decide (pl = k)) as [->|Hne].
  - rewrite lookup_insert_eq.
    assert (Hk : (list_to_map table : gmap string link_pattern) !! k = None)
      by (apply not_elem_of_list_to_map_1; exact Hnotin).
    rewrite Hk. destruct (link_findall pat text); [reflexivity|].
    apply lookup_insert_eq.
  - rewrite (lookup_insert_ne _ pl k) by exact Hne.
    destruct (list_to_map table !! k) as [pattern|].
    + destruct (link_findall pattern text); [|reflexivity].
      destruct (link_findall pat text); [reflexivity|].
      apply lookup_insert_ne, Hne.
    + destruct (link_findall pat text); [reflexivity|].
      apply lookup_insert_ne, Hne.
Qed.

(** A long s in the literal and a Kelvin sign in the handle are read
    as [re.IGNORECASE] reads them. *)
Example extract_social_links_other_cases :
  extract_social_links "inſtagram.com/bob twitter.com/bobK9" !! "instagram"
  = Some "bob" /\
  extract_social_links "inſtagram.com/bob twitter.com/bobK9" !! "twitter"
  = Some "bobK9" /\
  extract_social_links "TWİTTER.COM/ıİſ-x" !! "twitter" = Some "ıİſ".
Proof. vm_compute. repeat split; reflexivity. Qed.

Lemma patterns_keys : NoDup patterns.*1.
Proof. apply (bool_decide_unpack _). vm_compute. reflexivity. Qed.

Lemma extract_social_links_lookup (text k : string) :
  extract_social_links text !! k
  = match (list_to_map patterns : gmap string link_pattern) !! k with
    | Some pattern => hd_error (link_findall pattern text)
    | None => None
    end.
Proof.
  unfold extract_social_links. destruct text as [|c text].
  - cbn [nonempty negb]. rewrite lookup_empty.
    destruct (list_to_map patterns !! k); reflexivity.
  - cbn [nonempty negb]. rewrite (social_links_fold _ _ _ _ patterns_keys).
    rewrite lookup_empty.
    destruct (list_to_map patterns !! k) as [pattern|]; [|reflexivity].
    destruct (link_findall pattern (String c text)); reflexivity.
Qed.

(** X8. A handle that [extract_social_links] files under a platform
    comes from the leftmost place of the text where the literal of that
    platform's pattern stands, in any casing, before a character of the
    pattern's class: the handle is the whole run of such characters after
    the literal, one character at least. Casing and class are those of
    [re.IGNORECASE] on [str]: the four characters outside ASCII that it
    takes for [i], [s] and [k] count, in the literal and in the handle. *)
Theorem extract_social_links_handle (text platform h : string) :
  extract_social_links text !! platform = Some h ->
  exists p pre s',
    (platform, p) ∈ patterns /\
    text = pre +:+ s' /\ Shapes.link_at p s' h /\
    (forall pre1 pre2 g, pre = pre1 +:+ pre2 -> pre2 <> EmptyString ->
                         ~ Shapes.link_at p (pre2 +:+ s') g).
Proof.
  rewrite extract_social_links_lookup.
  destruct (list_to_map patterns !! platform) as [p|] eqn:Hp; [|discriminate].
  apply elem_of_list_to_map_2 in Hp.
  unfold link_findall.
  destruct (link_findall_go p 0 text) as [|g l] eqn:Hf; [discriminate|].
  intros H. injection H as ->.
  destruct (link_findall_first _ _ _ _ (patterns_ascii _ _ Hp) Hf)
    as (pre & s' & Hs & Hat & Hleft).
  exists p, pre, s'. repeat split; assumption.
Qed.

Lemma extract_social_links_handle_witness :
  exists p pre s',
    ("twitter", p) ∈ patterns /\
    "inſtagram.com/bob Twitter.com/bobK9!" = pre +:+ s' /\
    Shapes.link_at p s' "bobK9".
Proof.
  destruct (extract_social_links_handle "inſtagram.com/bob Twitter.com/bobK9!"
              "twitter" "bobK9")
    as (p & pre & s' & Hp & Hs & Hat & _).
  - vm_compute. reflexivity.
  - exists p, pre, s'. repeat split; assumption.
Defined.

(** X9. A platform has an entry exactly when the literal of its pattern
    stands somewhere in the text, in any casing, before a character of
    the class, casing and class read as for X8; a text without such a
    place, the empty text among them, gives the platform no entry, and
    no key outside the four platforms is ever set. *)
Theorem extract_social_links_present (text platform : string) :
  (forall p, (platform, p) ∈ patterns ->
     (is_Some (extract_social_links text !! platform) <->
      exists pre s' h, text = pre +:+ s' /\ Shapes.link_at p s' h)) /\
  (platform ∉ ["twitter"; "instagram"; "discord"; "tiktok"] ->
   extract_social_links text !! platform = None).
Proof.
  split.
  - intros p Hp. rewrite extract_social_links_lookup.
    rewrite (elem_of_list_to_map_1 _ _ _ patterns_keys Hp). unfold link_findall.
    destruct (link_findall_go p 0 text) as [|g l] eqn:Hf; cbn [hd_error].
    + split; [intros [x Hx]; discriminate|].
      intros (pre & s' & h & Hs & Hat).
      exfalso.
      exact (link_findall_none _ _ (patterns_ascii _ _ Hp) Hf pre s' h Hs Hat).
    + split; [|eauto]. intros _.
      destruct (link_findall_first _ _ _ _ (patterns_ascii _ _ Hp) Hf)
        as (pre & s' & Hs & Hat & _).
      eauto.
  - intros Hout. rewrite extract_social_links_lookup.
    destruct (list_to_map patterns !! platform) as [p|] eqn:Hp; [|reflexivity].
    apply elem_of_list_to_map_2 in Hp. exfalso. apply Hout.
    unfold patterns in Hp.
    repeat (apply elem_of_cons in Hp as [Hp|Hp];
            [injection Hp as -> _; repeat constructor|]).
    inversion Hp.
Qed.

End Links.

(** ** load_steam_keys: what a loaded key looks like *)

Section LoadedKeys.

Lemma rstrip_idem (s : string) : rstrip (rstrip s) = rstrip s.
Proof.
  induction s as [|c s IH]; [reflexivity|].
  cbn [rstrip]. destruct (rstrip s) as [|d r] eqn:Hr.
  - destruct (is_space c) eqn:Hc; [reflexivity|].
    cbn [rstrip]. rewrite Hc. reflexivity.
  - cbn [rstrip]. cbn [rstrip] in IH. rewrite IH. reflexivity.
Qed.

Lemma lstrip_head (s : string) :
  lstrip s = EmptyString \/
  exists c r, lstrip s = String c r /\ is_space c = false.
Proof.
  induction s as [|c s IH]; [left; reflexivity|].
  cbn [lstrip]. destruct (is_space c) eqn:Hc; [exact IH|].
  right. exists c, s. split; [reflexivity | exact Hc].
Qed.

Lemma rstrip_head (c : ascii) (r : string) :
  is_space c = false -> exists r', rstrip (String c r) = String c r'.
Proof.
  intros Hc. cbn [rstrip]. rewrite Hc. destruct (rstrip r); eauto.
Qed.

(** Stripping a stripped text changes nothing. *)
Lemma strip_idem (s : string) : strip (strip s) = strip s.
Proof.
  unfold strip. destruct (lstrip_head s) as [->|(c & r & -> & Hc)]; [reflexivity|].
  destruct (rstrip_head c r Hc) as [r' Hr]. rewrite Hr.
  cbn [lstrip]. rewrite Hc, <- Hr. apply rstrip_idem.
Qed.

Lemma keys_of_lines_elem (lines : list string) (k : string) :
  k ∈ keys_of_lines lines ->
  Spec.long_enough k = true /\ exists line, line ∈ lines /\ k = strip line.
Proof.
  rewrite keys_of_lines_filter, list_elem_of_In, List.filter_In, in_map_iff.
  intros [(line & <- & Hin) Hlong]. split; [exact Hlong|].
  exists line. split; [apply list_elem_of_In, Hin | reflexivity].
Qed.

Lemma keys_of_rows_elem (i : nat) (rows : list (list string)) (k : string) :
  k ∈ keys_of_rows i rows ->
  Spec.long_enough k = true /\
  exists row cell, row ∈ rows /\ row !! i = Some cell /\ k = strip cell.
Proof.
  rewrite keys_of_rows_filter, list_elem_of_In, List.filter_In.
  intros [Hin Hlong]. split; [exact Hlong|].
  apply list_elem_of_In, list_elem_of_omap in Hin as (row & Hrow & Hk).
  destruct (row !! i) as [cell|] eqn:Hc; [|discriminate].
  injection Hk as <-. eauto.
Qed.

Lemma load_steam_keys_cases (file : option string) (K : list string) :
  load_steam_keys file = Ok K ->
  K = [] \/
  (exists lines, K = keys_of_lines lines) \/
  (exists i rows, K = keys_of_rows i rows).
Proof.
  unfold load_steam_keys. destruct file as [text|]; [|intros H; injection H as <-; auto].
  destruct (_ || _).
  - destruct (csv_reader _) as [rows|]; [|discriminate]. cbn [bind].
    destruct (match head rows with Some (col :: cols) => _ | _ => None end);
      intros H; injection H as <-; right; right; eauto.
  - intros H. injection H as <-. right. left. eauto.
Qed.

(** X10. Whatever the file, a key that [load_steam_keys] returns has 11
    characters or more and no white space at either end; a file that is
    missing gives no key at all. *)
Theorem load_steam_keys_wellformed (file : option string) (K : list string)
    (k : string) :
  load_steam_keys file = Ok K -> k ∈ K ->
  (11 <= String.length k)%nat /\ strip k = k /\ file <> None.
Proof.
  intros Hload Hk.
  assert (Hfile : file <> None).
  { intros ->. injection Hload as <-. inversion Hk. }
  assert (Hshape : Spec.long_enough k = true /\ exists x, k = strip x).
  { destruct (load_steam_keys_cases _ _ Hload) as [->|[[lines ->]|(i & rows & ->)]].
    - inversion Hk.
    - apply keys_of_lines_elem in Hk as [Hl (line & _ & ->)]. eauto.
    - apply keys_of_rows_elem in Hk as [Hl (row & cell & _ & _ & ->)]. eauto. }
  destruct Hshape as [Hlong [x ->]]. split; [|split; [apply strip_idem | exact Hfile]].
  unfold Spec.long_enough in Hlong. apply Nat.leb_le in Hlong. exact Hlong.
Qed.

Lemma load_steam_keys_wellformed_witness :
  (11 <= String.length "DDDDD-EEEEE-FFFFF")%nat.
Proof.
  refine (proj1 (load_steam_keys_wellformed (Some sample_csv_pool)
                   ["AAAAA-BBBBB-CCCCC"; "DDDDD-EEEEE-FFFFF"]
                   "DDDDD-EEEEE-FFFFF" _ _)).
  - vm_compute. reflexivity.
  - apply list_elem_of_further, list_elem_of_here.
Defined.

(** *** A CSV pool whose header names no key column *)

Lemma find_key_column_none (header : list string) (n : nat) :
  (forall col, col ∈ header -> contains "key" (lower col) = false) ->
  find_key_column n header = None.
Proof.
  revert n. induction header as [|col header IH]; intros n H; [reflexivity|].
  cbn [find_key_column]. rewrite (H col) by apply list_elem_of_here.
  apply IH. intros c Hc. apply H. apply list_elem_of_further, Hc.
Qed.

(** X11. When no column of the header has [key] in its lowered name, the
    reader starts over from the top of the file with column 0: the first
    cell of every record, the header record included, is taken as a key
    when it has 11 characters or more once stripped. *)
Theorem load_steam_keys_headerless (text : string) (rows : list (list string)) :
  let lines := readlines (universal_newlines text) in
  contains "," (strip (readline lines))
  || contains (String TAB "") (strip (readline lines)) = true ->
  csv_reader lines = Ok rows ->
  (forall header col, head rows = Some header -> col ∈ header ->
                      contains "key" (lower col) = false) ->
  load_steam_keys (Some text)
  = Ok (List.filter Spec.long_enough
          (omap (fun row : list string => strip <$> row !! 0%nat) rows)).
Proof.
  intros lines Hcsv Hrows Hno. unfold load_steam_keys. fold lines.
  rewrite Hcsv, Hrows. cbn [bind].
  assert (Hnone : match head rows with
                  | Some (col :: cols) => find_key_column 0 (col :: cols)
                  | _ => None
                  end = None).
  { destruct (head rows) as [[|col cols]|] eqn:Hh; try reflexivity.
    apply find_key_column_none. intros c Hc. exact (Hno _ c eq_refl Hc). }
  rewrite Hnone, keys_of_rows_filter. reflexivity.
Qed.

Lemma load_steam_keys_headerless_witness :
  load_steam_keys (Some headerless_pool)
  = Ok ["Activation Code"; "AAAAA-BBBBB-CCCCC"].
Proof.
  refine (load_steam_keys_headerless headerless_pool
            [["Activation Code"; "Name"]; ["AAAAA-BBBBB-CCCCC"; "Bob"]] _ _ _).
  - vm_compute. reflexivity.
  - vm_compute. reflexivity.
  - intros header col Hh Hc. injection Hh as <-.
    repeat (apply elem_of_cons in Hc as [->|Hc]; [reflexivity|]).
    inversion Hc.
Defined.

End LoadedKeys.

(** ** generate_campaign: how many keys a run hands out *)

Section Budget.

Variable w : collaborators.
Variable steam_keys : list string.

(** One pass of the loop body adds one entry at most, and only by
    drawing the key at the running index. *)
Lemma assign_key_count (create : bool) (st st' : campaign) (inf : pydict) :
  assign_key w steam_keys create st inf = Ok st' ->
  (st' = st) \/
  (key_index st < length steam_keys)%nat /\
  key_index st' = S (key_index st) /\
  size (key_assignments st') = S (size (key_assignments st)).
Proof.
  unfold assign_key. intros H.
  destruct (inf !! "primary_email") as [[| | |email_addr]|]; try discriminate.
  case_bool_decide as Hin; [injection H as <-; left; reflexivity|].
  destruct (steam_keys !! key_index st) as [steam_key|] eqn:Hk; [|discriminate].
  destruct (generate_email_content w inf steam_key) as [content|]; [|discriminate].
  cbn [bind] in H. right.
  assert (Hfresh : key_assignments st !! email_addr = None).
  { destruct (key_assignments st !! email_addr) eqn:E; [|reflexivity].
    exfalso. apply Hin. eauto. }
  split; [exact (lookup_lt_Some _ _ _ Hk)|].
  destruct create; injection H as <-; cbn [key_index key_assignments];
    (split; [reflexivity|]); apply map_size_insert_None, Hfresh.
Qed.

Lemma for_each_assign_count (create : bool) (batch : list pydict) :
  forall st st',
    for_each (assign_key w steam_keys create) batch st = Ok st' ->
    key_index st = size (key_assignments st) ->
    key_index st' = size (key_assignments st') /\
    (size (key_assignments st) <= size (key_assignments st')
       <= size (key_assignments st) + length batch)%nat /\
    (size (key_assignments st') = size (key_assignments st) \/
     size (key_assignments st') <= length steam_keys)%nat.
Proof.
  induction batch as [|inf batch IH]; intros st st' H Hidx.
  - injection H as <-. cbn [length]. repeat split; lia.
  - cbn [for_each] in H.
    destruct (assign_key w steam_keys create st inf) as [s1|] eqn:Hs; [|discriminate].
    cbn [bind] in H.
    destruct (assign_key_count _ _ _ _ Hs) as [->|(Hlt & Hi & Hsz)].
    + destruct (IH _ _ H Hidx) as (? & ? & ?). cbn [length].
      repeat split; lia.
    + assert (Hidx1 : key_index s1 = size (key_assignments s1)) by lia.
      destruct (IH _ _ H Hidx1) as (? & ? & Hor). cbn [length].
      repeat split; lia.
Qed.

End Budget.

Section BudgetRun.

Lemma length_slice_to {X : Type} (k : Z) (l : list X) :
  (length (slice_to k l) <= length l)%nat /\
  (0 <= k -> (length (slice_to k l) <= Z.to_nat k)%nat).
Proof.
  unfold slice_to. destruct (Z.leb_spec 0 k); rewrite length_take; lia.
Qed.

(** X12. A run that completes has added no more entries than the pool
    could give and than [max_drafts] allows: the ledger it saves is at
    least the one it loaded, it holds no more entries than the larger of
    the loaded ledger and the pool, and, under a positive [max_drafts],
    at most [max_drafts] more than the loaded one. The running index is
    the number of entries throughout. *)
Theorem campaign_stays_within_pool (w : collaborators)
    (influencers : list pydict) (key_file : option string)
    (ledger_file : option ledger) (max_drafts : option Z)
    (create_gmail_drafts : bool) (clock : nat) (K : list string)
    (st : campaign) :
  let L := load_key_assignments ledger_file in
  load_steam_keys key_file = Ok K ->
  generate_campaign w influencers key_file ledger_file max_drafts
    create_gmail_drafts clock = Ok (Some st) ->
  (size L <= size (key_assignments st))%nat /\
  (size (key_assignments st) <= Nat.max (size L) (length K))%nat /\
  key_index st = size (key_assignments st) /\
  (forall m, max_drafts = Some m -> 0 < m ->
             (size (key_assignments st) <= size L + Z.to_nat m)%nat).
Proof.
  intros L HK Hrun. unfold generate_campaign in Hrun. rewrite HK in Hrun.
  destruct (for_each keep_valid influencers []) as [valid|]; [|discriminate].
  cbn [bind] in Hrun.
  destruct (length K =? 0)%nat; [discriminate|]. fold L in Hrun.
  match type of Hrun with
  | bind (campaign_loop _ _ _ _ _ ?b) _ = _ => set (batch := b) in *
  end.
  destruct (campaign_loop _ _ _ _ _ batch) as [st1|] eqn:Hloop; [|discriminate].
  cbn [bind] in Hrun. injection Hrun as <-.
  unfold campaign_loop in Hloop.
  apply for_each_assign_count in Hloop; [|reflexivity].
  cbn [key_assignments key_index] in Hloop. destruct Hloop as (Hidx & Hsz & Hor).
  split; [lia|]. split; [lia|]. split; [exact Hidx|].
  intros m -> Hm.
  assert (Hb : (length batch <= Z.to_nat m)%nat); [|lia].
  unfold batch, given. destruct (Z.eqb_spec m 0); [lia|].
  set (valid' := if m <? Z.of_nat (length valid) then slice_to m valid else valid).
  assert (Hv : (length valid' <= Z.to_nat m)%nat).
  { unfold valid'. destruct (Z.ltb_spec m (Z.of_nat (length valid))).
    - apply length_slice_to. lia.
    - lia. }
  match goal with
  | |- (length (slice_to ?k valid') <= _)%nat =>
      pose proof (proj1 (length_slice_to k valid'))
  end. lia.
Qed.

Lemma campaign_stays_within_pool_witness :
  exists st,
    generate_campaign sample_world sample_rows (Some sample_pool)
      (Some sample_ledger) (Some 5) false 0 = Ok (Some st) /\
    (size (key_assignments st) <= Nat.max (size sample_ledger) 2)%nat.
Proof.
  eexists. split; [vm_compute; reflexivity|].
  refine (proj1 (proj2 (campaign_stays_within_pool sample_world sample_rows
            (Some sample_pool) (Some sample_ledger) (Some 5) false 0%nat
            [sample_key; second_key] _ _ _))).
  - vm_compute. reflexivity.
  - vm_compute. reflexivity.
Defined.

End BudgetRun.

(** ** generate_campaign: one key, one recipient *)

Section OneToOne.

Variable w : collaborators.
Variable steam_keys : list string.
Variable loaded : ledger.

Let indexed := Shapes.indexed steam_keys loaded.

Lemma assign_key_indexed (create : bool) (st st' : campaign) (inf : pydict) :
  (exists idx, indexed st idx) ->
  assign_key w steam_keys create st inf = Ok st' ->
  exists idx', indexed st' idx'.
Proof.
  intros [idx (Hle & Hold & Hnew & Hidx & Hinj)] H. unfold assign_key in H.
  destruct (inf !! "primary_email") as [[| | |email_addr]|]; try discriminate.
  case_bool_decide as Hin;
    [injection H as <-; exists idx;
     exact (conj Hle (conj Hold (conj Hnew (conj Hidx Hinj))))|].
  destruct (steam_keys !! key_index st) as [steam_key|] eqn:Hk; [|discriminate].
  destruct (generate_email_content w inf steam_key) as [content|]; [|discriminate].
  cbn [bind] in H.
  assert (Hfresh : key_assignments st !! email_addr = None).
  { destruct (key_assignments st !! email_addr) eqn:E; [|reflexivity].
    exfalso. apply Hin. eauto. }
  assert (Hgoal : forall entry' drafts generated reads calls,
    entry' !! "key" = Some (VStr steam_key) ->
    indexed
      {| key_assignments := <[email_addr := entry']> (key_assignments st);
         key_index := S (key_index st);
         drafts_created := drafts;
         emails_generated := generated;
         clock_reads := reads;
         draft_calls := calls |}
      (<[email_addr := key_index st]> idx)).
  { intros entry' drafts generated reads calls Hkey.
    unfold indexed, Shapes.indexed. cbn [key_assignments key_index].
    split; [lia|]. split; [|split; [|split]].
    - intros a e Ha. rewrite lookup_insert_ne; [exact (Hold a e Ha)|].
      intros <-. rewrite (Hold _ _ Ha) in Hfresh. discriminate.
    - intros a e Ha Hnone. destruct (decide (email_addr = a)) as [<-|Hne].
      + rewrite lookup_insert_eq. eauto.
      + rewrite lookup_insert_ne in Ha by exact Hne.
        rewrite lookup_insert_ne by exact Hne. exact (Hnew a e Ha Hnone).
    - intros a j Ha. destruct (decide (email_addr = a)) as [<-|Hne].
      + rewrite lookup_insert_eq in Ha. injection Ha as <-.
        split; [lia|]. exists entry', steam_key.
        rewrite lookup_insert_eq. repeat split; assumption.
      + rewrite lookup_insert_ne in Ha by exact Hne.
        destruct (Hidx a j Ha) as (Hj & e & k & He & Hjk & Hek).
        split; [lia|]. exists e, k.
        rewrite lookup_insert_ne by exact Hne. repeat split; assumption.
    - intros a a' j Ha Ha'.
      destruct (decide (email_addr = a)) as [<-|Hne];
        destruct (decide (email_addr = a')) as [<-|Hne']; [reflexivity| | |].
      + rewrite lookup_insert_eq in Ha. injection Ha as <-.
        rewrite lookup_insert_ne in Ha' by exact Hne'.
        destruct (Hidx _ _ Ha') as [? _]. lia.
      + rewrite lookup_insert_eq in Ha'. injection Ha' as <-.
        rewrite lookup_insert_ne in Ha by exact Hne.
        destruct (Hidx _ _ Ha) as [? _]. lia.
      + rewrite lookup_insert_ne in Ha by exact Hne.
        rewrite lookup_insert_ne in Ha' by exact Hne'.
        exact (Hinj a a' j Ha Ha'). }
  destruct create; injection H as <-; eexists; apply Hgoal.
  - apply (new_entry_key _ _ _ (create_draft w (draft_calls st))).
  - apply (new_entry_key _ _ _ false).
Qed.

Lemma campaign_loop_indexed (create : bool) (clock : nat)
    (batch : list pydict) (st : campaign) :
  campaign_loop w steam_keys loaded create clock batch = Ok st ->
  exists idx, indexed st idx.
Proof.
  unfold campaign_loop.
  apply (for_each_invariant _ (fun st => exists idx, indexed st idx)).
  - intros s x s'. apply assign_key_indexed.
  - exists ∅. unfold indexed, Shapes.indexed. cbn [key_assignments key_index].
    split; [lia|]. split; [auto|]. split; [|split].
    + intros a e Ha Hnone. rewrite Ha in Hnone. discriminate.
    + intros a j Ha. rewrite lookup_empty in Ha. discriminate.
    + intros a a' j Ha. rewrite lookup_empty in Ha. discriminate.
Qed.

End OneToOne.

Section OneToOneRun.

(** X13. On a pool without repetition, and from a ledger whose entries
    hold different keys, all among the first keys of the pool as many as
    the ledger has entries, the ledger that a completed run saves gives no
    key to two addresses. *)
Theorem campaign_one_key_per_recipient (w : collaborators)
    (influencers : list pydict) (key_file : option string)
    (ledger_file : option ledger) (max_drafts : option Z)
    (create_gmail_drafts : bool) (clock : nat) (K : list string)
    (st : campaign) :
  let L := load_key_assignments ledger_file in
  load_steam_keys key_file = Ok K ->
  NoDup K ->
  (forall a e, L !! a = Some e ->
     exists k, e !! "key" = Some (VStr k) /\ k ∈ firstn (size L) K) ->
  Shapes.one_to_one L ->
  generate_campaign w influencers key_file ledger_file max_drafts
    create_gmail_drafts clock = Ok (Some st) ->
  Shapes.one_to_one (key_assignments st).
Proof.
  intros L HK Hnd Hled Hone Hrun.
  destruct (generate_campaign_loop _ _ _ _ _ _ _ K st HK Hrun)
    as (create & batch & Hloop). fold L in Hloop.
  destruct (campaign_loop_indexed w K L create clock batch st Hloop)
    as [idx (Hle & Hold & Hnew & Hidx & Hinj)].
  assert (Hcase : forall a e k,
    key_assignments st !! a = Some e -> e !! "key" = Some (VStr k) ->
    (L !! a = Some e /\ k ∈ firstn (size L) K) \/
    (L !! a = None /\ exists j, idx !! a = Some j /\ (size L <= j)%nat
                                /\ K !! j = Some k)).
  { intros a e k Ha Hk. destruct (L !! a) as [e0|] eqn:HL.
    - left. rewrite (Hold _ _ HL) in Ha. injection Ha as ->.
      split; [reflexivity|].
      destruct (Hled _ _ HL) as (k' & Hk' & Hin). congruence.
    - right. split; [reflexivity|].
      destruct (Hnew _ _ Ha HL) as [j Hj].
      destruct (Hidx _ _ Hj) as ([Hj1 _] & e' & k' & He' & Hjk & Hek).
      exists j. repeat split; try assumption. congruence. }
  intros a a' e e' k Ha Ha' Hk Hk'.
  destruct (Hcase _ _ _ Ha Hk) as [[HLa Hin]|[HLa (j & Hj & Hjn & Hjk)]];
    destruct (Hcase _ _ _ Ha' Hk') as [[HLa' Hin']|[HLa' (j' & Hj' & Hjn' & Hjk')]].
  - exact (Hone a a' e e' k HLa HLa' Hk Hk').
  - exfalso. exact (beyond_not_among K (size L) j' k Hnd Hjn' Hjk' Hin).
  - exfalso. exact (beyond_not_among K (size L) j k Hnd Hjn Hjk Hin').
  - pose proof (NoDup_lookup K j j' k Hnd Hjk Hjk') as <-.
    exact (Hinj a a' j Hj Hj').
Qed.

Lemma campaign_one_key_per_recipient_witness :
  exists st,
    generate_campaign sample_world sample_rows (Some sample_pool)
      (Some sample_ledger) None false 0 = Ok (Some st) /\
    Shapes.one_to_one (key_assignments st).
Proof.
  eexists. split; [vm_compute; reflexivity|].
  refine (campaign_one_key_per_recipient sample_world sample_rows
            (Some sample_pool) (Some sample_ledger) None false 0%nat
            [sample_key; second_key] _ _ _ _ _ _).
  - vm_compute. reflexivity.
  - apply (bool_decide_unpack _). vm_compute. reflexivity.
  - intros a e Ha. cbn [load_key_assignments] in *.
    unfold sample_ledger in *. rewrite map_size_singleton.
    apply lookup_singleton_Some in Ha as [_ <-].
    exists sample_key. split; [exact (new_entry_key _ _ _ false)|apply list_elem_of_here].
  - intros a a' e e' k Ha Ha' _ _. cbn [load_key_assignments] in *.
    unfold sample_ledger in *.
    apply lookup_singleton_Some in Ha as [<- _].
    apply lookup_singleton_Some in Ha' as [<- _]. reflexivity.
  - vm_compute. reflexivity.
Defined.

End OneToOneRun.

(** ** generate_campaign: the rows behind the entries *)

Section Recipients.

Lemma for_each_invariant_in {A S : Type} (body : S -> A -> result S)
    (P : S -> Prop) (l : list A) :
  (forall s x s', x ∈ l -> P s -> body s x = Ok s' -> P s') ->
  forall s s', P s -> for_each body l s = Ok s' -> P s'.
Proof.
  induction l as [|x l IH]; intros Hstep s s' Hs H.
  - injection H as <-. exact Hs.
  - cbn [for_each] in H. destruct (body s x) as [s1|] eqn:Hb; [|discriminate].
    cbn [bind] in H.
    apply (IH (fun s0 y s0' Hy => Hstep s0 y s0' (list_elem_of_further _ _ _ Hy))
              s1 s').
    + exact (Hstep _ _ _ (list_elem_of_here _ _) Hs Hb).
    + exact H.
Qed.

Lemma keep_valid_step (acc : list pydict) (inf : pydict) (acc' : list pydict) :
  keep_valid acc inf = Ok acc' ->
  acc' = acc \/
  exists e, inf !! "emails" = Some (VStr e) /\ e <> "Not found" /\
            contains "@" e = true /\
            acc' = acc ++ [<["primary_email" := VStr (first_email e)]> inf].
Proof.
  unfold keep_valid, dget. intros H.
  destruct (inf !! "emails") as [v|] eqn:Hv; cbn [from_option id] in H.
  - destruct (truth v && bool_decide (v <> VStr "Not found")) eqn:Hc;
      [|injection H as <-; left; reflexivity].
    apply andb_true_iff in Hc as [_ Hne]. apply bool_decide_eq_true in Hne.
    destruct v as [| | |e]; try discriminate.
    destruct (contains "@" e) eqn:Hat; injection H as <-; [|left; reflexivity].
    right. exists e. repeat split; try assumption. congruence.
  - rewrite bool_decide_eq_false_2 in H by (intros Hn; apply Hn; reflexivity).
    rewrite andb_false_r in H. injection H as <-. left. reflexivity.
Qed.

(** The rows that the filter keeps are rows of the file with the first
    address stored under [primary_email]. *)
Lemma keep_valid_rows (rows : list pydict) (valid : list pydict) :
  for_each keep_valid rows [] = Ok valid ->
  forall v, v ∈ valid ->
    exists a row, Shapes.usable_row rows a row /\
                  v = <["primary_email" := VStr a]> row.
Proof.
  apply (for_each_invariant_in keep_valid
           (fun valid => forall v, v ∈ valid ->
              exists a row, Shapes.usable_row rows a row /\
                            v = <["primary_email" := VStr a]> row)).
  - intros acc inf acc' Hin IH Hstep v Hv.
    destruct (keep_valid_step _ _ _ Hstep) as [->|(e & He & Hne & Hat & ->)];
      [exact (IH v Hv)|].
    apply elem_of_app in Hv as [Hv|Hv]; [exact (IH v Hv)|].
    apply list_elem_of_singleton in Hv as ->.
    exists (first_email e), inf. split; [|reflexivity].
    split; [exact Hin|]. exists e. repeat split; assumption.
  - intros v Hv. apply elem_of_nil in Hv. contradiction.
Qed.

Lemma slice_to_elem {X : Type} (k : Z) (l : list X) (x : X) :
  x ∈ slice_to k l -> x ∈ l.
Proof.
  unfold slice_to. destruct (0 <=? k); intros H;
    apply (subseteq_take _ l _ H).
Qed.

(** A run that returns a state has parsed its pool, filtered its rows
    and looped over some of the rows kept. *)
Lemma generate_campaign_batch (w : collaborators) (influencers : list pydict)
    (key_file : option string) (ledger_file : option ledger)
    (max_drafts : option Z) (create_gmail_drafts : bool) (clock : nat)
    (st : campaign) :
  generate_campaign w influencers key_file ledger_file max_drafts
    create_gmail_drafts clock = Ok (Some st) ->
  exists valid K create batch,
    for_each keep_valid influencers [] = Ok valid /\
    load_steam_keys key_file = Ok K /\
    (forall v, v ∈ batch -> v ∈ valid) /\
    campaign_loop w K (load_key_assignments ledger_file) create clock batch
    = Ok st.
Proof.
  intros Hrun. unfold generate_campaign in Hrun.
  destruct (for_each keep_valid influencers []) as [valid|]; [|discriminate].
  cbn [bind] in Hrun.
  destruct (load_steam_keys key_file) as [K|]; [|discriminate].
  cbn [bind] in Hrun.
  destruct (length K =? 0)%nat; [discriminate|].
  match type of Hrun with
  | bind (campaign_loop _ _ _ ?c _ ?b) _ = _ =>
      destruct (campaign_loop w K (load_key_assignments ledger_file) c clock b)
        as [st1|] eqn:Hloop; [|discriminate];
      exists valid, K, c, b
  end.
  cbn [bind] in Hrun. injection Hrun as <-.
  repeat split; try reflexivity; [|exact Hloop].
  intros v Hv. apply slice_to_elem in Hv.
  destruct (given max_drafts) as [m|]; [|exact Hv].
  destruct (m <? Z.of_nat (length valid)); [|exact Hv].
  exact (slice_to_elem _ _ _ Hv).
Qed.

Lemma new_entry_stored (inf : pydict) (k date : string) (draft : bool) :
  Shapes.stored_for inf
    (if draft then <["draft_created" := VBool true]> (new_entry inf k date)
     else new_entry inf k date).
Proof.
  unfold Shapes.stored_for, new_entry.
  destruct draft; repeat split;
    repeat (rewrite lookup_insert_ne by discriminate);
    first [apply lookup_insert_eq | apply lookup_empty].
Qed.

Lemma assign_key_stored (w : collaborators) (K : list string) (L : ledger)
    (create : bool) (batch : list pydict) (st st' : campaign) (inf : pydict) :
  let P := fun st : campaign =>
    forall a e, key_assignments st !! a = Some e -> L !! a = None ->
      exists v, v ∈ batch /\ v !! "primary_email" = Some (VStr a) /\
                Shapes.stored_for v e in
  inf ∈ batch -> P st ->
  assign_key w K create st inf = Ok st' -> P st'.
Proof.
  intros P Hin HP H. unfold assign_key in H.
  destruct (inf !! "primary_email") as [[| | |email_addr]|] eqn:Hp;
    try discriminate.
  case_bool_decide as Hhas; [injection H as <-; exact HP|].
  destruct (K !! key_index st) as [steam_key|]; [|discriminate].
  destruct (generate_email_content w inf steam_key) as [content|]; [|discriminate].
  cbn [bind] in H.
  assert (Hgoal : forall (draft : bool) drafts generated reads calls,
    P {| key_assignments :=
           <[email_addr :=
               if draft
               then <["draft_created" := VBool true]>
                      (new_entry inf steam_key (now_isoformat w (clock_reads st)))
               else new_entry inf steam_key (now_isoformat w (clock_reads st))]>
             (key_assignments st);
         key_index := S (key_index st);
         drafts_created := drafts;
         emails_generated := generated;
         clock_reads := reads;
         draft_calls := calls |}).
  { intros draft drafts generated reads calls a e Ha Hnone.
    cbn [key_assignments] in Ha.
    destruct (decide (email_addr = a)) as [<-|Hne].
    - rewrite lookup_insert_eq in Ha. injection Ha as <-.
      exists inf. repeat split; try assumption; apply new_entry_stored.
    - rewrite lookup_insert_ne in Ha by exact Hne. exact (HP a e Ha Hnone). }
  destruct create; injection H as <-.
  - apply (Hgoal (create_draft w (draft_calls st))).
  - apply (Hgoal false).
Qed.

Lemma campaign_loop_stored (w : collaborators) (K : list string) (L : ledger)
    (create : bool) (clock : nat) (batch : list pydict) (st : campaign) :
  campaign_loop w K L create clock batch = Ok st ->
  forall a e, key_assignments st !! a = Some e -> L !! a = None ->
    exists v, v ∈ batch /\ v !! "primary_email" = Some (VStr a) /\
              Shapes.stored_for v e.
Proof.
  unfold campaign_loop. intros Hloop.
  refine (for_each_invariant_in (assign_key w K create)
    (fun st0 : campaign =>
       forall a e, key_assignments st0 !! a = Some e -> L !! a = None ->
         exists v, v ∈ batch /\ v !! "primary_email" = Some (VStr a) /\
                   Shapes.stored_for v e) batch _ _ st _ Hloop).
  - intros s x s' Hx Hs Hb.
    exact (assign_key_stored w K _ create batch s s' x Hx Hs Hb).
  - cbn [key_assignments]. intros a0 e0 H0 H1. rewrite H0 in H1.
    discriminate.
Qed.

End Recipients.

Section RecipientsRun.

(** X14. An entry that a completed run has added to the ledger belongs
    to a row of the influencer file whose [emails] column is a text with
    an at sign, other than [Not found]; its address is the first of the
    comma-separated addresses of that column, stripped; it carries the
    user name of that row, is not marked as sent and has neither a
    sending date nor a response mark. *)
Theorem campaign_new_entries (w : collaborators)
    (influencers : list pydict) (key_file : option string)
    (ledger_file : option ledger) (max_drafts : option Z)
    (create_gmail_drafts : bool) (clock : nat) (st : campaign)
    (a : string) (e : pydict) :
  generate_campaign w influencers key_file ledger_file max_drafts
    create_gmail_drafts clock = Ok (Some st) ->
  key_assignments st !! a = Some e ->
  load_key_assignments ledger_file !! a = None ->
  exists row,
    Shapes.usable_row influencers a row /\
    e !! "influencer" = Some (dget row "username" VNone) /\
    e !! "sent" = Some (VBool false) /\
    e !! "sent_date" = None /\
    e !! "responded" = None.
Proof.
  intros Hrun Ha Hnone.
  destruct (generate_campaign_batch _ _ _ _ _ _ _ _ Hrun)
    as (valid & K & create & batch & Hvalid & _ & Hsub & Hloop).
  pose proof (campaign_loop_stored _ _ _ _ _ _ _ Hloop) as Hinv.
  destruct (Hinv a e Ha Hnone) as (v & Hv & Hp & Hs & Hd & Hr & Hi).
  destruct (keep_valid_rows _ _ Hvalid v (Hsub v Hv)) as (a' & row & Hrow & ->).
  rewrite lookup_insert_eq in Hp. injection Hp as ->.
  exists row. repeat split; try assumption; try apply Hrow.
  rewrite Hi. unfold dget. rewrite lookup_insert_ne by discriminate. reflexivity.
Qed.

Lemma campaign_new_entries_witness :
  exists st e row,
    generate_campaign sample_world sample_rows (Some sample_pool)
      (Some sample_ledger) None false 0 = Ok (Some st) /\
    key_assignments st !! "bob@site.org" = Some e /\
    Shapes.usable_row sample_rows "bob@site.org" row /\
    e !! "influencer" = Some (dget row "username" VNone) /\
    e !! "sent" = Some (VBool false) /\
    e !! "sent_date" = None /\
    e !! "responded" = None.
Proof.
  destruct (generate_campaign sample_world sample_rows (Some sample_pool)
              (Some sample_ledger) None false 0) as [[st|]|x] eqn:Hrun;
    [|vm_compute in Hrun; discriminate..].
  destruct (key_assignments st !! "bob@site.org") as [e|] eqn:Ha;
    [|vm_compute in Hrun; injection Hrun as <-; vm_compute in Ha; discriminate].
  assert (Hnone : load_key_assignments (Some sample_ledger) !! "bob@site.org" = None)
    by (cbn [load_key_assignments]; unfold sample_ledger;
        apply lookup_singleton_ne; discriminate).
  destruct (campaign_new_entries sample_world sample_rows (Some sample_pool)
              (Some sample_ledger) None false 0%nat st "bob@site.org" e
              Hrun Ha Hnone) as (row & H).
  exists st, e, row. split; [reflexivity|]. split; [exact Ha|]. exact H.
Defined.

End RecipientsRun.

(** ** generate_campaign on the rows of a CSV file *)

Section CsvRows.

Lemma assign_key_csv_followers (w : collaborators) (K : list string)
    (create : bool) (st st' : campaign) (inf : pydict) (f : string) :
  inf !! "followers" = Some (VStr f) ->
  assign_key w K create st inf = Ok st' -> st' = st.
Proof.
  intros Hf H. unfold assign_key in H.
  destruct (inf !! "primary_email") as [[| | |email_addr]|]; try discriminate.
  case_bool_decide; [injection H as <-; reflexivity|].
  destruct (K !! key_index st) as [steam_key|]; [|discriminate].
  rewrite (generate_email_content_csv_followers w inf steam_key f Hf) in H.
  discriminate.
Qed.

(** X15. [csv.DictReader] gives every value as a string. On rows that
    all have a [followers] column, a run that completes has added no
    entry to the ledger, generated no email and created no draft: the
    composer raises [TypeError] for every recipient that is not skipped. *)
Theorem campaign_csv_followers (w : collaborators)
    (influencers : list pydict) (key_file : option string)
    (ledger_file : option ledger) (max_drafts : option Z)
    (create_gmail_drafts : bool) (clock : nat) (st : campaign) :
  (forall row, row ∈ influencers ->
     exists f, row !! "followers" = Some (VStr f)) ->
  generate_campaign w influencers key_file ledger_file max_drafts
    create_gmail_drafts clock = Ok (Some st) ->
  key_assignments st = load_key_assignments ledger_file /\
  emails_generated st = [] /\
  drafts_created st = 0.
Proof.
  intros Hrows Hrun.
  destruct (generate_campaign_batch _ _ _ _ _ _ _ _ Hrun)
    as (valid & K & create & batch & Hvalid & _ & Hsub & Hloop).
  unfold campaign_loop in Hloop.
  match type of Hloop with
  | for_each _ _ ?s0 = _ =>
      assert (Hst : st = s0);
      [refine (for_each_invariant_in (assign_key w K create)
                 (fun s : campaign => s = s0) batch _ _ st eq_refl Hloop)|]
  end.
  - intros s x s' Hx -> Hb.
    destruct (keep_valid_rows _ _ Hvalid x (Hsub x Hx))
      as (a & row & [Hrow _] & ->).
    destruct (Hrows row Hrow) as [f Hf].
    apply (assign_key_csv_followers w K create _ _ _ f) in Hb; [exact Hb|].
    rewrite lookup_insert_ne by discriminate. exact Hf.
  - rewrite Hst. repeat split.
Qed.

Lemma campaign_csv_followers_witness :
  exists st,
    generate_campaign sample_world [csv_row] (Some sample_pool)
      (Some sample_ledger) None false 0 = Ok (Some st) /\
    key_assignments st = load_key_assignments (Some sample_ledger) /\
    emails_generated st = [] /\
    drafts_created st = 0.
Proof.
  eexists. split; [vm_compute; reflexivity|].
  apply (campaign_csv_followers sample_world [csv_row] (Some sample_pool)
           (Some sample_ledger) None false 0%nat).
  - intros row Hrow. apply list_elem_of_singleton in Hrow as ->.
    exists "50000"%string. reflexivity.
  - vm_compute. reflexivity.
Defined.

End CsvRows.

(** ** generate_followups *)

Section FollowUps.

Variable cal : calendar.

Lemma followup_step_due (d : Z) (acc : list pydict) (n : nat)
    (email : string) (data : pydict) (st' : list pydict * nat) :
  followup_step cal d (acc, n) (email, data) = inr st' ->
  st' = (if Shapes.due cal d (n, (email, data))
         then acc ++ [Shapes.record_of (n, (email, data))] else acc, S n) /\
  (Shapes.due cal d (n, (email, data)) = true ->
     is_Some (data !! "influencer") /\ is_Some (data !! "key")).
Proof.
  unfold followup_step, Shapes.due, Shapes.record_of. intros H.
  destruct (truth (dget data "sent" (VBool false)));
    [|injection H as <-; split; [reflexivity|discriminate]].
  destruct (data !! "sent_date") as [[| | |s]|]; try discriminate.
  destruct (days_elapsed cal n s) as [e|z]; [discriminate|].
  rewrite Z.geb_leb in H. rewrite andb_true_l.
  destruct (d <=? z);
    [|rewrite andb_false_r; rewrite andb_false_l in H; injection H as <-;
      split; [reflexivity|discriminate]].
  rewrite andb_true_l in H. rewrite andb_true_r.
  destruct (negb (truth (dget data "responded" (VBool false))));
    [|injection H as <-; split; [reflexivity|discriminate]].
  unfold dget.
  destruct (data !! "influencer") as [i|]; [|discriminate].
  destruct (data !! "key") as [k|]; [|discriminate].
  injection H as <-. split; [reflexivity|]. intros _. split; eauto.
Qed.

Lemma followup_loop_due (d : Z) (items : list (string * pydict)) :
  forall (acc : list pydict) (n : nat) (st' : list pydict * nat),
  followup_loop cal d items (acc, n) = inr st' ->
  st' = (acc ++ List.map Shapes.record_of
                  (List.filter (Shapes.due cal d) (Shapes.enumerate_from n items)),
         (n + length items)%nat) /\
  (forall p, p ∈ Shapes.enumerate_from n items -> Shapes.due cal d p = true ->
     is_Some (p.2.2 !! "influencer") /\ is_Some (p.2.2 !! "key")).
Proof.
  induction items as [|[email data] items IH]; intros acc n st' H.
  - injection H as <-. cbn [Shapes.enumerate_from List.filter List.map length].
    rewrite app_nil_r, Nat.add_0_r. split; [reflexivity|].
    intros p Hp. apply elem_of_nil in Hp. contradiction.
  - cbn [followup_loop] in H.
    destruct (followup_step cal d (acc, n) (email, data)) as [e|st1] eqn:Hs;
      [discriminate|].
    destruct (followup_step_due _ _ _ _ _ _ Hs) as [-> Hhas].
    destruct (IH _ _ _ H) as [-> Hrest].
    cbn [Shapes.enumerate_from List.filter length]. split.
    + f_equal; [|lia].
      destruct (Shapes.due cal d (n, (email, data)));
        [cbn [List.map]; rewrite <- app_assoc|]; reflexivity.
    + intros p Hp Hdue. apply elem_of_cons in Hp as [->|Hp];
        [exact (Hhas Hdue) | exact (Hrest p Hp Hdue)].
Qed.

Lemma enumerate_from_elem {X : Type} (l : list X) :
  forall (n i : nat) (x : X),
    (i, x) ∈ Shapes.enumerate_from n l -> x ∈ l.
Proof.
  induction l as [|y l IH]; intros n i x H; cbn [Shapes.enumerate_from] in H.
  - apply elem_of_nil in H. contradiction.
  - apply elem_of_cons in H as [H|H].
    + injection H as _ ->. apply list_elem_of_here.
    + apply list_elem_of_further. exact (IH _ _ _ H).
Qed.

(** The query returns when every entry marked as sent has a date that
    the calendar reads, and every entry has a name and a key. *)
Lemma followup_loop_returns (d : Z) (items : list (string * pydict)) :
  (forall a e, (a, e) ∈ items ->
     is_Some (e !! "influencer") /\ is_Some (e !! "key") /\
     (truth (dget e "sent" (VBool false)) = true ->
        exists s, e !! "sent_date" = Some (VStr s) /\
                  forall n, exists z, days_elapsed cal n s = inr z)) ->
  forall st, exists st', followup_loop cal d items st = inr st'.
Proof.
  induction items as [|[email data] items IH]; intros Hwf st.
  - eexists. reflexivity.
  - cbn [followup_loop].
    assert (Hstep : exists st1, followup_step cal d st (email, data) = inr st1).
    { destruct (Hwf email data (list_elem_of_here _ _)) as ([i Hi] & [k Hk] & Hsent).
      destruct st as [acc n]. unfold followup_step.
      destruct (truth (dget data "sent" (VBool false))); [|eauto].
      destruct (Hsent eq_refl) as (s & -> & Hcal).
      destruct (Hcal n) as [z ->]. rewrite Hi, Hk.
      destruct ((z >=? d) && negb (truth (dget data "responded" (VBool false))));
        eauto. }
    destruct Hstep as [st1 ->]. apply IH.
    intros a e Hin. apply (Hwf a e). apply list_elem_of_further. exact Hin.
Qed.

End FollowUps.

Section FollowUpsQuery.

(** X16. When the query returns, its list holds, in the order of the
    ledger file, one record for every entry that is marked as sent, is
    not marked as responded, and whose sending date lies [days_since]
    days back or more, and no other record; each such entry has a name
    and a key, which the record carries with the address. *)
Theorem generate_followups_due (cal : calendar)
    (items : list (string * pydict)) (days_since : Z) (l : list pydict) :
  generate_followups cal items days_since = inr l ->
  l = List.map Shapes.record_of
        (List.filter (Shapes.due cal days_since) (Shapes.enumerate_from 0 items)) /\
  (forall i email data,
     (i, (email, data)) ∈ Shapes.enumerate_from 0 items ->
     Shapes.due cal days_since (i, (email, data)) = true ->
     exists name key,
       data !! "influencer" = Some name /\ data !! "key" = Some key /\
       Shapes.record_of (i, (email, data)) = followup_record email name key).
Proof.
  unfold generate_followups. intros H.
  destruct (followup_loop cal days_since items ([], 0%nat)) as [e|st] eqn:Hloop;
    [discriminate|].
  injection H as <-.
  destruct (followup_loop_due _ _ _ _ _ _ Hloop) as [-> Hhas].
  split; [reflexivity|].
  intros i email data Hin Hdue.
  destruct (Hhas _ Hin Hdue) as [[name Hn] [key Hk]]. cbn [fst snd] in Hn, Hk.
  exists name, key. repeat split; try assumption.
  unfold Shapes.record_of, dget. rewrite Hn, Hk. reflexivity.
Qed.

Lemma generate_followups_due_witness :
  exists l,
    generate_followups sample_calendar sent_items 7 = inr l /\
    l = List.map Shapes.record_of
          (List.filter (Shapes.due sample_calendar 7)
             (Shapes.enumerate_from 0 sent_items)).
Proof.
  eexists. split; [vm_compute; reflexivity|].
  apply (generate_followups_due sample_calendar sent_items 7).
  vm_compute. reflexivity.
Defined.

End FollowUpsQuery.

Section FollowUpsThreshold.

Variable cal : calendar.

Lemma due_threshold (d d' : Z) (p : nat * (string * pydict)) :
  d <= d' -> Shapes.due cal d' p = true -> Shapes.due cal d p = true.
Proof.
  intros Hle. destruct p as [i [email data]]. unfold Shapes.due.
  destruct (data !! "sent_date") as [[| | |s]|];
    rewrite ?andb_false_r; try discriminate.
  destruct (days_elapsed cal i s) as [e|z];
    rewrite ?andb_false_r; try discriminate.
  intros H. apply andb_true_iff in H as [-> H]. apply Z.leb_le in H.
  apply Z.leb_le. lia.
Qed.

Lemma filter_sublist_weaker {X : Type} (f g : X -> bool) (l : list X) :
  (forall x, f x = true -> g x = true) ->
  sublist (List.filter f l) (List.filter g l).
Proof.
  intros Hfg. induction l as [|x l IH]; cbn [List.filter]; [constructor|].
  destruct (f x) eqn:Hf.
  - rewrite (Hfg x Hf). apply sublist_skip. exact IH.
  - destruct (g x); [apply sublist_cons|]; exact IH.
Qed.

Lemma map_sublist {X Y : Type} (f : X -> Y) (l1 l2 : list X) :
  sublist l1 l2 -> sublist (List.map f l1) (List.map f l2).
Proof.
  induction 1; cbn [List.map];
    [constructor | apply sublist_skip | apply sublist_cons]; assumption.
Qed.

Lemma followup_step_threshold (d d' : Z) (st st1 : list pydict * nat)
    (item : string * pydict) :
  d <= d' ->
  followup_step cal d st item = inr st1 ->
  exists st1', followup_step cal d' st item = inr st1'.
Proof.
  intros Hle H. destruct st as [acc n], item as [email data].
  unfold followup_step in *.
  destruct (truth (dget data "sent" (VBool false))); [|eauto].
  destruct (data !! "sent_date") as [[| | |s]|]; try discriminate.
  destruct (days_elapsed cal n s) as [e|z]; [discriminate|].
  rewrite Z.geb_leb in *.
  destruct (d' <=? z) eqn:Hd'; [|rewrite andb_false_l; eauto].
  assert (Hd : (d <=? z) = true) by (apply Z.leb_le in Hd'; apply Z.leb_le; lia).
  rewrite Hd in H. rewrite andb_true_l in *.
  destruct (negb (truth (dget data "responded" (VBool false)))); [|eauto].
  destruct (data !! "influencer"); [|discriminate].
  destruct (data !! "key"); [|discriminate]. eauto.
Qed.

Lemma followup_loop_threshold (d d' : Z) (items : list (string * pydict)) :
  d <= d' ->
  forall st st1, followup_loop cal d items st = inr st1 ->
  forall st', st'.2 = st.2 ->
  exists st1', followup_loop cal d' items st' = inr st1'.
Proof.
  intros Hle. induction items as [|item items IH]; intros st st1 H st' Hn.
  - eexists. reflexivity.
  - cbn [followup_loop] in *.
    destruct (followup_step cal d st item) as [e|s1] eqn:Hs; [discriminate|].
    destruct st as [acc n], st' as [acc' n']. cbn [snd] in Hn. subst n'.
    destruct item as [email data].
    assert (Hs' : exists s1', followup_step cal d (acc', n) (email, data) = inr s1').
    { clear -Hs. unfold followup_step in *.
      destruct (truth (dget data "sent" (VBool false))); [|eauto].
      destruct (data !! "sent_date") as [[| | |s]|]; try discriminate.
      destruct (days_elapsed cal n s) as [e|z]; [discriminate|].
      destruct ((z >=? d) && negb (truth (dget data "responded" (VBool false))));
        [|eauto].
      destruct (data !! "influencer"); [|discriminate].
      destruct (data !! "key"); [|discriminate]. eauto. }
    destruct Hs' as [s1' Hs'].
    destruct (followup_step_threshold d d' _ _ _ Hle Hs') as [s2 Hs2].
    rewrite Hs2. apply (IH s1 st1 H).
    destruct (followup_step_due _ _ _ _ _ _ _ Hs) as [-> _].
    destruct (followup_step_due _ _ _ _ _ _ _ Hs2) as [-> _]. reflexivity.
Qed.

End FollowUpsThreshold.

Section FollowUpsThresholdQuery.

(** X17. If the query returns for a number of days, it returns for every
    larger number, and what it returns then is a sublist of the first
    list: a larger threshold removes follow-ups, and neither adds nor
    reorders any. *)
Theorem generate_followups_threshold (cal : calendar)
    (items : list (string * pydict)) (d d' : Z) (l : list pydict) :
  d <= d' ->
  generate_followups cal items d = inr l ->
  exists l', generate_followups cal items d' = inr l' /\ sublist l' l.
Proof.
  intros Hle H. unfold generate_followups in *.
  destruct (followup_loop cal d items ([], 0%nat)) as [e|st] eqn:Hloop;
    [discriminate|].
  injection H as <-.
  destruct (followup_loop_threshold cal d d' items Hle _ _ Hloop ([], 0%nat) eq_refl)
    as [st' Hloop'].
  rewrite Hloop'. exists st'.1. split; [reflexivity|].
  destruct (followup_loop_due _ _ _ _ _ _ Hloop) as [-> _].
  destruct (followup_loop_due _ _ _ _ _ _ Hloop') as [-> _].
  cbn [fst app]. apply map_sublist.
  apply filter_sublist_weaker. intros p. apply due_threshold. exact Hle.
Qed.

Lemma generate_followups_threshold_witness :
  exists l l',
    generate_followups sample_calendar sent_items 1 = inr l /\
    generate_followups sample_calendar sent_items 7 = inr l' /\
    sublist l' l.
Proof.
  eexists.
  destruct (generate_followups_threshold sample_calendar sent_items 1 7 _
              ltac:(lia) eq_refl) as (l' & H & Hsub).
  exists l'. split; [reflexivity|]. split; assumption.
Defined.

End FollowUpsThresholdQuery.

(** ** From the campaign to the follow-ups *)

Section Pipeline.

Variable w : collaborators.

(** The entries of a ledger after [mark_as_sent], against the ledger
    before it. *)
Lemma mark_loop_entry (assignments : ledger) (clock : nat)
    (addresses : list string) (a : string) (e : pydict) :
  (fold_left (mark_one w) addresses (assignments, clock)).1 !! a = Some e ->
  exists e0, assignments !! a = Some e0 /\ Spec.same_elsewhere e e0 /\
             ((a ∈ addresses /\ Spec.marked w e) \/
              ((a ∉ addresses) /\ e = e0)).
Proof.
  intros H.
  destruct (mark_loop w assignments clock addresses) as (Hdom & Hout & Hin).
  cbn zeta in Hdom, Hout, Hin.
  destruct (assignments !! a) as [e0|] eqn:H0.
  - exists e0. split; [reflexivity|].
    destruct (Hin a e0 H0) as (e' & He' & Hsame & Hmark).
    rewrite H in He'. injection He' as <-. split; [exact Hsame|].
    destruct (decide (a ∈ addresses)) as [Hel|Hel].
    + left. split; [exact Hel | exact (Hmark Hel)].
    + right. split; [exact Hel|]. rewrite (Hout a Hel), H0 in H. congruence.
  - exfalso. apply not_elem_of_dom in H0. rewrite <- Hdom in H0.
    apply not_elem_of_dom in H0. rewrite H0 in H. discriminate.
Qed.

End Pipeline.

Section PipelineRun.

(** X18. The three commands in a row. After a campaign that started
    without a ledger, and after [mark_as_sent] on some addresses, the
    query for follow-ups raises nothing of its own (provided the clock
    reads the dates that [mark_as_sent] wrote), and every record it
    returns is for an address that was marked as sent, with the key and
    the name that the campaign stored for that address. *)
Theorem followups_after_campaign (w : collaborators) (cal : calendar)
    (influencers : list pydict) (key_file : option string)
    (max_drafts : option Z) (create_gmail_drafts : bool) (clock clock' : nat)
    (st : campaign) (email_addresses : list string) (saved : ledger)
    (items : list (string * pydict)) (days_since : Z) :
  generate_campaign w influencers key_file None max_drafts
    create_gmail_drafts clock = Ok (Some st) ->
  mark_as_sent w (save_key_assignment (key_assignments st)) clock'
    email_addresses = Some saved ->
  (forall a e, (a, e) ∈ items -> saved !! a = Some e) ->
  (forall n m, exists z, days_elapsed cal n (now_isoformat w m) = inr z) ->
  exists l,
    generate_followups cal items days_since = inr l /\
    forall r, r ∈ l ->
      exists a e0,
        a ∈ email_addresses /\
        key_assignments st !! a = Some e0 /\
        r !! "email" = Some (VStr a) /\
        r !! "key" = e0 !! "key" /\
        r !! "influencer" = e0 !! "influencer".
Proof.
  intros Hrun Hmark Hitems Hcal.
  destruct (generate_campaign_batch _ _ _ _ _ _ _ _ Hrun)
    as (valid & K & create & batch & _ & _ & _ & Hloop).
  cbn [load_key_assignments] in Hloop.
  destruct (campaign_loop_drawn_beyond w K ∅ create clock batch st Hloop)
    as (_ & _ & Hkey).
  pose proof (campaign_loop_stored w K ∅ create clock batch st Hloop) as Hstored.
  unfold mark_as_sent, save_key_assignment, load_key_assignments in Hmark.
  injection Hmark as <-.
  assert (Hentry : forall a e, (a, e) ∈ items ->
    exists e0, key_assignments st !! a = Some e0 /\
      e !! "key" = e0 !! "key" /\ e !! "influencer" = e0 !! "influencer" /\
      is_Some (e !! "key") /\ is_Some (e !! "influencer") /\
      (truth (dget e "sent" (VBool false)) = true ->
         a ∈ email_addresses /\
         exists m, e !! "sent_date" = Some (VStr (now_isoformat w m)))).
  { intros a e Hin.
    destruct (mark_loop_entry w _ _ _ _ _ (Hitems a e Hin))
      as (e0 & H0 & Hsame & Hcase).
    exists e0. split; [exact H0|].
    destruct (Hkey a e0 H0 (lookup_empty a)) as (j & k & _ & _ & Hk).
    destruct (Hstored a e0 H0 (lookup_empty a))
      as (v & _ & _ & Hsent & _ & _ & Hname).
    assert (Hk' : e !! "key" = e0 !! "key") by (apply Hsame; discriminate).
    assert (Hn' : e !! "influencer" = e0 !! "influencer")
      by (apply Hsame; discriminate).
    split; [exact Hk'|]. split; [exact Hn'|].
    split; [rewrite Hk', Hk; eauto|]. split; [rewrite Hn', Hname; eauto|].
    intros Htrue. destruct Hcase as [[Hel [_ Hdate]]|[_ ->]].
    - split; [exact Hel | exact Hdate].
    - unfold dget in Htrue. rewrite Hsent in Htrue. discriminate. }
  destruct (followup_loop_returns cal days_since items) with (st := ([] : list pydict, 0%nat))
    as [st' Hret].
  { intros a e Hin.
    destruct (Hentry a e Hin) as (e0 & _ & _ & _ & Hk & Hn & Hsent).
    split; [exact Hn|]. split; [exact Hk|]. intros Htrue.
    destruct (Hsent Htrue) as (_ & m & Hm).
    exists (now_isoformat w m). split; [exact Hm|]. intros n. apply Hcal. }
  unfold generate_followups. rewrite Hret. exists st'.1. split; [reflexivity|].
  destruct (followup_loop_due _ _ _ _ _ _ Hret) as [-> _]. cbn [fst app].
  intros r Hr. apply list_elem_of_In, in_map_iff in Hr as ([i [a e]] & <- & Hp).
  apply filter_In in Hp as [Hp Hdue]. apply list_elem_of_In in Hp.
  apply enumerate_from_elem in Hp.
  destruct (Hentry a e Hp) as (e0 & H0 & Hk & Hn & [k Hk1] & [nm Hn1] & Hsent).
  exists a, e0.
  assert (Htrue : truth (dget e "sent" (VBool false)) = true).
  { unfold Shapes.due in Hdue.
    apply andb_true_iff in Hdue as [Hdue _].
    apply andb_true_iff in Hdue as [Hdue _]. exact Hdue. }
  split; [apply (Hsent Htrue)|]. split; [exact H0|].
  unfold Shapes.record_of, followup_record, dget. rewrite <- Hk, <- Hn, Hk1, Hn1.
  cbn [default from_option id].
  repeat split.
Qed.

Lemma followups_after_campaign_witness :
  exists st saved l,
    generate_campaign sample_world two_rows (Some sample_pool) None None
      false 0 = Ok (Some st) /\
    mark_as_sent sample_world (save_key_assignment (key_assignments st)) 5
      ["cy@site.org"] = Some saved /\
    generate_followups steady_calendar (map_to_list saved) 7 = inr l /\
    forall r, r ∈ l ->
      exists a e0,
        a ∈ ["cy@site.org"] /\
        key_assignments st !! a = Some e0 /\
        r !! "email" = Some (VStr a) /\
        r !! "key" = e0 !! "key" /\
        r !! "influencer" = e0 !! "influencer".
Proof.
  destruct (generate_campaign sample_world two_rows (Some sample_pool) None None
              false 0) as [[st|]|e] eqn:Hrun;
    [|vm_compute in Hrun; discriminate..].
  exists st. eexists.
  destruct (followups_after_campaign sample_world steady_calendar two_rows
              (Some sample_pool) None false 0%nat 5%nat st ["cy@site.org"] _
              (map_to_list _) 7 Hrun eq_refl
              (fun a e H => proj1 (elem_of_map_to_list _ a e) H)
              (fun n m => ex_intro _ 9 eq_refl)) as (l & Hl & Hr).
  exists l. split; [reflexivity|]. split; [reflexivity|]. split; assumption.
Defined.

End PipelineRun.

(** ** From the parser's [emails] column to the campaign's recipients *)

Section EmailsColumn.

Lemma all_chars_app (cls : ascii -> bool) (a b : string) :
  all_chars cls (a +:+ b) = all_chars cls a && all_chars cls b.
Proof.
  induction a as [|x a IH]; [reflexivity|].
  rewrite append_cons. cbn [all_chars]. rewrite IH, andb_assoc. reflexivity.
Qed.

Lemma all_chars_weaken (cls cls' : ascii -> bool) (s : string) :
  (forall c, cls c = true -> cls' c = true) ->
  all_chars cls s = true -> all_chars cls' s = true.
Proof.
  intros Hc. induction s as [|x s IH]; [reflexivity|]. cbn [all_chars].
  intros H. apply andb_true_iff in H as [Hx Hs].
  rewrite (Hc x Hx), (IH Hs). reflexivity.
Qed.

Lemma class_address_char (c : ascii) :
  local_class c || domain_class c || tld_class c || Ascii.eqb c "@" = true ->
  Shapes.address_char c = true.
Proof.
  destruct c as [[] [] [] [] [] [] [] []]; vm_compute; intros H;
    first [reflexivity | discriminate].
Qed.

Lemma address_shape_chars (e : string) :
  Shapes.address_shape e ->
  all_chars Shapes.address_char e = true /\ nonempty e = true /\
  Spec.occurs "@" e.
Proof.
  intros (l & d & t & -> & Hl & Hlc & Hd & Hdc & Ht & Htc).
  split; [|split].
  - assert (H1 : forall c, local_class c = true -> Shapes.address_char c = true)
      by (intros c H; apply class_address_char; rewrite H; reflexivity).
    assert (H2 : forall c, domain_class c = true -> Shapes.address_char c = true)
      by (intros c H; apply class_address_char; rewrite H, !orb_true_r;
          reflexivity).
    assert (H3 : forall c, tld_class c = true -> Shapes.address_char c = true)
      by (intros c H; apply class_address_char; rewrite H, !orb_true_r;
          reflexivity).
    rewrite !all_chars_app. cbn [all_chars].
    rewrite (all_chars_weaken _ _ l H1 Hlc), (all_chars_weaken _ _ d H2 Hdc),
      (all_chars_weaken _ _ t H3 Htc).
    reflexivity.
  - destruct l; [cbn in Hl; lia | reflexivity].
  - apply occurs_append_r, occurs_here.
Qed.

Lemma split_head_address (e rest : string) :
  all_chars Shapes.address_char e = true ->
  (rest = "" \/ exists r, rest = String "," r) ->
  List.hd "" (split "," (e +:+ rest)) = e.
Proof.
  intros He Hrest. induction e as [|c e IH].
  - rewrite append_nil_l. destruct Hrest as [->|[r ->]]; reflexivity.
  - cbn [all_chars] in He. apply andb_true_iff in He as [Hc He].
    rewrite append_cons. cbn [split].
    unfold Shapes.address_char in Hc. apply andb_true_iff in Hc as [Hc _].
    apply negb_true_iff in Hc. rewrite Hc.
    specialize (IH He). destruct (split "," (e +:+ rest)) as [|x r];
      cbn [List.hd] in *; rewrite IH; reflexivity.
Qed.

Lemma rstrip_address (e : string) :
  all_chars Shapes.address_char e = true -> rstrip e = e.
Proof.
  induction e as [|c e IH]; [reflexivity|]. cbn [all_chars rstrip].
  intros H. apply andb_true_iff in H as [Hc He]. rewrite (IH He).
  unfold Shapes.address_char in Hc. apply andb_true_iff in Hc as [_ Hc].
  apply negb_true_iff in Hc. rewrite Hc. destruct e; reflexivity.
Qed.

Lemma strip_address (e : string) :
  all_chars Shapes.address_char e = true -> strip e = e.
Proof.
  intros H. unfold strip.
  assert (Hl : lstrip e = e).
  { destruct e as [|c e]; [reflexivity|]. cbn [all_chars lstrip] in *.
    apply andb_true_iff in H as [Hc _].
    unfold Shapes.address_char in Hc. apply andb_true_iff in Hc as [_ Hc].
    apply negb_true_iff in Hc. rewrite Hc. reflexivity. }
  rewrite Hl. apply rstrip_address, H.
Qed.

(** The column written for a non-empty list starts with the first
    address, and what follows, if anything, starts with a comma. *)
Lemma emails_field_head (e : string) (rest : list string) :
  exists tail, emails_field (e :: rest) = e +:+ tail /\
               (tail = "" \/ exists r, tail = String "," r).
Proof.
  unfold emails_field. cbn [join]. destruct rest as [|e' rest].
  - exists "". rewrite append_nil_r. split; [reflexivity | left; reflexivity].
  - eexists. split; [reflexivity|]. right. eexists.
    rewrite append_cons. reflexivity.
Qed.

Lemma extract_emails_elem_shape (text e : string) :
  e ∈ extract_emails text -> Shapes.address_shape e.
Proof.
  unfold extract_emails, list_set.
  destruct (negb (nonempty text)); [intros H; inversion H|].
  intros He. rewrite elem_of_remove_dups, list_elem_of_In in He.
  apply List.filter_In in He as [He _]. apply list_elem_of_In in He.
  apply findall_go_match in He as (prev & pre & s' & n & Hs & Hm & ->).
  exact (match_email_shape _ _ _ Hm).
Qed.

Lemma occurs_append_l (k s r : string) :
  Spec.occurs k s -> Spec.occurs k (s +:+ r).
Proof.
  intros (pre & post & ->). exists pre, (post +:+ r).
  rewrite !append_assoc. reflexivity.
Qed.

End EmailsColumn.

Section EmailsColumnRun.

(** X19. The discovery stage writes the addresses found in a text into
    the column [emails], joined by a comma and a space, or [Not found]
    when there is none. The filter of the campaign reads that column
    back: it drops the row when no address was found, and otherwise
    keeps it with the first address found, unchanged, as recipient. *)
Theorem keep_valid_parser_emails (text : string) (row : pydict)
    (valid_influencers : list pydict) :
  row !! "emails" = Some (VStr (emails_field (extract_emails text))) ->
  keep_valid valid_influencers row
  = Ok (match extract_emails text with
        | [] => valid_influencers
        | e :: _ => valid_influencers ++ [<["primary_email" := VStr e]> row]
        end).
Proof.
  intros Hrow. unfold keep_valid, dget. rewrite Hrow.
  cbn [default from_option id].
  destruct (extract_emails text) as [|e rest] eqn:Hes; [reflexivity|].
  assert (Hshape : Shapes.address_shape e)
    by (apply (extract_emails_elem_shape text); rewrite Hes;
        apply list_elem_of_here).
  destruct (address_shape_chars e Hshape) as (Hchars & Hne & Hat).
  destruct (emails_field_head e rest) as (tail & -> & Htail).
  assert (Hcontains : contains "@" (e +:+ tail) = true)
    by (apply occurs_contains, occurs_append_l, Hat).
  assert (Htruth : truth (VStr (e +:+ tail)) = true)
    by (destruct e; [discriminate | reflexivity]).
  rewrite Htruth, Hcontains.
  rewrite bool_decide_eq_true_2.
  - cbn [andb]. unfold first_email.
    rewrite (split_head_address e tail Hchars Htail), (strip_address e Hchars).
    reflexivity.
  - intros Heq. injection Heq as Heq. rewrite Heq in Hcontains.
    vm_compute in Hcontains. discriminate.
Qed.

Lemma keep_valid_parser_emails_witness :
  keep_valid [] (parsed_row "mail bob at site dot org or ann@site.org")
  = Ok (match extract_emails "mail bob at site dot org or ann@site.org" with
        | [] => []
        | e :: _ =>
            [] ++ [<["primary_email" := VStr e]>
                     (parsed_row "mail bob at site dot org or ann@site.org")]
        end).
Proof.
  apply (keep_valid_parser_emails "mail bob at site dot org or ann@site.org").
  reflexivity.
Defined.

End EmailsColumnRun.

(** ** generate_followup_email *)

Section FollowUpEmail.

Ltac find_key_again :=
  first [ apply occurs_here | apply occurs_append_r; find_key_again ].

Lemma followup_body_occurs (name : value) (original_key : string) :
  Spec.occurs original_key (followup_body name original_key).
Proof. unfold followup_body. find_key_again. Qed.

Lemma generate_email_content_to (w : collaborators) (influencer : pydict)
    (steam_key : string) (content : email_content) :
  generate_email_content w influencer steam_key = Ok content ->
  exists emails,
    dget influencer "emails" (VStr "") = VStr emails /\
    to content = dget influencer "primary_email" (VStr (first_email emails)).
Proof.
  unfold generate_email_content. intros H.
  repeat match type of H with
  | bind (as_str (dget influencer "emails" (VStr ""))) _ = Ok _ =>
      destruct (dget influencer "emails" (VStr "")) as [| | |emails];
      try discriminate; cbn [as_str bind] in H
  | bind ?m _ = Ok _ => destruct m; cbn [bind] in H; [|discriminate]
  end.
  injection H as <-. cbn [to]. eauto.
Qed.

(** X20. The follow-up composer reads the name and the addresses only:
    on every record whose [emails] is a text (or is missing) it returns a
    message, whatever the type of [followers]; the body holds the key it
    was handed; and the message goes to the address that the first
    message for the same record went to, whenever that one could be
    composed. *)
Theorem generate_followup_email_returns (influencer : pydict)
    (original_key emails : string) :
  dget influencer "emails" (VStr "") = VStr emails ->
  exists content,
    generate_followup_email influencer original_key = Ok content /\
    contains original_key (body content) = true /\
    to content = dget influencer "primary_email" (VStr (first_email emails)) /\
    forall w steam_key first_content,
      generate_email_content w influencer steam_key = Ok first_content ->
      to first_content = to content.
Proof.
  intros He. unfold generate_followup_email. rewrite He. cbn [as_str bind].
  eexists. split; [reflexivity|]. cbn [body to]. split; [|split].
  - apply occurs_contains, followup_body_occurs.
  - reflexivity.
  - intros w steam_key first_content H.
    destruct (generate_email_content_to _ _ _ _ H) as (emails' & He' & ->).
    rewrite He in He'. injection He' as <-. reflexivity.
Qed.

Lemma generate_followup_email_returns_witness :
  exists content,
    generate_followup_email (<["primary_email" := VStr "ann@site.org"]> csv_row)
      sample_key = Ok content /\
    contains sample_key (body content) = true /\
    to content = VStr "ann@site.org".
Proof.
  assert (He : dget (<["primary_email" := VStr "ann@site.org"]> csv_row)
                 "emails" (VStr "") = VStr "ann@site.org")
    by (vm_compute; reflexivity).
  destruct (generate_followup_email_returns _ sample_key _ He)
    as (content & Hc & Hk & Ht & _).
  exists content. split; [exact Hc|]. split; [exact Hk|].
  rewrite Ht. vm_compute. reflexivity.
Defined.

End FollowUpEmail.

(** ** The priority list *)

Section PriorityList.

Context {A : Type}.
Variable platform : A -> string.
Variable response_score : A -> Z.

Let on (name : string) (inf : A) : bool := String.eqb (platform inf) name.
Let sorted := sorted_desc response_score.

Lemma insert_desc_perm (x : A) (l : list A) :
  Permutation (insert_desc response_score x l) (x :: l).
Proof.
  induction l as [|y l IH]; cbn [insert_desc]; [reflexivity|].
  destruct (response_score y <=? response_score x); [reflexivity|].
  rewrite IH. apply perm_swap.
Qed.

Lemma sorted_desc_perm (l : list A) : Permutation (sorted l) l.
Proof.
  unfold sorted, sorted_desc. induction l as [|x l IH]; cbn [foldr]; [reflexivity|].
  rewrite insert_desc_perm, IH. reflexivity.
Qed.

Lemma length_sorted_desc (l : list A) : length (sorted l) = length l.
Proof. apply Permutation_length, sorted_desc_perm. Qed.

Lemma insert_desc_descending (x : A) (l : list A) :
  Shapes.descending response_score l ->
  Shapes.descending response_score (insert_desc response_score x l).
Proof.
  induction l as [|y l IH]; cbn [insert_desc Shapes.descending].
  - intros _. split; [|exact I]. intros y Hy. apply elem_of_nil in Hy.
    contradiction.
  - intros [Hy Hl].
    destruct (Z.leb_spec (response_score y) (response_score x)) as [Hle|Hlt];
      cbn [Shapes.descending].
    + split; [|split; assumption].
      intros z Hz. apply elem_of_cons in Hz as [->|Hz]; [exact Hle|].
      specialize (Hy z Hz). lia.
    + split; [|exact (IH Hl)].
      intros z Hz. rewrite insert_desc_perm in Hz.
      apply elem_of_cons in Hz as [->|Hz]; [lia | exact (Hy z Hz)].
Qed.

Lemma sorted_desc_descending (l : list A) :
  Shapes.descending response_score (sorted l).
Proof.
  unfold sorted, sorted_desc. induction l as [|x l IH]; cbn [foldr]; [exact I|].
  apply insert_desc_descending, IH.
Qed.

Lemma descending_app (l1 l2 : list A) (x y : A) :
  Shapes.descending response_score (l1 ++ l2) ->
  x ∈ l1 -> y ∈ l2 -> response_score y <= response_score x.
Proof.
  induction l1 as [|z l1 IH]; intros Hd Hx Hy.
  - apply elem_of_nil in Hx. contradiction.
  - cbn [app Shapes.descending] in Hd. destruct Hd as [Hz Hd].
    apply elem_of_cons in Hx as [->|Hx].
    + apply Hz. apply elem_of_app. right. exact Hy.
    + exact (IH Hd Hx Hy).
Qed.

(** The list is a first part of the sorted YouTube records followed by
    a first part of the sorted Twitch records, each part of 25 records
    or all there are. *)
Lemma priority_list_parts (l : list A) :
  exists a b,
    priority_list platform response_score l
    = firstn a (sorted (List.filter (on "YouTube") l))
      ++ firstn b (sorted (List.filter (on "Twitch") l)) /\
    (Nat.min 25 (length (List.filter (on "YouTube") l)) <= a)%nat /\
    (Nat.min 25 (length (List.filter (on "Twitch") l)) <= b)%nat /\
    (Nat.min a (length (List.filter (on "YouTube") l))
     + Nat.min b (length (List.filter (on "Twitch") l))
     = Nat.min 50 (length (List.filter (on "YouTube") l)
                   + length (List.filter (on "Twitch") l)))%nat.
Proof.
  unfold priority_list. fold (on "YouTube") (on "Twitch"). fold sorted.
  rewrite !length_sorted_desc.
  set (ys := List.filter (on "YouTube") l).
  set (ts := List.filter (on "Twitch") l).
  cbv zeta.
  destruct (Z.ltb_spec (Z.of_nat (length ys)) 25) as [Hy|Hy];
    [|destruct (Z.ltb_spec (Z.of_nat (length ts)) 25) as [Ht|Ht]].
  - exists (length ys),
      (Z.to_nat (25 + (50 - Z.of_nat (length ys)
                       - Z.min 25 (Z.of_nat (length ts))))).
    split.
    + unfold slice_to.
      destruct (Z.leb_spec 0 (25 + (50 - Z.of_nat (length ys)
                       - Z.min 25 (Z.of_nat (length ts))))); [|lia].
      rewrite (take_ge (sorted ys)) by (rewrite length_sorted_desc; lia).
      reflexivity.
    + lia.
  - exists (Z.to_nat (25 + (50 - Z.of_nat (length ts)
                            - Z.min 25 (Z.of_nat (length ys))))),
      (length ts).
    split.
    + unfold slice_to.
      destruct (Z.leb_spec 0 (25 + (50 - Z.of_nat (length ts)
                       - Z.min 25 (Z.of_nat (length ys))))); [|lia].
      rewrite (take_ge (sorted ts)) by (rewrite length_sorted_desc; lia).
      reflexivity.
    + lia.
  - exists 25%nat, 25%nat. split; [reflexivity | lia].
Qed.

Lemma filter_on_platform (name : string) (l : list A) (x : A) :
  x ∈ List.filter (on name) l <-> x ∈ l /\ platform x = name.
Proof.
  rewrite !list_elem_of_In, List.filter_In. unfold on.
  rewrite String.eqb_eq. reflexivity.
Qed.

End PriorityList.

Section PriorityListTop.

(** X21. The priority list has 50 records when the YouTube and Twitch
    records together are 50 or more, and all of them otherwise. *)
Theorem priority_list_length {A : Type} (platform : A -> string)
    (response_score : A -> Z) (all_influencers : list A) :
  length (priority_list platform response_score all_influencers)
  = Nat.min 50
      (length (List.filter (fun inf => String.eqb (platform inf) "YouTube")
                 all_influencers)
       + length (List.filter (fun inf => String.eqb (platform inf) "Twitch")
                   all_influencers)).
Proof.
  destruct (priority_list_parts platform response_score all_influencers)
    as (a & b & -> & _ & _ & Hlen).
  rewrite length_app, !length_take, !length_sorted_desc. exact Hlen.
Qed.

(** X22. The priority list holds records of the two platforms only,
    all taken from the records found; a record left out scores no more
    than any record of its platform that was taken; and each platform
    has its 25 best records in the list, or all it has. *)
Theorem priority_list_top {A : Type} (platform : A -> string)
    (response_score : A -> Z) (all_influencers : list A) :
  let chosen := priority_list platform response_score all_influencers in
  (forall x, x ∈ chosen ->
     x ∈ all_influencers /\
     (platform x = "YouTube" \/ platform x = "Twitch")) /\
  (forall x y, x ∈ chosen -> y ∈ all_influencers ->
     platform y = platform x -> y ∉ chosen ->
     response_score y <= response_score x) /\
  (forall name, name = "YouTube" \/ name = "Twitch" ->
     (Nat.min 25 (length (List.filter
                            (fun inf => String.eqb (platform inf) name)
                            all_influencers))
      <= length (List.filter (fun inf => String.eqb (platform inf) name)
                   chosen))%nat).
Proof.
  intros chosen. subst chosen.
  destruct (priority_list_parts platform response_score all_influencers)
    as (a & b & -> & Ha & Hb & _).
  set (on := fun (name : string) (inf : A) => String.eqb (platform inf) name) in *.
  set (ys := sorted_desc response_score (List.filter (on "YouTube") all_influencers)) in *.
  set (ts := sorted_desc response_score (List.filter (on "Twitch") all_influencers)) in *.
  assert (Hys : forall x, x ∈ ys <-> x ∈ all_influencers /\ platform x = "YouTube").
  { intros x. unfold ys. rewrite sorted_desc_perm.
    apply (filter_on_platform platform "YouTube"). }
  assert (Hts : forall x, x ∈ ts <-> x ∈ all_influencers /\ platform x = "Twitch").
  { intros x. unfold ts. rewrite sorted_desc_perm.
    apply (filter_on_platform platform "Twitch"). }
  assert (Htop : forall (l : list A) (n : nat) x y,
            Shapes.descending response_score l ->
            x ∈ firstn n l -> y ∈ l -> y ∉ firstn n l ->
            response_score y <= response_score x).
  { intros l n x y Hd Hx Hy Hny. rewrite <- (firstn_skipn n l) in Hd, Hy.
    apply elem_of_app in Hy as [Hy|Hy]; [contradiction|].
    exact (descending_app response_score _ _ x y Hd Hx Hy). }
  split; [|split].
  - intros x Hx. apply elem_of_app in Hx as [Hx|Hx].
    + apply subseteq_take, Hys in Hx as [Hin Hp]. split; [exact Hin | left; exact Hp].
    + apply subseteq_take, Hts in Hx as [Hin Hp]. split; [exact Hin | right; exact Hp].
  - intros x y Hx Hy Hp Hny.
    apply not_elem_of_app in Hny as [Hny1 Hny2].
    apply elem_of_app in Hx as [Hx|Hx].
    + apply (Htop ys a x y); try assumption.
      * apply sorted_desc_descending.
      * apply Hys. split; [exact Hy|]. rewrite Hp.
        apply subseteq_take, Hys in Hx as [_ Hx]. exact Hx.
    + apply (Htop ts b x y); try assumption.
      * apply sorted_desc_descending.
      * apply Hts. split; [exact Hy|]. rewrite Hp.
        apply subseteq_take, Hts in Hx as [_ Hx]. exact Hx.
  - assert (Hall : forall (name : string) (l : list A),
              (forall x, x ∈ l -> platform x = name) ->
              List.filter (on name) l = l).
    { intros name l Hl. induction l as [|x l IH]; [reflexivity|].
      cbn [List.filter]. unfold on at 1.
      rewrite (Hl x (list_elem_of_here _ _)), String.eqb_refl. f_equal.
      apply IH. intros z Hz. apply Hl, list_elem_of_further, Hz. }
    change (Nat.min 25 (length (List.filter (on "YouTube") all_influencers))
            <= a)%nat in Ha.
    change (Nat.min 25 (length (List.filter (on "Twitch") all_influencers))
            <= b)%nat in Hb.
    intros name [-> | ->].
    + change (Nat.min 25 (length (List.filter (on "YouTube") all_influencers))
              <= length (List.filter (on "YouTube") (firstn a ys ++ firstn b ts)))%nat.
      rewrite List.filter_app, length_app.
      rewrite (Hall "YouTube" (firstn a ys))
        by (intros x Hx; apply subseteq_take, Hys in Hx as [_ Hx]; exact Hx).
      rewrite length_take. unfold ys. rewrite length_sorted_desc. lia.
    + change (Nat.min 25 (length (List.filter (on "Twitch") all_influencers))
              <= length (List.filter (on "Twitch") (firstn a ys ++ firstn b ts)))%nat.
      rewrite List.filter_app, length_app.
      rewrite (Hall "Twitch" (firstn b ts))
        by (intros x Hx; apply subseteq_take, Hts in Hx as [_ Hx]; exact Hx).
      rewrite length_take. unfold ts. rewrite length_sorted_desc. lia.
Qed.

End PriorityListTop.

(** ** generate_campaign: the guard on the keys available *)

Section KeysAvailable.

Variable w : collaborators.

(** The composer raises on a value of the wrong type only. *)
Lemma generate_email_content_raises (influencer : pydict) (steam_key : string)
    (e : exn) :
  generate_email_content w influencer steam_key = Raise e ->
  e = TypeError \/ e = AttributeError.
Proof.
  unfold generate_email_content, follower_str, opening_line, and_lower.
  intros H.
  repeat match type of H with
  | context [as_int ?v] => destruct v; cbn [as_int as_str bind fmap result_fmap] in H
  | context [as_str ?v] => destruct v; cbn [as_int as_str bind fmap result_fmap] in H
  | context [if ?b then _ else _] => destruct b; cbn [as_int as_str bind fmap result_fmap] in H
  end;
  first [discriminate | injection H as <-; auto].
Qed.

Lemma keep_valid_raises (rows : list pydict) :
  forall acc e, for_each keep_valid rows acc = Raise e -> e = TypeError.
Proof.
  induction rows as [|row rows IH]; intros acc e H; [discriminate|].
  cbn [for_each] in H.
  destruct (keep_valid acc row) as [acc'|e'] eqn:Hk; cbn [bind] in H.
  - exact (IH _ _ H).
  - injection H as <-. unfold keep_valid in Hk.
    destruct (truth _ && _); [|discriminate].
    destruct (dget row "emails" (VStr "Not found")); try discriminate;
      try (injection Hk as <-; reflexivity).
    destruct (contains "@" s); discriminate.
Qed.

Lemma assign_key_index_error (K : list string) (create : bool)
    (st : campaign) (inf : pydict) :
  assign_key w K create st inf = Raise IndexError ->
  (length K <= key_index st)%nat.
Proof.
  unfold assign_key. intros H.
  destruct (inf !! "primary_email") as [[| | |email_addr]|]; try discriminate.
  case_bool_decide; [discriminate|].
  destruct (K !! key_index st) as [steam_key|] eqn:Hk;
    [|apply lookup_ge_None in Hk; exact Hk].
  destruct (generate_email_content w inf steam_key) as [content|e] eqn:Hc.
  - cbn [bind] in H. destruct create; discriminate.
  - cbn [bind] in H. injection H as ->.
    destruct (generate_email_content_raises _ _ _ Hc); discriminate.
Qed.

Lemma campaign_loop_index_error (K : list string) (create : bool)
    (batch : list pydict) :
  forall st,
    (key_index st + length batch <= length K)%nat ->
    for_each (assign_key w K create) batch st <> Raise IndexError.
Proof.
  induction batch as [|inf batch IH]; intros st Hlen H; [discriminate|].
  cbn [for_each] in H. cbn [length] in Hlen.
  destruct (assign_key w K create st inf) as [s1|e] eqn:Hs; cbn [bind] in H.
  - apply (IH s1); [|exact H].
    destruct (assign_key_count w K _ _ _ _ Hs) as [->|(_ & -> & _)]; lia.
  - injection H as ->. apply assign_key_index_error in Hs. lia.
Qed.

End KeysAvailable.

Section KeysAvailableRun.

(** X23. The guard on the number of keys works when the ledger is no
    larger than the pool and the limit, if one is given, is not
    negative: the run then never reads the pool beyond its end, that is,
    it never raises [IndexError]. *)
Theorem campaign_no_index_error (w : collaborators)
    (influencers : list pydict) (key_file : option string)
    (ledger_file : option ledger) (max_drafts : option Z)
    (create_gmail_drafts : bool) (clock : nat) (K : list string) :
  load_steam_keys key_file = Ok K ->
  (size (load_key_assignments ledger_file) <= length K)%nat ->
  (forall m, max_drafts = Some m -> 0 <= m) ->
  generate_campaign w influencers key_file ledger_file max_drafts
    create_gmail_drafts clock <> Raise IndexError.
Proof.
  intros HK Hsize Hmax H. unfold generate_campaign in H.
  destruct (for_each keep_valid influencers []) as [valid|e] eqn:Hv;
    cbn [bind] in H;
    [|injection H as ->; apply keep_valid_raises in Hv; discriminate].
  rewrite HK in H. cbn [bind] in H.
  destruct (length K =? 0)%nat; [discriminate|].
  set (L := load_key_assignments ledger_file) in *.
  match type of H with
  | bind (campaign_loop _ _ _ ?c _ ?b) _ = _ =>
      destruct (campaign_loop w K L c clock b) as [st|e] eqn:Hloop;
      cbn [bind] in H; [discriminate|];
      injection H as ->; revert Hloop; unfold campaign_loop;
      apply campaign_loop_index_error; cbn [key_index];
      pose proof (length_slice_to
        (if Z.of_nat (length K) - Z.of_nat (size L) <?
            match given max_drafts with
            | Some m => Z.min (Z.of_nat (length valid)) m
            | None => Z.of_nat (length valid)
            end
         then Z.of_nat (length K) - Z.of_nat (size L)
         else match given max_drafts with
              | Some m => Z.min (Z.of_nat (length valid)) m
              | None => Z.of_nat (length valid)
              end)
        (match given max_drafts with
         | Some m =>
             if m <? Z.of_nat (length valid) then slice_to m valid else valid
         | None => valid
         end)) as [_ Hlen]
  end.
  assert (Hgiven : forall m, given max_drafts = Some m -> 0 <= m).
  { intros m. unfold given. destruct max_drafts as [m0|]; [|discriminate].
    destruct (m0 =? 0); [discriminate|]. intros Hm. injection Hm as <-.
    apply Hmax. reflexivity. }
  destruct (given max_drafts) as [m|].
  - specialize (Hgiven m eq_refl).
    destruct (Z.ltb_spec (Z.of_nat (length K) - Z.of_nat (size L))
                (Z.min (Z.of_nat (length valid)) m)); lia.
  - destruct (Z.ltb_spec (Z.of_nat (length K) - Z.of_nat (size L))
                (Z.of_nat (length valid))); lia.
Qed.

Lemma campaign_no_index_error_witness :
  generate_campaign sample_world two_rows (Some sample_csv_pool)
    (Some sample_ledger) (Some 5) false 0 <> Raise IndexError.
Proof.
  apply (campaign_no_index_error sample_world two_rows (Some sample_csv_pool)
           (Some sample_ledger) (Some 5) false 0%nat
           [sample_key; second_key]).
  - vm_compute. reflexivity.
  - cbn [load_key_assignments]. unfold sample_ledger.
    rewrite map_size_singleton. cbn [length]. lia.
  - intros m Hm. injection Hm as <-. lia.
Defined.

End KeysAvailableRun.

(** ** generate_icebreaker *)

Section Icebreaker.

(** The loop with [break] returns the first game of the table whose
    lowered name stands in the lowered title, and the name it was given
    when there is none. *)
Lemma detect_game_find (games : list string) (recent_video game_name : string) :
  detect_game games recent_video game_name
  = default game_name
      (List.find (fun game => contains (lower game) (lower recent_video)) games).
Proof.
  induction games as [|game games IH]; [reflexivity|].
  cbn [detect_game List.find].
  destruct (contains (lower game) (lower recent_video)); [reflexivity | exact IH].
Qed.

(** X24. The games are looked up as substrings of the lowered title. A
    title in which the letters [ori] stand anywhere, in any casing and
    inside any word, is therefore never answered with the generic
    sentence when no game name is passed: the icebreaker praises the
    first game of the table found in the title, which is [Ori] when no
    other one is. *)
Theorem generate_icebreaker_substring (format_1f : Z -> Z -> string)
    (platform name recent_video : string) (subscriber_count : Z) :
  contains "ori" (lower recent_video) = true ->
  exists game follower_str,
    List.find (fun game => contains (lower game) (lower recent_video))
      common_games = Some game /\
    generate_icebreaker format_1f platform name recent_video
      subscriber_count ""
    = "Hi " +:+ name +:+ "! Loved your recent " +:+ game
      +:+ " content. Your " +:+ follower_str
      +:+ " followers clearly appreciate your platformer gameplay!".
Proof.
  intros Hori. unfold generate_icebreaker. cbn [nonempty negb].
  rewrite detect_game_find.
  assert (Hfind : exists game,
    List.find (fun game => contains (lower game) (lower recent_video))
      common_games = Some game /\ nonempty game = true).
  { unfold common_games. cbn [List.find].
    repeat match goal with
    | |- context [if contains ?k ?s then _ else _] =>
        destruct (contains k s) eqn:?; [eexists; split; reflexivity|]
    end.
    change (lower "Ori") with "ori" in *. congruence. }
  destruct Hfind as (game & -> & Hne). cbn [default from_option id].
  rewrite Hne. eexists game, _. split; reflexivity.
Qed.

Lemma generate_icebreaker_substring_witness :
  exists game follower_str,
    List.find (fun game => contains (lower game)
                             (lower "Horizon: a priority list"))
      common_games = Some game /\
    generate_icebreaker (format_1f sample_world) "YouTube" "Bob"
      "Horizon: a priority list" 500 ""
    = "Hi " +:+ "Bob" +:+ "! Loved your recent " +:+ game
      +:+ " content. Your " +:+ follower_str
      +:+ " followers clearly appreciate your platformer gameplay!".
Proof.
  apply (generate_icebreaker_substring (format_1f sample_world) "YouTube" "Bob"
           "Horizon: a priority list" 500).
  vm_compute. reflexivity.
Defined.

End Icebreaker.

(** ** extract_emails: markers in a casing that the code does not list *)

Section OtherCasing.

(** The pattern needs an at sign. *)
Lemma findall_without_at (s : string) :
  contains "@" s = false -> findall email_pattern s = [].
Proof.
  intros Hno. unfold findall.
  destruct (findall_go email_pattern 0 None s) as [|e l] eqn:Hf; [reflexivity|].
  exfalso.
  assert (He : e ∈ findall_go email_pattern 0 None s)
    by (rewrite Hf; apply list_elem_of_here).
  apply findall_go_match in He as (prev & pre & s' & n & Hs & Hm & ->).
  destruct (address_shape_chars _ (match_email_shape _ _ _ Hm)) as (_ & _ & Hat).
  assert (Hin : contains "@" s = true).
  { apply occurs_contains. rewrite Hs, (take_drop_whole n s').
    apply occurs_append_r, occurs_append_l, Hat. }
  congruence.
Qed.

(** The words in upper case are handled where they stand in brackets or
    parentheses, and the words between blanks in lower case. *)
Example extract_emails_listed_casings :
  extract_emails "john[AT]site[DOT]org" = ["john@site.org"] /\
  extract_emails "john(AT)site(DOT)org" = ["john@site.org"] /\
  extract_emails "john at site dot org" = ["john@site.org"].
Proof. vm_compute. repeat split; reflexivity. Qed.

(** C4. The markers are replaced in the casings that the code lists,
    and in no other: a text with no at sign in which none of the twelve
    listed markers stands, such as an address written with [ AT ] and
    [ DOT ] or with [[At]], comes through the replacements as it is, and
    no address is found in it. The claim has every casing of a marker
    normalized. *)
Theorem extract_emails_other_casing (text : string) :
  (forall old new, (old, new) ∈ Spec.literal_markers ->
                   contains old text = false) ->
  contains "@" text = false ->
  deobfuscate text = text /\ extract_emails text = [].
Proof.
  intros Hnone Hat.
  assert (Hd : deobfuscate text = text) by exact (deobfuscate_absent text Hnone).
  split; [exact Hd|].
  unfold extract_emails. destruct (negb (nonempty text)); [reflexivity|].
  cbv zeta. rewrite Hd, (findall_without_at text Hat). reflexivity.
Qed.

Lemma extract_emails_other_casing_witness :
  deobfuscate "john AT site DOT org" = "john AT site DOT org" /\
  extract_emails "john AT site DOT org" = [].
Proof.
  apply (extract_emails_other_casing "john AT site DOT org").
  - intros old new H. unfold Spec.literal_markers in H.
    repeat (apply elem_of_cons in H as [H|H];
            [injection H as -> ->; vm_compute; reflexivity|]).
    inversion H.
  - vm_compute. reflexivity.
Defined.

End OtherCasing.
